(** * Verification of [editors/code/src/net.ts]

    A shallow embedding of the release fetcher and installer of the
    rust-analyzer VS Code extension ([fetchRelease], [download],
    [downloadFile]) together with the properties its specification states.

    JavaScript numbers are IEEE 754 binary64 values.  They are modelled by
    [spec_float] with the operations of [SpecFloat] at precision 53 and
    maximal exponent 1024, so that [/], [*], [-] and [+] round exactly as
    the engine does.  Asynchronous functions become functions in a state
    and error monad over a [World]: the file system behind
    [vscode.workspace.fs] and [fs], and the trace of what the code did to
    its collaborators (logger, network, progress sink, file system). *)

From Stdlib Require Import ZArith NArith List String Ascii Bool Lia Lra Reals Sorted.
From Stdlib Require Import Floats.SpecFloat DecimalString.
From Stdlib Require Strings.Byte DecimalPos DecimalN.
Import ListNotations.

Local Open Scope Z_scope.

(** ** JavaScript numbers *)

Module JsNumber.

Definition prec : Z := 53.
Definition emax : Z := 1024.

Definition number := spec_float.

Definition NaN : number := S754_nan.
Definition Infinity : number := S754_infinity false.

(** The Number value of a mathematical integer (an integer literal, the
    [length] of a buffer): the nearest binary64 value. *)
Definition of_Z (z : Z) : number := binary_normalize prec emax z 0 false.

Definition add : number -> number -> number := SFadd prec emax.
Definition sub : number -> number -> number := SFsub prec emax.
Definition mul : number -> number -> number := SFmul prec emax.
Definition div : number -> number -> number := SFdiv prec emax.

(** [x === y] and [x !== y] on numbers: [NaN] differs from everything,
    itself included, and the two zeros are equal. *)
Definition strict_eq (x y : number) : bool := SFeqb x y.
Definition strict_neq (x y : number) : bool := negb (SFeqb x y).

(** [Number.isNaN]. *)
Definition isNaN (x : number) : bool :=
  match x with S754_nan => true | _ => false end.

(** [Math.round]: a non-finite or integral argument is returned as it is;
    otherwise the closest integer, the one nearer to +Infinity on a tie.
    An argument in [-0.5, 0) gives [-0].  With [e < 0] the value is
    [m / 2^(-e)], and [floor (v + 1/2)] is computed on integers. *)
Definition Math_round (x : number) : number :=
  match x with
  | S754_finite s m e =>
      if 0 <=? e then x
      else
        let n := (2 * cond_Zopp s (Zpos m) + 2 ^ (- e)) / 2 ^ (1 - e) in
        if n =? 0 then S754_zero s else of_Z n
  | _ => x
  end.

(** [Math.floor], which the code does not call: it is here to state the
    formula of the specification next to the one of the code. *)
Definition Math_floor (x : number) : number :=
  match x with
  | S754_finite s m e =>
      if 0 <=? e then x
      else
        let n := cond_Zopp s (Zpos m) / 2 ^ (- e) in
        if n =? 0 then S754_zero s else of_Z n
  | _ => x
  end.

(** *** [Number(value)] for a string or [null]

    [StringToNumber] of ECMAScript on strings of Latin-1 code units:
    white space is trimmed, the empty string is [+0], then
    [StrNumericLiteral] is a signed decimal literal, [Infinity] or an
    unsigned binary, octal or hexadecimal integer literal; anything else
    is [NaN].  The mathematical value is rounded to the nearest
    binary64 value. *)

Definition is_whitespace (c : ascii) : bool :=
  let n := N_of_ascii c in
  ((9 <=? n) && (n <=? 13) || (n =? 32) || (n =? 160))%N.

Fixpoint trim_start (cs : list ascii) : list ascii :=
  match cs with
  | c :: cs' => if is_whitespace c then trim_start cs' else cs
  | [] => []
  end.

Definition trim (cs : list ascii) : list ascii :=
  rev (trim_start (rev (trim_start cs))).

Definition digit_value (base : Z) (c : ascii) : option Z :=
  let n := Z.of_N (N_of_ascii c) in
  let v :=
    if (48 <=? n) && (n <=? 57) then n - 48
    else if (97 <=? n) && (n <=? 122) then n - 87
    else if (65 <=? n) && (n <=? 90) then n - 55
    else base in
  if v <? base then Some v else None.

(** The value of a string made of digits of the base only. *)
Fixpoint digits_value (base acc : Z) (cs : list ascii) : option Z :=
  match cs with
  | [] => Some acc
  | c :: cs' =>
      match digit_value base c with
      | Some v => digits_value base (base * acc + v) cs'
      | None => None
      end
  end.

(** The longest prefix of decimal digits, and the rest. *)
Fixpoint span_digits (cs : list ascii) : list ascii * list ascii :=
  match cs with
  | c :: cs' =>
      match digit_value 10 c with
      | Some _ => let '(ds, r) := span_digits cs' in (c :: ds, r)
      | None => ([], cs)
      end
  | [] => ([], [])
  end.

Definition decimal (ds : list ascii) : Z :=
  match digits_value 10 0 ds with Some v => v | None => 0 end.

(** [ExponentPart_opt] followed by the end of the string. *)
Definition parse_exponent (cs : list ascii) : option Z :=
  match cs with
  | [] => Some 0
  | c :: r =>
      if (Ascii.eqb c "e" || Ascii.eqb c "E")%char then
        let '(neg, r') :=
          match r with
          | "-"%char :: r' => (true, r')
          | "+"%char :: r' => (false, r')
          | _ => (false, r)
          end in
        match span_digits r' with
        | ((_ :: _) as ds, []) => Some (cond_Zopp neg (decimal ds))
        | _ => None
        end
      else None
  end.

(** [StrUnsignedDecimalLiteral] other than [Infinity]: the digits read as
    an integer and the power of ten it is scaled by. *)
Definition parse_unsigned_decimal (cs : list ascii) : option (Z * Z) :=
  let '(ip, r1) := span_digits cs in
  let '(fp, r2) :=
    match r1 with
    | "."%char :: r => span_digits r
    | _ => ([], r1)
    end in
  match ip ++ fp with
  | [] => None
  | ds =>
      match parse_exponent r2 with
      | Some e => Some (decimal ds, e - Z.of_nat (List.length fp))
      | None => None
      end
  end.

(** The binary64 value nearest to [(-1)^s * m * 10^e], for [0 <= m]. *)
Definition round_decimal (s : bool) (m e : Z) : number :=
  if m =? 0 then S754_zero s
  else if 0 <=? e then binary_normalize prec emax (cond_Zopp s (m * 10 ^ e)) 0 false
  else
    let '(q, e2, l) := SFdiv_core_binary prec emax m 0 (10 ^ (- e)) 0 in
    binary_round_aux prec emax s q e2 l.

Definition parse_signed_decimal (cs : list ascii) : number :=
  let '(s, r) :=
    match cs with
    | "-"%char :: r => (true, r)
    | "+"%char :: r => (false, r)
    | _ => (false, cs)
    end in
  if String.eqb (string_of_list_ascii r) "Infinity" then S754_infinity s
  else
    match parse_unsigned_decimal r with
    | Some (m, e) => round_decimal s m e
    | None => NaN
    end.

Definition parse_radix (base : Z) (ds : list ascii) : number :=
  match ds with
  | [] => NaN
  | _ => match digits_value base 0 ds with Some v => of_Z v | None => NaN end
  end.

Definition StringToNumber (str : string) : number :=
  match trim (list_ascii_of_string str) with
  | [] => S754_zero false
  | ("0"%char :: c :: ds) as cs =>
      if (Ascii.eqb c "x" || Ascii.eqb c "X")%char then parse_radix 16 ds
      else if (Ascii.eqb c "o" || Ascii.eqb c "O")%char then parse_radix 8 ds
      else if (Ascii.eqb c "b" || Ascii.eqb c "B")%char then parse_radix 2 ds
      else parse_signed_decimal cs
  | cs => parse_signed_decimal cs
  end.

(** [Number(v)] where [v] is a string or [null]: [Number(null)] is [+0]. *)
Definition Number (v : option string) : number :=
  match v with
  | None => S754_zero false
  | Some str => StringToNumber str
  end.

End JsNumber.

Import JsNumber.

(** ** Strings *)

(** [s.includes(pat)]: [pat] occurs in [s] as a substring. *)
Fixpoint includes (s pat : string) : bool :=
  if String.prefix pat s then true
  else
    match s with
    | EmptyString => false
    | String _ s' => includes s' pat
    end.

(** A non-negative integer in a template literal. *)
Definition show_N (n : N) : string := NilZero.string_of_uint (N.to_uint n).

Definition hex_digit (n : N) : ascii :=
  if (n <? 10)%N then ascii_of_N (48 + n) else ascii_of_N (87 + n).

(** [buffer.toString("hex")]: two lower-case digits for each byte. *)
Fixpoint hex (bs : list Byte.byte) : string :=
  match bs with
  | [] => EmptyString
  | b :: bs' =>
      let n := Byte.to_N b in
      String (hex_digit (n / 16)) (String (hex_digit (n mod 16)) (hex bs'))
  end.

(** Truthiness of a [string | null | undefined]: the empty string is
    falsy, as [null] and [undefined] are. *)
Definition truthy (v : option string) : bool :=
  match v with
  | Some s => negb (String.eqb s "")
  | None => false
  end.

(** ** Results, errors and the collaborators' data *)

(** A thrown value: an [Error] with its [name] and [message], and the [code]
    a [vscode.FileSystemError] carries. *)
Record JsError := {
  err_name : string;
  err_code : option string;
  err_message : string
}.

Inductive result (A : Type) : Type :=
| Ok (a : A)
| Err (e : JsError).

Arguments Ok {A} a.
Arguments Err {A} e.

(** What awaiting a promise comes to: it settles, with a value or with
    the error it rejects with, or it stays pending for ever.  A result is
    read as the promise settled with it. *)
Inductive outcome (A : Type) : Type :=
| Settled (r : result A)
| Pending.

Arguments Settled {A} r.
Arguments Pending {A}.

Coercion Settled : result >-> outcome.

#[local] Arguments pair {A B}%_type_scope & a b.

(** [new Error(message)]. *)
Definition new_Error (message : string) : JsError :=
  {| err_name := "Error"; err_code := None; err_message := message |}.

(** An error in a template literal: [Error.prototype.toString]. *)
Definition err_toString (e : JsError) : string :=
  if String.eqb (err_message e) "" then err_name e
  else if String.eqb (err_name e) "" then err_message e
  else (err_name e ++ ": " ++ err_message e)%string.

Definition Buffer := list Byte.byte.

Definition Headers := list (string * string).

(** [headers.get(name)]: the values of the header joined by a comma, [null]
    when there is none.  Names are kept in lower case. *)
Definition headers_get (h : Headers) (name : string) : option string :=
  match filter (fun kv => String.eqb (fst kv) name) h with
  | [] => None
  | kvs => Some (String.concat ", " (map snd kvs))
  end.

(** A response of [node-fetch]: its body is a stream of chunks that may end
    in a failure of the transport, the ["error"] event of the stream. *)
Record Response := {
  response_url : string;
  status : N;
  headers : Headers;
  body : list Buffer;
  body_error : option JsError
}.

Definition ok (r : Response) : bool := ((200 <=? status r) && (status r <? 300))%N.

(** What the methods of [node-fetch] that read a whole body reject with
    when the stream of the body of [url] fails with [e]: an [AbortError]
    as it is, any other error wrapped in a [FetchError] of type
    ["system"] that keeps its code. *)
Definition body_failure (url : string) (e : JsError) : JsError :=
  if String.eqb (err_name e) "AbortError" then e
  else {| err_name := "FetchError";
          err_code := err_code e;
          err_message := "Invalid response body while trying to fetch " ++ url
                         ++ ": " ++ err_message e |}.

(** [await response.text()]. *)
Definition text (r : Response) : result string :=
  match body_error r with
  | None => Ok (string_of_list_byte (List.concat (body r)))
  | Some e => Err (body_failure (response_url r) e)
  end.

(** What [fetch(url, init)] is called with; [agent] is the proxy endpoint an
    [HttpsProxyAgent] was built from, absent on the direct transport. *)
Record Request := {
  req_url : string;
  req_headers : option Headers;
  agent : option string
}.

Record Asset := {
  asset_name : string;
  browser_download_url : string
}.

Record GithubRelease := {
  name : string;
  id : Z;
  published_at : string;
  assets : list Asset
}.

(** A file in a directory: [vscode.Uri.joinPath(vscode.Uri.file(dir), base)]. *)
Record Uri := {
  uri_dir : string;
  uri_base : string
}.

Definition joinPath (dir base : string) : Uri := {| uri_dir := dir; uri_base := base |}.

(** [dir] ends with a slash, as the root directory does. *)
Fixpoint ends_with_slash (dir : string) : bool :=
  match dir with
  | EmptyString => false
  | String c EmptyString => Ascii.eqb c "/"
  | String _ rest => ends_with_slash rest
  end.

(** [uri.fsPath] of a joined path: the directory and the base with one
    separator between them, [/tool] in the root directory. *)
Definition fsPath (u : Uri) : string :=
  if ends_with_slash (uri_dir u) then (uri_dir u ++ uri_base u)%string
  else (uri_dir u ++ "/" ++ uri_base u)%string.

(** What [path.parse] returns for a file path: [dir], [name] and [ext], the
    [base] being [name ++ ext]. *)
Record ParsedPath := {
  dir : string;
  pname : string;
  ext : string
}.

(** [DownloadOpts].  The destination is held by the components
    [path.parse(opts.dest.fsPath)] gives; [opts.dest] itself is the file
    [name ++ ext] of the directory [dir]. *)
Record DownloadOpts := {
  progressTitle : string;
  url : string;
  dest : ParsedPath;
  mode : option N;
  gunzip : option bool;
  httpProxy : option string
}.

Definition dest_uri (opts : DownloadOpts) : Uri :=
  joinPath (dir (dest opts)) (pname (dest opts) ++ ext (dest opts))%string.

(** The message [`${newPercentage.toFixed(0)}%`], kept by the number it
    renders. *)
Inductive Message := Percent (percentage : number).

Record ProgressEvent := {
  message : Message;
  increment : number
}.

Definition percentage (ev : ProgressEvent) : number :=
  let '(Percent p) := message ev in p.

Inductive FileType := FtUnknown | FtFile | FtDirectory | FtSymbolicLink.

Inductive LogLevel := Debug | Info | Error.

Inductive LogArg :=
| LText (s : string)
| LStatus (n : N)
| LNumber (x : number)
| LHeaders (h : Headers).

(** What the code did to its collaborators, in order. *)
Inductive Event :=
| ELog (level : LogLevel) (args : list LogArg)
| EFetch (req : Request)
| EWithProgress (title : string)
| EReport (ev : ProgressEvent)
| ERename (source target : Uri)
| EReadDirectory (d : string)
| EDelete (u : Uri)
| ECreateWriteStream (u : Uri) (mode : option N)
| EWrite (u : Uri) (data : Buffer)
| EEnd (u : Uri)
| EDestroy (u : Uri).

(** The file system behind [vscode.workspace.fs] ([rename] with
    [overwrite: true], [readDirectory], [delete]) and behind the write
    stream of [fs.createWriteStream]. *)
Class FileSystem (S : Type) := {
  fs_rename : Uri -> Uri -> S -> result unit * S;
  fs_readDirectory : string -> S -> result (list (string * FileType)) * S;
  fs_delete : Uri -> S -> result unit * S;
  fs_createWriteStream : Uri -> option N -> S -> result unit * S;
  fs_write : Uri -> Buffer -> S -> result unit * S;
  fs_end : Uri -> S -> result unit * S
}.

(** A transform stream such as [zlib.createGunzip()]. *)
Record Transform := {
  tstate : Type;
  tinit : tstate;
  transform : tstate -> Buffer -> result (tstate * Buffer);
  flush : tstate -> result Buffer
}.

(** The stream that hands its input on unchanged. *)
Definition PassThrough : Transform := {|
  tstate := unit;
  tinit := tt;
  transform := fun _ chunk => Ok (tt, chunk);
  flush := fun _ => Ok []
|}.

Definition GITHUB_API_ENDPOINT_URL : string := "https://api.github.com".
Definition OWNER : string := "rust-analyzer".
Definition REPO : string := "rust-analyzer".

(** The two paths [download] derives from the destination and the random
    token: where the server in place is moved to, and where the artifact
    is downloaded to. *)
Definition oldServerPath (rawDest : ParsedPath) (randomHex : string) : Uri :=
  joinPath (dir rawDest) (pname rawDest ++ "-stale-" ++ randomHex ++ ext rawDest)%string.

Definition tempFilePath (rawDest : ParsedPath) (randomHex : string) : Uri :=
  joinPath (dir rawDest) (pname rawDest ++ randomHex)%string.

(** ** The progress callback of [download] *)

(** [Math.round((readBytes / totalBytes) * 100)], the value the callback
    calls [newPercentage]. *)
Definition newPercentage (readBytes totalBytes : number) : number :=
  Math_round (mul (div readBytes totalBytes) (of_Z 100)).

(** The callback handed to [downloadFile]: from [lastPercentage] and the
    two byte counts, the report made (if any) and the new
    [lastPercentage]. *)
Definition onProgress (lastPercentage readBytes totalBytes : number)
  : option ProgressEvent * number :=
  let p := newPercentage readBytes totalBytes in
  if strict_neq p lastPercentage then
    (Some {| message := Percent p; increment := sub p lastPercentage |}, p)
  else (None, lastPercentage).

(** The ["data"] listener of [downloadFile] around a callback [cb] whose
    closure holds a [C]:
    [readBytes += chunk.length; onProgress(readBytes, totalBytes)]. *)
Definition on_data {C : Type} (cb : C -> number -> number -> option ProgressEvent * C)
    (totalBytes : number) (st : number * C) (chunk_length : Z)
  : option ProgressEvent * (number * C) :=
  let '(readBytes, c) := st in
  let readBytes := add readBytes (of_Z chunk_length) in
  let '(ev, c) := cb c readBytes totalBytes in
  (ev, (readBytes, c)).

(** The listener run over the chunks of a body, given by their lengths:
    the reports made, and the final [readBytes] and closure. *)
Fixpoint on_data_all {C : Type} (cb : C -> number -> number -> option ProgressEvent * C)
    (totalBytes : number) (st : number * C) (lengths : list Z)
  : list ProgressEvent * (number * C) :=
  match lengths with
  | [] => ([], st)
  | len :: rest =>
      let '(ev, st') := on_data cb totalBytes st len in
      let '(evs, st'') := on_data_all cb totalBytes st' rest in
      (match ev with Some e => e :: evs | None => evs end, st'')
  end.

(** The reports of one download: [readBytes] and [lastPercentage] start
    at [0]. *)
Definition progress_events (totalBytes : number) (lengths : list Z) : list ProgressEvent :=
  fst (on_data_all onProgress totalBytes (of_Z 0, of_Z 0) lengths).

(** The percentage of the specification, [floor(readBytes / totalBytes * 100)]. *)
Definition floor_percentage (readBytes totalBytes : number) : number :=
  Math_floor (mul (div readBytes totalBytes) (of_Z 100)).

Definition is_hex_digit (c : ascii) : bool :=
  let n := N_of_ascii c in
  ((48 <=? n) && (n <=? 57) || (97 <=? n) && (n <=? 102))%N.

(** What is left of [s] after the prefix [pre], if it starts with it. *)
Fixpoint strip_prefix (pre s : string) : option string :=
  match pre with
  | EmptyString => Some s
  | String c pre' =>
      match s with
      | String d s' => if Ascii.eqb c d then strip_prefix pre' s' else None
      | EmptyString => None
      end
  end.

(** What is left of [s] after [n] hexadecimal digits, if it starts with
    them. *)
Fixpoint strip_hex (n : nat) (s : string) : option string :=
  match n with
  | O => Some s
  | Datatypes.S n' =>
      match s with
      | String c s' => if is_hex_digit c then strip_hex n' s' else None
      | EmptyString => None
      end
  end.

(** The displaced-artifact naming pattern of the specification,
    [base-stale-<random>ext], with the ten hexadecimal digits [download]
    draws for [<random>]. *)
Definition matches_displaced_pattern (base ext entry : string) : bool :=
  match strip_prefix (base ++ "-stale-") entry with
  | Some rest =>
      match strip_hex 10 rest with
      | Some tail => String.eqb tail ext
      | None => false
      end
  | None => false
  end.

(** ** The functions of [net.ts] *)

Section Net.

Context {S : Type} {FS : FileSystem S}.

(** [fetch] of [node-fetch] over the network of the run. *)
Variable fetch : Request -> result Response.
(** The decoding [response.json()] applies to the body. *)
Variable json : string -> result GithubRelease.
(** [zlib.createGunzip()]. *)
Variable createGunzip : Transform.
(** [major] and [minor] of [process.version]. *)
Variable node_version : N * N.

Record World := {
  fs : S;
  trace : list Event
}.

(** An asynchronous computation on the world: what awaiting it comes
    to, and the world it leaves. *)
Definition M (A : Type) : Type := World -> outcome A * World.

Definition ret {A} (a : A) : M A := fun w => (Ok a, w).

Definition throw {A} (e : JsError) : M A := fun w => (Err e, w).

(** A promise that never settles. *)
Definition pending {A} : M A := fun w => (Pending, w).

(** [await m] and then [k]: what follows an [await] that throws or never
    settles does not run. *)
Definition bind {A B} (m : M A) (k : A -> M B) : M B :=
  fun w =>
    match m w with
    | (Settled (Ok a), w') => k a w'
    | (Settled (Err e), w') => (Err e, w')
    | (Pending, w') => (Pending, w')
    end.

Notation "x <- m ;; k" := (bind m (fun x => k))
  (at level 61, m at next level, right associativity).
Notation "m ;; k" := (bind m (fun _ => k))
  (at level 61, right associativity).

(** [try { m } catch (err) { handler err }]. *)
Definition try_catch {A} (m : M A) (handler : JsError -> M A) : M A :=
  fun w =>
    match m w with
    | (Settled (Ok a), w') => (Ok a, w')
    | (Settled (Err e), w') => handler e w'
    | (Pending, w') => (Pending, w')
    end.

Definition lift {A} (r : result A) : M A := fun w => (Settled r, w).

Definition emit (e : Event) : M unit :=
  fun w => (Ok tt, {| fs := fs w; trace := trace w ++ [e] |}).

Definition on_fs {A} (op : S -> result A * S) : M A :=
  fun w => let '(r, s) := op (fs w) in (Settled r, {| fs := s; trace := trace w |}).

(** Modelled from the spec: [log] of [./util], which is not among the
    sources.  It is the structured logger of the specification, accepting
    leveled records (debug, info, error) with arbitrary payloads; a call
    is recorded in the trace with its level and arguments and never
    throws. *)
Definition log_debug (args : list LogArg) : M unit := emit (ELog Debug args).
Definition log_info (args : list LogArg) : M unit := emit (ELog Info args).
Definition log_error (args : list LogArg) : M unit := emit (ELog Error args).

Definition do_fetch (req : Request) : M Response :=
  emit (EFetch req) ;; lift (fetch req).

Definition rename (source target : Uri) : M unit :=
  emit (ERename source target) ;; on_fs (fs_rename source target).

Definition readDirectory (d : string) : M (list (string * FileType)) :=
  emit (EReadDirectory d) ;; on_fs (fs_readDirectory d).

Definition delete (u : Uri) : M unit :=
  emit (EDelete u) ;; on_fs (fs_delete u).

Definition createWriteStream (u : Uri) (mode : option N) : M unit :=
  emit (ECreateWriteStream u mode) ;; on_fs (fs_createWriteStream u mode).

Definition write (u : Uri) (data : Buffer) : M unit :=
  match data with
  | [] => ret tt
  | _ => emit (EWrite u data) ;; on_fs (fs_write u data)
  end.

Definition end_stream (u : Uri) : M unit :=
  emit (EEnd u) ;; on_fs (fs_end u).

Definition report (ev : option ProgressEvent) : M unit :=
  match ev with
  | Some e => emit (EReport e)
  | None => ret tt
  end.

Fixpoint for_each {A} (f : A -> M unit) (l : list A) : M unit :=
  match l with
  | [] => ret tt
  | x :: rest => f x ;; for_each f rest
  end.

(** Modelled from the spec: [assert] of [./util], which is not among the
    sources.  A check that fails raises the error the specification
    names [ProtocolInvariantError]; a check that holds does nothing. *)
Definition assert (condition : bool) (explanation : string) : M unit :=
  if condition then ret tt
  else throw {| err_name := "ProtocolInvariantError"; err_code := None;
                err_message := explanation |}.

Definition fetchRelease (releaseTag : string) (githubToken httpProxy : option string)
  : M GithubRelease :=
  let apiEndpointPath :=
    ("/repos/" ++ OWNER ++ "/" ++ REPO ++ "/releases/tags/" ++ releaseTag)%string in
  let requestUrl := (GITHUB_API_ENDPOINT_URL ++ apiEndpointPath)%string in
  log_debug [LText "Issuing request for released artifacts metadata to"; LText requestUrl] ;;
  let request_headers :=
    ("Accept", "application/vnd.github.v3+json")%string
    :: match githubToken with
       | Some token => [("Authorization", "token " ++ token)%string]
       | None => []
       end in
  response <-
    (if truthy httpProxy then
       log_debug [LText ("Fetching release metadata via proxy: "
                   ++ match httpProxy with Some p => p | None => "" end)] ;;
       do_fetch {| req_url := requestUrl; req_headers := Some request_headers; agent := httpProxy |}
     else
       do_fetch {| req_url := requestUrl; req_headers := Some request_headers; agent := None |}) ;;
  if negb (ok response) then
    body <- lift (text response) ;;
    log_error [LText "Error fetching artifact release info"; LText requestUrl;
               LText releaseTag; LHeaders (headers response);
               LStatus (status response); LText body] ;;
    throw (new_Error ("Got response " ++ show_N (status response)
                      ++ " when trying to fetch "
                      ++ "release info for " ++ releaseTag ++ " release"))
  else
    body <- lift (text response) ;;
    lift (json body).

(** [pipeline(srcStream, destFileStream)] with the ["data"] listener on
    the body: each chunk is counted and reported, then handed through
    the transform to the write stream. *)
Fixpoint pump {C : Type} (cb : C -> number -> number -> option ProgressEvent * C)
    (totalBytes : number) (destFilePath : Uri) (T : Transform) (ts : tstate T)
    (st : number * C) (chunks : list Buffer) : M (tstate T * (number * C)) :=
  match chunks with
  | [] => ret (ts, st)
  | chunk :: rest =>
      let '(ev, st') := on_data cb totalBytes st (Z.of_nat (List.length chunk)) in
      report ev ;;
      r <- lift (transform T ts chunk) ;;
      write destFilePath (snd r) ;;
      pump cb totalBytes destFilePath T (fst r) st' rest
  end.

(** [downloadFile].  A failure of the body stream ends [pipeline] with
    that error when the body itself is its source.  With [gunzip] the
    source is [res.body.pipe(zlib.createGunzip())]: [pipe] hands no
    error on, the gunzip stream never ends and [pipeline] never
    settles. *)
Definition downloadFile {C : Type} (urlString : string) (destFilePath : Uri)
    (mode : option N) (gunzip : bool) (httpProxy : option string)
    (cb : C -> number -> number -> option ProgressEvent * C) (c : C) : M C :=
  res <-
    (if truthy httpProxy then
       log_debug [LText ("Downloading " ++ urlString ++ " via proxy: "
                   ++ match httpProxy with Some p => p | None => "" end)] ;;
       do_fetch {| req_url := urlString; req_headers := None; agent := httpProxy |}
     else
       do_fetch {| req_url := urlString; req_headers := None; agent := None |}) ;;
  if negb (ok res) then
    log_error [LText "Error"; LStatus (status res);
               LText "while downloading file from"; LText urlString] ;;
    body <- lift (text res) ;;
    log_error [LText body; LHeaders (headers res)] ;;
    throw (new_Error ("Got response " ++ show_N (status res)
                      ++ " when trying to download a file."))
  else
    let totalBytes := Number (headers_get (headers res) "content-length") in
    assert (negb (isNaN totalBytes)) "Sanity check of content-length protocol" ;;
    log_debug [LText "Downloading file of"; LNumber totalBytes; LText "bytes size from";
               LText urlString; LText "to"; LText (fsPath destFilePath)] ;;
    createWriteStream destFilePath mode ;;
    let T := if gunzip then createGunzip else PassThrough in
    r <- pump cb totalBytes destFilePath T (tinit T) (of_Z 0, c) (body res) ;;
    match body_error res with
    | Some e => if gunzip then pending else throw e
    | None => ret tt
    end ;;
    last <- lift (flush T (fst r)) ;;
    write destFilePath last ;;
    end_stream destFilePath ;;
    let '(major, minor) := node_version in
    if ((13 <? major) || (major =? 13) && (11 <=? minor))%N then ret (snd (snd r))
    else emit (EDestroy destFilePath) ;; ret (snd (snd r)).

(** The last statement of [download]: the removal of stale binaries. *)
Definition remove_stale (rawDest : ParsedPath) : M unit :=
  let serverDir := dir rawDest in
  try_catch
    (entries <- readDirectory serverDir ;;
     for_each
       (fun entry_type : string * FileType =>
          let entry := fst entry_type in
          try_catch
            (if includes entry (pname rawDest ++ "-stale-")%string then
               let uri := joinPath serverDir entry in
               try_catch
                 (delete uri ;;
                  log_info [LText ("Removed old server binary " ++ fsPath uri)])
                 (fun _ =>
                    log_error [LText ("Unable to remove old server binary " ++ fsPath uri)])
             else ret tt)
            (fun _ => log_error [LText ("Unable to parse " ++ entry)]))
       entries)
    (fun _ => log_error [LText ("Unable to enumerate contents of " ++ serverDir)]).

(** The first [try] of [download] after the transfer: the running server
    is renamed out of the way. *)
Definition displace_old (opts : DownloadOpts) (oldServerPath : Uri) : M unit :=
  try_catch
    (rename (dest_uri opts) oldServerPath ;;
     log_info [LText ("Renamed old server binary " ++ fsPath (dest_uri opts)
                  ++ " to " ++ fsPath oldServerPath)])
    (fun err =>
       if negb (truthy (err_code err))
          || (negb (String.eqb (match err_code err with Some c => c | None => "" end)
                               "FileNotFound")
              && negb (String.eqb (match err_code err with Some c => c | None => "" end)
                                  "EntryNotFound"))
       then log_error [LText ("Cannot rename existing server instance: "
                          ++ err_toString err)]
       else ret tt).

(** The second [try]: the temporary file takes the place of the
    destination. *)
Definition install_new (opts : DownloadOpts) (tempFilePath : Uri) : M unit :=
  try_catch
    (rename tempFilePath (dest_uri opts))
    (fun err => log_error [LText ("Cannot update server binary: " ++ err_toString err)]).

(** [download], with the bytes [crypto.randomBytes(5)] returns. *)
Definition download (opts : DownloadOpts) (randomBytes : list Byte.byte) : M unit :=
  let randomHex := hex randomBytes in
  let rawDest := dest opts in
  emit (EWithProgress (progressTitle opts)) ;;
  downloadFile (url opts) (tempFilePath rawDest randomHex) (mode opts)
    (match gunzip opts with Some b => b | None => false end)
    (httpProxy opts) onProgress (of_Z 0) ;;
  displace_old opts (oldServerPath rawDest randomHex) ;;
  install_new opts (tempFilePath rawDest randomHex) ;;
  remove_stale rawDest.

End Net.

(** ** An in-memory file system

    The files of the run, in the order a directory lists them, and the
    files that are locked: a locked file (a running executable, on
    platforms that refuse it) can be neither renamed, replaced, deleted
    nor opened for writing. *)

Module MemFs.

Record state := {
  files : list (Uri * Buffer);
  locked : list Uri
}.

Definition uri_eqb (a b : Uri) : bool :=
  String.eqb (uri_dir a) (uri_dir b) && String.eqb (uri_base a) (uri_base b).

Definition exists_file (u : Uri) (s : state) : bool :=
  existsb (fun f => uri_eqb (fst f) u) (files s).

Definition is_locked (u : Uri) (s : state) : bool :=
  existsb (uri_eqb u) (locked s).

Definition lookup (u : Uri) (s : state) : option Buffer :=
  match find (fun f => uri_eqb (fst f) u) (files s) with
  | Some f => Some (snd f)
  | None => None
  end.

Definition remove (u : Uri) (fs : list (Uri * Buffer)) : list (Uri * Buffer) :=
  filter (fun f => negb (uri_eqb (fst f) u)) fs.

Definition fs_error (code : string) : JsError :=
  {| err_name := "FileSystemError"; err_code := Some code; err_message := code |}.

Definition mem_rename (source target : Uri) (s : state) : result unit * state :=
  match lookup source s with
  | None => (Err (fs_error "FileNotFound"), s)
  | Some data =>
      if is_locked source s || is_locked target s then (Err (fs_error "NoPermissions"), s)
      else (Ok tt, {| files := remove source (remove target (files s)) ++ [(target, data)];
                      locked := locked s |})
  end.

Definition mem_readDirectory (d : string) (s : state)
  : result (list (string * FileType)) * state :=
  (Ok (map (fun f => (uri_base (fst f), FtFile))
           (filter (fun f => String.eqb (uri_dir (fst f)) d) (files s))), s).

Definition mem_delete (u : Uri) (s : state) : result unit * state :=
  if negb (exists_file u s) then (Err (fs_error "FileNotFound"), s)
  else if is_locked u s then (Err (fs_error "NoPermissions"), s)
  else (Ok tt, {| files := remove u (files s); locked := locked s |}).

Definition mem_createWriteStream (u : Uri) (mode : option N) (s : state)
  : result unit * state :=
  if is_locked u s then (Err (fs_error "NoPermissions"), s)
  else (Ok tt, {| files := remove u (files s) ++ [(u, [])]; locked := locked s |}).

Definition mem_write (u : Uri) (data : Buffer) (s : state) : result unit * state :=
  match lookup u s with
  | None => (Err (fs_error "FileNotFound"), s)
  | Some old =>
      (Ok tt, {| files := map (fun f => if uri_eqb (fst f) u then (u, old ++ data) else f)
                              (files s);
                 locked := locked s |})
  end.

Definition mem_end (u : Uri) (s : state) : result unit * state := (Ok tt, s).

#[export] Instance mem_fs : FileSystem state := {|
  fs_rename := mem_rename;
  fs_readDirectory := mem_readDirectory;
  fs_delete := mem_delete;
  fs_createWriteStream := mem_createWriteStream;
  fs_write := mem_write;
  fs_end := mem_end
|}.

End MemFs.

(** ** Views of a trace *)

Definition reports (tr : list Event) : list ProgressEvent :=
  flat_map (fun e => match e with EReport ev => [ev] | _ => [] end) tr.

Definition deletes (tr : list Event) : list Uri :=
  flat_map (fun e => match e with EDelete u => [u] | _ => [] end) tr.

Definition renames (tr : list Event) : list (Uri * Uri) :=
  flat_map (fun e => match e with ERename a b => [(a, b)] | _ => [] end) tr.

Definition writes (tr : list Event) : list (Uri * Buffer) :=
  flat_map (fun e => match e with EWrite u d => [(u, d)] | _ => [] end) tr.

Definition fetches (tr : list Event) : list Request :=
  flat_map (fun e => match e with EFetch r => [r] | _ => [] end) tr.

Definition errors_logged (tr : list Event) : list (list LogArg) :=
  flat_map (fun e => match e with ELog Error args => [args] | _ => [] end) tr.

(** [emits_only P m]: whatever [m] returns, it only appends events to the
    trace, and each of them satisfies [P]. *)
Definition emits_only {S A : Type} (P : Event -> Prop) (m : @M S A) : Prop :=
  forall w, exists tl, trace (snd (m w)) = trace w ++ tl /\ Forall P tl.

(** [m] never throws. *)
Definition never_throws {S A : Type} (m : @M S A) : Prop :=
  forall w, exists a w', m w = (Ok a, w').

(** [m] always settles: it returns or throws. *)
Definition settles {S A : Type} (m : @M S A) : Prop :=
  forall w, exists (r : result A) w', m w = (Settled r, w').

(** The events of [downloadFile] once the response is there: it logs,
    reports progress and touches the file system at [destFilePath] only,
    through its write stream. *)
Definition stream_event (destFilePath : Uri) (e : Event) : Prop :=
  match e with
  | ELog _ _ | EReport _ => True
  | ECreateWriteStream u _ | EWrite u _ | EEnd u | EDestroy u => u = destFilePath
  | EFetch _ | EWithProgress _ | ERename _ _ | EReadDirectory _ | EDelete _ => False
  end.

(** The request [downloadFile] issues. *)
Definition download_request (urlString : string) (httpProxy : option string) : Request :=
  {| req_url := urlString; req_headers := None;
     agent := if truthy httpProxy then httpProxy else None |}.

(** The request [fetchRelease] issues. *)
Definition release_request (releaseTag : string) (githubToken agent : option string) : Request :=
  {| req_url := GITHUB_API_ENDPOINT_URL ++ "/repos/" ++ OWNER ++ "/" ++ REPO
                ++ "/releases/tags/" ++ releaseTag;
     req_headers :=
       Some (("Accept", "application/vnd.github.v3+json")
             :: match githubToken with
                | Some token => [("Authorization", "token " ++ token)]
                | None => []
                end);
     agent := agent |}%string.

(** The events of [download] for a destination and a random token: the
    write stream is on the temporary path, the renames are the two of the
    swap, and the listing and the deletions are in the directory of the
    destination. *)
Definition install_event (opts : DownloadOpts) (randomHex : string) (e : Event) : Prop :=
  match e with
  | ELog _ _ | EReport _ | EFetch _ | EWithProgress _ => True
  | ECreateWriteStream u _ | EWrite u _ | EEnd u | EDestroy u =>
      u = tempFilePath (dest opts) randomHex
  | ERename a b =>
      (a = dest_uri opts /\ b = oldServerPath (dest opts) randomHex)
      \/ (a = tempFilePath (dest opts) randomHex /\ b = dest_uri opts)
  | EReadDirectory d => d = dir (dest opts)
  | EDelete u => uri_dir u = dir (dest opts)
  end.

(** ** A run to evaluate

    The destination [/opt/tool/tool] on an in-memory file system, node
    14.17, no decompression. *)

Module Sample.

Import MemFs.

Definition tool : ParsedPath := {| dir := "/opt/tool"; pname := "tool"; ext := "" |}.

Definition opts : DownloadOpts := {|
  progressTitle := "Downloading tool";
  url := "https://x/tool-linux";
  dest := tool;
  mode := Some 493%N;
  gunzip := None;
  httpProxy := None
|}.

Definition randomBytes : list Byte.byte :=
  [Byte.x0a; Byte.x1b; Byte.x2c; Byte.x3d; Byte.x4e].

Definition payload : list Buffer :=
  [[Byte.x01; Byte.x02]; [Byte.x03]].

Definition respond (r : Response) : Request -> result Response := fun _ => Ok r.

Definition response (code : N) (h : Headers) : Response :=
  {| response_url := "https://x/tool-linux"; status := code; headers := h;
     body := payload; body_error := None |}.

(** The failure of a connection that is reset, and a response whose body
    fails with it once the payload is through. *)
Definition hang_up : JsError :=
  {| err_name := "Error"; err_code := Some "ECONNRESET"%string; err_message := "socket hang up" |}.

Definition broken (url : string) (code : N) (h : Headers) : Response :=
  {| response_url := url; status := code; headers := h;
     body := payload; body_error := Some hang_up |}.

Definition no_release : string -> result GithubRelease :=
  fun _ => Err (new_Error "Unexpected token").

Definition node : N * N := (14, 17)%N.

Definition world (fs0 : list (Uri * Buffer)) (locked0 : list Uri) : @World state :=
  {| fs := {| files := fs0; locked := locked0 |}; trace := [] |}.

End Sample.

(** ** Real values of binary64 numbers *)

Definition bpow (e : Z) : R := powerRZ 2 e.

(** The value [m * 2^e]. *)
Definition F2R (m e : Z) : R := (IZR m * bpow e)%R.

(** The real value of a finite number; [0] for the others. *)
Definition SF2R (x : number) : R :=
  match x with
  | S754_finite s m e => F2R (cond_Zopp s (Zpos m)) e
  | _ => 0%R
  end.

Definition is_finite (x : number) : bool :=
  match x with S754_zero _ | S754_finite _ _ _ => true | _ => false end.

Definition with_sign (s : bool) (x : number) : number :=
  match x with
  | S754_zero _ => S754_zero s
  | S754_infinity _ => S754_infinity s
  | S754_nan => S754_nan
  | S754_finite _ m e => S754_finite s m e
  end.

(** [located m e l v]: the real [v] lies in the interval
    [[m * 2^e, (m + 1) * 2^e)] at the place the location [l] tells. *)
Definition located (m e : Z) (l : location) (v : R) : Prop :=
  match l with
  | loc_Exact => v = F2R m e
  | loc_Inexact Lt => (F2R m e < v < F2R m e + bpow e / 2)%R
  | loc_Inexact Eq => (v = F2R m e + bpow e / 2)%R
  | loc_Inexact Gt => (F2R m e + bpow e / 2 < v < F2R m e + bpow e)%R
  end.

(** The unit roundoff of binary64. *)
Definition u53 : R := bpow (-53).

(** ** The progress reports on integers *)

(** [q] is the percentage the callback computes for [r] bytes read out of
    [t], and it is an integer nearest to [100 * r / t]. *)
Definition nearest_percent (t r q : Z) : Prop :=
  newPercentage (of_Z r) (of_Z t) = of_Z q
  /\ 0 <= q /\ - t <= 200 * r - 2 * q * t <= t.

(** The percentages computed after each chunk of a body, [r] bytes having
    been read before it. *)
Inductive percent_chain (t : Z) : Z -> list Z -> list Z -> Prop :=
| chain_nil r : percent_chain t r [] []
| chain_cons r len lens q qs :
    nearest_percent t (r + len) q ->
    percent_chain t (r + len) lens qs ->
    percent_chain t r (len :: lens) (q :: qs).

(** The reports a sequence of computed percentages gives rise to, the
    last reported one being [last]. *)
Fixpoint events_of (last : Z) (qs : list Z) : list ProgressEvent :=
  match qs with
  | [] => []
  | q :: rest =>
      if q =? last then events_of last rest
      else {| message := Percent (of_Z q); increment := of_Z (q - last) |}
           :: events_of q rest
  end.

(** The percentages reported, as integers. *)
Fixpoint reported (last : Z) (qs : list Z) : list Z :=
  match qs with
  | [] => []
  | q :: rest => if q =? last then reported last rest else q :: reported q rest
  end.

Definition sum_Z (l : list Z) : Z := fold_right Z.add 0 l.

(** [a; a + 1; ...], [n] integers. *)
Fixpoint count_up (a : Z) (n : nat) : list Z :=
  match n with
  | O => []
  | Datatypes.S n' => a :: count_up (a + 1) n'
  end.

(** The report of the percentage [q] reached from [q - 1]. *)
Definition unit_step (q : Z) : ProgressEvent :=
  {| message := Percent (of_Z q); increment := of_Z 1 |}.


(** ** More views of a run *)

(** [e] is a call of the logger or of [fetch]. *)
Definition network_event (e : Event) : Prop :=
  match e with
  | ELog _ _ | EFetch _ => True
  | _ => False
  end.

Definition log_event (e : Event) : Prop :=
  match e with
  | ELog _ _ => True
  | _ => False
  end.

(** The events of the transfer into [temp]: no rename, no listing, no
    deletion. *)
Definition transfer_event (temp : Uri) (e : Event) : Prop :=
  match e with
  | ELog _ _ | EReport _ | EFetch _ | EWithProgress _ => True
  | ECreateWriteStream u _ | EWrite u _ | EEnd u | EDestroy u => u = temp
  | ERename _ _ | EReadDirectory _ | EDelete _ => False
  end.

(** The events of the removal of stale binaries once the directory [d]
    is listed. *)
Definition cleanup_event (d : string) (e : Event) : Prop :=
  match e with
  | ELog _ _ => True
  | EDelete u => uri_dir u = d
  | _ => False
  end.

(** The operations on write streams in a trace. *)
Definition stream_ops (tr : list Event) : list Event :=
  filter (fun e => match e with
                   | ECreateWriteStream _ _ | EWrite _ _ | EEnd _ | EDestroy _ => true
                   | _ => false
                   end) tr.

Definition nonempty (b : Buffer) : bool :=
  match b with
  | [] => false
  | _ => true
  end.

(** What a transform makes of the chunks of a body: its final state and
    its output for each chunk. *)
Fixpoint transform_all (T : Transform) (ts : tstate T) (chunks : list Buffer)
  : result (tstate T * list Buffer) :=
  match chunks with
  | [] => Ok (ts, [])
  | chunk :: rest =>
      match transform T ts chunk with
      | Ok (ts', out) =>
          match transform_all T ts' rest with
          | Ok (ts'', outs) => Ok (ts'', out :: outs)
          | Err e => Err e
          end
      | Err e => Err e
      end
  end.

(** The test of [downloadFile] on [process.version]: node is at least
    13.11, where the write stream closes by itself. *)
Definition has_close_fix (node_version : N * N) : bool :=
  let '(major, minor) := node_version in
  ((13 <? major) || (major =? 13) && (11 <=? minor))%N.

(** [code] is one of the two codes of a missing file, [FileNotFound] and
    [EntryNotFound]. *)
Definition is_not_found (code : option string) : bool :=
  match code with
  | Some c => String.eqb c "FileNotFound" || String.eqb c "EntryNotFound"
  | None => false
  end.

(** The differences of consecutive elements of [p0 :: ps]. *)
Fixpoint steps (p0 : Z) (ps : list Z) : list Z :=
  match ps with
  | [] => []
  | p :: rest => (p - p0) :: steps p rest
  end.

Definition is_decimal_digit (c : ascii) : bool :=
  let n := N_of_ascii c in ((48 <=? n) && (n <=? 57))%N.


(** * Facts about binary64 arithmetic

    [binary_round_aux] rounds a located real to the nearest number of the
    format; from this, integers below [2^53] are represented exactly and
    added, subtracted and compared exactly, and a quotient or a product
    in the normal range is off by a relative error of at most [2^-53]. *)

Lemma bpow_gt_0 e : (0 < bpow e)%R.
Proof. apply powerRZ_lt; lra. Qed.

Lemma bpow_add a b : bpow (a + b) = (bpow a * bpow b)%R.
Proof. apply powerRZ_add; lra. Qed.

Lemma bpow_succ e : bpow (e + 1) = (2 * bpow e)%R.
Proof. rewrite bpow_add. unfold bpow at 2. simpl. lra. Qed.

Lemma bpow_IZR n : 0 <= n -> bpow n = IZR (2 ^ n).
Proof.
  intros Hn. unfold bpow.
  rewrite <- (Z2Nat.id n Hn) at 1.
  rewrite <- pow_powerRZ, pow_IZR, Z2Nat.id by assumption. reflexivity.
Qed.

Lemma bpow_lt a b : a < b -> (bpow a < bpow b)%R.
Proof.
  intros H.
  assert (Hb : bpow b = (bpow a * IZR (2 ^ (b - a)))%R).
  { rewrite <- bpow_IZR, <- bpow_add by lia. f_equal; lia. }
  assert (H1 : 1 < 2 ^ (b - a)) by (apply Z.pow_gt_1; lia).
  apply IZR_lt in H1. pose proof (bpow_gt_0 a). rewrite Hb. nra.
Qed.

Lemma bpow_le a b : a <= b -> (bpow a <= bpow b)%R.
Proof.
  intros H. destruct (Z.eq_dec a b) as [->|]; [lra|].
  left; apply bpow_lt; lia.
Qed.

Lemma bpow_lt_inv a b : (bpow a < bpow b)%R -> a < b.
Proof.
  intros H. destruct (Z_lt_le_dec a b); [assumption|].
  apply bpow_le in l. lra.
Qed.

Lemma F2R_succ m e : F2R (m + 1) e = (F2R m e + bpow e)%R.
Proof. unfold F2R. rewrite plus_IZR. lra. Qed.

Lemma digits2_pos_bounds p :
  2 ^ (Zpos (digits2_pos p) - 1) <= Zpos p < 2 ^ Zpos (digits2_pos p).
Proof.
  induction p as [p IH|p IH|]; cbn [digits2_pos].
  - rewrite Pos2Z.inj_succ.
    replace (Z.succ (Zpos (digits2_pos p)) - 1) with (Z.succ (Zpos (digits2_pos p) - 1)) by lia.
    rewrite !Z.pow_succ_r by lia. lia.
  - rewrite Pos2Z.inj_succ.
    replace (Z.succ (Zpos (digits2_pos p)) - 1) with (Z.succ (Zpos (digits2_pos p) - 1)) by lia.
    rewrite !Z.pow_succ_r by lia. lia.
  - cbn. lia.
Qed.

Lemma shr_1_located mrs e v :
  0 <= shr_m mrs ->
  located (shr_m mrs) e (loc_of_shr_record mrs) v ->
  located (shr_m (shr_1 mrs)) (e + 1) (loc_of_shr_record (shr_1 mrs)) v
  /\ shr_m (shr_1 mrs) = shr_m mrs / 2.
Proof.
  destruct mrs as [m r s]. cbn [shr_m]. intros Hm.
  pose proof (bpow_gt_0 e) as He.
  destruct m as [|p|p]; [| |lia].
  - destruct r, s; cbn; unfold F2R; rewrite bpow_succ; intros H; split; try reflexivity; lra.
  - destruct p as [p|p|].
    + replace (Z.pos p~1 / 2) with (Zpos p) by (rewrite Pos2Z.inj_xI; apply Z.div_unique with 1; lia).
      destruct r, s; cbn; unfold F2R; rewrite bpow_succ, Pos2Z.inj_xI, plus_IZR, mult_IZR;
        intros H; split; try reflexivity; lra.
    + replace (Z.pos p~0 / 2) with (Zpos p) by (rewrite Pos2Z.inj_xO; apply Z.div_unique with 0; lia).
      destruct r, s; cbn; unfold F2R; rewrite bpow_succ, Pos2Z.inj_xO, mult_IZR;
        intros H; split; try reflexivity; lra.
    + destruct r, s; cbn; unfold F2R; rewrite bpow_succ; intros H; split; try reflexivity; lra.
Qed.

Lemma fexp_eq x : fexp prec emax x = Z.max (x - 53) (-1074).
Proof. reflexivity. Qed.

Lemma iter_pos_nat {A} (f : A -> A) p x :
  iter_pos f p x = Nat.iter (Pos.to_nat p) f x.
Proof.
  revert x. induction p as [p IH|p IH|]; intros x; cbn [iter_pos].
  - rewrite !IH, Pos2Nat.inj_xI.
    replace (S (2 * Pos.to_nat p)) with (Pos.to_nat p + (Pos.to_nat p + 1))%nat by lia.
    rewrite !Nat.iter_add. reflexivity.
  - rewrite !IH, Pos2Nat.inj_xO.
    replace (2 * Pos.to_nat p)%nat with (Pos.to_nat p + Pos.to_nat p)%nat by lia.
    rewrite Nat.iter_add. reflexivity.
  - reflexivity.
Qed.

Lemma shr_nat_located n mrs e v :
  0 <= shr_m mrs ->
  located (shr_m mrs) e (loc_of_shr_record mrs) v ->
  let mrs' := Nat.iter n shr_1 mrs in
  located (shr_m mrs') (e + Z.of_nat n) (loc_of_shr_record mrs') v
  /\ shr_m mrs' = shr_m mrs / 2 ^ Z.of_nat n.
Proof.
  intros Hm Hl. induction n as [|n IH]; cbn zeta.
  - cbn [Nat.iter nat_rect Z.of_nat]. rewrite Z.add_0_r, Z.pow_0_r, Z.div_1_r. auto.
  - cbn zeta in IH. destruct IH as [IH1 IH2].
    change (Nat.iter (S n) shr_1 mrs) with (shr_1 (Nat.iter n shr_1 mrs)).
    assert (H0 : 0 <= shr_m (Nat.iter n shr_1 mrs)).
    { rewrite IH2. apply Z.div_pos; lia. }
    destruct (shr_1_located _ _ _ H0 IH1) as [H1 H2].
    split.
    + replace (e + Z.of_nat (S n)) with (e + Z.of_nat n + 1) by lia. exact H1.
    + rewrite H2, IH2, Z.div_div by lia.
      f_equal. rewrite Nat2Z.inj_succ, Z.pow_succ_r by lia. lia.
Qed.

Lemma loc_of_shr_record_of_loc m l :
  loc_of_shr_record (shr_record_of_loc m l) = l
  /\ shr_m (shr_record_of_loc m l) = m.
Proof. destruct l as [|[| |]]; split; reflexivity. Qed.

Lemma shr_fexp_located m e l v :
  0 <= m -> located m e l v ->
  let mrs' := fst (shr_fexp prec emax m e l) in
  let e' := snd (shr_fexp prec emax m e l) in
  located (shr_m mrs') e' (loc_of_shr_record mrs') v
  /\ e' = Z.max e (fexp prec emax (Zdigits2 m + e))
  /\ shr_m mrs' = m / 2 ^ (e' - e).
Proof.
  intros Hm Hl. unfold shr_fexp, shr.
  destruct (loc_of_shr_record_of_loc m l) as [Hl' Hm'].
  set (n := fexp prec emax (Zdigits2 m + e) - e).
  destruct n as [|p|p] eqn:Hn; cbn [fst snd]; cbn zeta.
  - rewrite Hl', Hm'. replace (Z.max e _) with e by lia.
    rewrite Z.sub_diag, Z.pow_0_r, Z.div_1_r. auto.
  - rewrite iter_pos_nat.
    pose proof (shr_nat_located (Pos.to_nat p) (shr_record_of_loc m l) e v) as H.
    rewrite Hl', Hm' in H. specialize (H Hm Hl). cbn zeta in H.
    rewrite positive_nat_Z in H. destruct H as [H1 H2].
    replace (Z.max e _) with (e + Z.pos p) by lia.
    replace (e + Z.pos p - e) with (Z.pos p) by lia. auto.
  - rewrite Hl', Hm'. replace (Z.max e _) with e by lia.
    rewrite Z.sub_diag, Z.pow_0_r, Z.div_1_r. auto.
Qed.

Lemma round_nearest_even_spec m e l v :
  located m e l v ->
  let m' := round_nearest_even m l in
  (m' = m \/ m' = m + 1)
  /\ (v - bpow e / 2 <= F2R m' e <= v + bpow e / 2)%R
  /\ (v = F2R m e -> m' = m).
Proof.
  pose proof (bpow_gt_0 e) as He.
  destruct l as [|[| |]]; cbn [located round_nearest_even]; intros H; cbn zeta.
  - subst v. repeat split; auto; lra.
  - destruct (Z.even m); rewrite ?F2R_succ; repeat split; auto; try lra.
  - repeat split; auto; lra.
  - rewrite F2R_succ. repeat split; auto; lra.
Qed.

Lemma Zdigits2_bounds m : 0 < m -> 2 ^ (Zdigits2 m - 1) <= m < 2 ^ Zdigits2 m.
Proof. destruct m as [|p|p]; try lia. intros _. apply digits2_pos_bounds. Qed.

Lemma Zdigits2_pos m : 0 < m -> 0 < Zdigits2 m.
Proof. destruct m; cbn; lia. Qed.

Lemma Zdigits2_unique m k : 0 < m -> 2 ^ (k - 1) <= m < 2 ^ k -> Zdigits2 m = k.
Proof.
  intros Hm [H1 H2].
  pose proof (Zdigits2_bounds m Hm) as [H3 H4].
  pose proof (Zdigits2_pos m Hm) as Hd.
  assert (Hk : 0 < k).
  { destruct (Z_lt_le_dec 0 k) as [|Hk]; [assumption|].
    destruct (Z.eq_dec k 0) as [->|]; [cbn in H2; lia|].
    rewrite Z.pow_neg_r in H2 by lia. lia. }
  destruct (Z_lt_le_dec (Zdigits2 m) k) as [Hlt|Hle].
  - assert (2 ^ Zdigits2 m <= 2 ^ (k - 1)) by (apply Z.pow_le_mono_r; lia). lia.
  - destruct (Z.eq_dec (Zdigits2 m) k) as [|Hne]; [assumption|].
    assert (2 ^ k <= 2 ^ (Zdigits2 m - 1)) by (apply Z.pow_le_mono_r; lia). lia.
Qed.

Lemma Zdigits2_div m n :
  0 < m -> 0 <= n < Zdigits2 m -> Zdigits2 (m / 2 ^ n) = Zdigits2 m - n.
Proof.
  intros Hm Hn.
  pose proof (Zdigits2_bounds m Hm) as [H3 H4].
  assert (Hp : 0 < 2 ^ n) by (apply Z.pow_pos_nonneg; lia).
  assert (E1 : 2 ^ (Zdigits2 m - 1) = 2 ^ (Zdigits2 m - n - 1) * 2 ^ n).
  { rewrite <- Z.pow_add_r by lia. f_equal; lia. }
  assert (E2 : 2 ^ Zdigits2 m = 2 ^ (Zdigits2 m - n) * 2 ^ n).
  { rewrite <- Z.pow_add_r by lia. f_equal; lia. }
  assert (L : 2 ^ (Zdigits2 m - n - 1) <= m / 2 ^ n).
  { apply Z.div_le_lower_bound; lia. }
  assert (U : m / 2 ^ n < 2 ^ (Zdigits2 m - n)).
  { apply Z.div_lt_upper_bound; lia. }
  apply Zdigits2_unique; [|split; assumption].
  assert (0 < 2 ^ (Zdigits2 m - n - 1)) by (apply Z.pow_pos_nonneg; lia). lia.
Qed.

Lemma located_lower m e l v : located m e l v -> (F2R m e <= v)%R.
Proof.
  pose proof (bpow_gt_0 e).
  destruct l as [|[| |]]; cbn; lra.
Qed.

Lemma F2R_pow2 k e : 0 <= k -> F2R (2 ^ k) e = bpow (k + e).
Proof. intros Hk. unfold F2R. rewrite <- bpow_IZR, <- bpow_add by assumption. reflexivity. Qed.

Lemma F2R_le m1 m2 e : m1 <= m2 -> (F2R m1 e <= F2R m2 e)%R.
Proof.
  intros H. unfold F2R. apply IZR_le in H. pose proof (bpow_gt_0 e). nra.
Qed.

Lemma F2R_lt_inv m1 m2 e : (F2R m1 e < F2R m2 e)%R -> m1 < m2.
Proof.
  intros H. destruct (Z_lt_le_dec m1 m2); [assumption|].
  apply F2R_le with (e := e) in l. lra.
Qed.

Lemma F2R_inj m1 m2 e : F2R m1 e = F2R m2 e -> m1 = m2.
Proof.
  intros H.
  destruct (Z_lt_le_dec m1 m2) as [L|L].
  - assert (m1 + 1 <= m2) as L' by lia. apply F2R_le with (e := e) in L'.
    rewrite F2R_succ in L'. pose proof (bpow_gt_0 e). lra.
  - destruct (Z.eq_dec m1 m2); [assumption|].
    assert (m2 + 1 <= m1) as L' by lia. apply F2R_le with (e := e) in L'.
    rewrite F2R_succ in L'. pose proof (bpow_gt_0 e). lra.
Qed.

Lemma shr_fexp_small m e :
  0 <= m -> m < 2 ^ 53 -> -1074 <= e ->
  shr_fexp prec emax m e loc_Exact = (Build_shr_record m false false, e).
Proof.
  intros Hm Hlt He. unfold shr_fexp, shr. rewrite fexp_eq.
  assert (Hd : Zdigits2 m <= 53).
  { destruct (Z.eq_dec m 0) as [->|]; [cbn; lia|].
    pose proof (Zdigits2_bounds m ltac:(lia)) as [H1 _].
    destruct (Z_lt_le_dec 53 (Zdigits2 m)); [|assumption].
    assert (2 ^ 53 <= 2 ^ (Zdigits2 m - 1)) by (apply Z.pow_le_mono_r; lia). lia. }
  destruct (Z.max (Zdigits2 m + e - 53) (-1074) - e) eqn:E; try reflexivity. lia.
Qed.

Lemma shr_fexp_carry e :
  -1074 <= e ->
  shr_fexp prec emax (2 ^ 53) e loc_Exact = (Build_shr_record (2 ^ 52) false false, e + 1).
Proof.
  intros He. unfold shr_fexp, shr. rewrite fexp_eq.
  replace (Zdigits2 (2 ^ 53)) with 54 by reflexivity.
  replace (Z.max (54 + e - 53) (-1074) - e) with 1 by lia.
  reflexivity.
Qed.

Lemma binary_round_aux_normal m e l v :
  0 < m -> 53 <= Zdigits2 m ->
  -1074 <= Zdigits2 m + e - 53 -> Zdigits2 m + e < 1024 ->
  located m e l v ->
  exists M E,
    binary_round_aux prec emax false m e l = S754_finite false M E
    /\ 2 ^ 52 <= Zpos M < 2 ^ 53
    /\ Zdigits2 m + e - 53 <= E <= Zdigits2 m + e - 52
    /\ (v - bpow (Zdigits2 m + e - 53) / 2 <= F2R (Zpos M) E
        <= v + bpow (Zdigits2 m + e - 53) / 2)%R
    /\ (bpow (Zdigits2 m + e - 1) <= v)%R
    /\ ((exists k, v = F2R k (Zdigits2 m + e - 53)) -> F2R (Zpos M) E = v).
Proof.
  intros Hm Hd Hlo Hhi Hl.
  set (d := Zdigits2 m) in *.
  pose proof (shr_fexp_located m e l v ltac:(lia) Hl) as H. cbn zeta in H.
  unfold binary_round_aux.
  destruct (shr_fexp prec emax m e l) as [mrs1 e1]. cbn [fst snd] in H.
  destruct H as (Hl1 & He1 & Hm1).
  fold d in He1. rewrite fexp_eq in He1.
  assert (E1 : e1 = d + e - 53) by lia. clear He1.
  assert (Hd1 : Zdigits2 (shr_m mrs1) = 53).
  { rewrite Hm1, Zdigits2_div; fold d; lia. }
  assert (Hp1 : 0 < shr_m mrs1).
  { assert (0 <= shr_m mrs1) by (rewrite Hm1; apply Z.div_pos; lia).
    destruct (shr_m mrs1); cbn in Hd1; lia. }
  pose proof (Zdigits2_bounds _ Hp1) as Hb1. rewrite Hd1 in Hb1.
  change (53 - 1) with 52 in Hb1.
  pose proof (round_nearest_even_spec _ _ _ _ Hl1) as H. cbn zeta in H.
  set (m2 := round_nearest_even (shr_m mrs1) (loc_of_shr_record mrs1)) in *.
  destruct H as (Hm2 & Herr & Hex).
  assert (Hv : (bpow (d + e - 1) <= v)%R).
  { apply located_lower in Hl.
    pose proof (Zdigits2_bounds m Hm) as [Hb _]. fold d in Hb.
    apply F2R_le with (e := e) in Hb. rewrite F2R_pow2 in Hb by lia.
    replace (d - 1 + e) with (d + e - 1) in Hb by lia. lra. }
  assert (Hexact : (exists k, v = F2R k e1) -> m2 = shr_m mrs1).
  { intros [k Hk]. apply Hex.
    destruct (loc_of_shr_record mrs1) as [|c]; [exact Hl1|].
    exfalso. pose proof (bpow_gt_0 e1) as Hb.
    assert (F2R (shr_m mrs1) e1 < F2R k e1 < F2R (shr_m mrs1 + 1) e1)%R as [Ha Hc].
    { rewrite F2R_succ, <- Hk. destruct c; cbn in Hl1; lra. }
    apply F2R_lt_inv in Ha, Hc. lia. }
  destruct (Z.eq_dec m2 (2 ^ 53)) as [Hc|Hc].
  - rewrite Hc, shr_fexp_carry by lia. cbn [shr_m].
    exists (Z.to_pos (2 ^ 52)), (e1 + 1).
    replace (e1 + 1 <=? emax - prec) with true by (symmetry; apply Z.leb_le; unfold emax, prec; lia).
    assert (Hval : F2R (Z.pos (Z.to_pos (2 ^ 52))) (e1 + 1) = F2R m2 e1).
    { rewrite Hc. unfold F2R. rewrite bpow_succ.
      change (Z.pos (Z.to_pos (2 ^ 52))) with (2 ^ 52).
      change (2 ^ 53) with (2 * 2 ^ 52). rewrite mult_IZR. lra. }
    rewrite Hval, <- E1.
    repeat split; try reflexivity; try lia; try lra.
    intros Hk. apply Hexact in Hk. lia.
  - rewrite shr_fexp_small by lia. cbn [shr_m].
    destruct m2 as [|M|M] eqn:EM; try lia.
    exists M, e1.
    replace (e1 <=? emax - prec) with true by (symmetry; apply Z.leb_le; unfold emax, prec; lia).
    rewrite <- E1.
    repeat split; try reflexivity; try lia; try lra.
    intros Hk. pose proof (Hexact Hk) as Hk'. rewrite Hk'.
    destruct Hk as [k Hk].
    destruct (loc_of_shr_record mrs1) as [|c]; [symmetry; exact Hl1|].
    exfalso. pose proof (bpow_gt_0 e1) as Hb.
    assert (F2R (shr_m mrs1) e1 < F2R k e1 < F2R (shr_m mrs1 + 1) e1)%R as [Ha Hc'].
    { rewrite F2R_succ, <- Hk. destruct c; cbn in Hl1; lra. }
    apply F2R_lt_inv in Ha, Hc'. lia.
Qed.

Lemma binary_round_aux_sign s m e l :
  binary_round_aux prec emax s m e l
  = with_sign s (binary_round_aux prec emax false m e l).
Proof.
  unfold binary_round_aux.
  destruct (shr_fexp prec emax m e l) as [mrs1 e1].
  destruct (shr_fexp prec emax _ e1 loc_Exact) as [mrs2 e2].
  destruct (shr_m mrs2); try reflexivity.
  destruct (e2 <=? emax - prec); reflexivity.
Qed.

Lemma iter_xO_pow m p : Zpos (Pos.iter xO m p) = Zpos m * 2 ^ Zpos p.
Proof.
  induction p as [|p IH] using Pos.peano_ind.
  - cbn. lia.
  - rewrite Pos.iter_succ, Pos2Z.inj_xO, IH, Pos2Z.inj_succ, Z.pow_succ_r by lia. lia.
Qed.

Lemma F2R_shift m e k : 0 <= k -> F2R (m * 2 ^ k) (e - k) = F2R m e.
Proof.
  intros Hk. unfold F2R. rewrite mult_IZR, <- bpow_IZR by assumption.
  rewrite Rmult_assoc, <- bpow_add. do 2 f_equal. lia.
Qed.

Lemma shl_align_spec m e e' :
  let r := shl_align m e e' in
  snd r = Z.min e e' /\ Zpos (fst r) = Zpos m * 2 ^ (e - snd r)
  /\ F2R (Zpos (fst r)) (snd r) = F2R (Zpos m) e.
Proof.
  unfold shl_align. destruct (e' - e) as [|p|p] eqn:E; cbn [fst snd].
  - replace (Z.min e e') with e by lia. rewrite Z.sub_diag, Z.pow_0_r. repeat split; lia.
  - replace (Z.min e e') with e by lia. rewrite Z.sub_diag, Z.pow_0_r. repeat split; lia.
  - replace (Z.min e e') with e' by lia.
    rewrite iter_xO_pow. replace (e - e') with (Zpos p) by lia.
    repeat split; try reflexivity.
    replace e' with (e - Zpos p) by lia. apply F2R_shift. lia.
Qed.

Lemma Zdigits2_shift m k : 0 < m -> 0 <= k -> Zdigits2 (m * 2 ^ k) = Zdigits2 m + k.
Proof.
  intros Hm Hk.
  pose proof (Zdigits2_bounds m Hm) as [H1 H2].
  pose proof (Zdigits2_pos m Hm) as Hd.
  assert (Hp : 0 < 2 ^ k) by (apply Z.pow_pos_nonneg; lia).
  apply Zdigits2_unique; [nia|].
  replace (Zdigits2 m + k - 1) with (Zdigits2 m - 1 + k) by lia.
  rewrite !Z.pow_add_r by lia. nia.
Qed.

Lemma mag_F2R m e :
  0 < m -> (bpow (Zdigits2 m + e - 1) <= F2R m e < bpow (Zdigits2 m + e))%R.
Proof.
  intros Hm. pose proof (Zdigits2_bounds m Hm) as [H1 H2].
  pose proof (Zdigits2_pos m Hm) as Hd.
  apply F2R_le with (e := e) in H1. rewrite F2R_pow2 in H1 by lia.
  replace (Zdigits2 m - 1 + e) with (Zdigits2 m + e - 1) in H1 by lia.
  split; [assumption|].
  rewrite <- F2R_pow2 by lia.
  destruct (Rlt_le_dec (F2R m e) (F2R (2 ^ Zdigits2 m) e)) as [|Hc]; [assumption|].
  exfalso. destruct Hc as [Hc|Hc].
  - apply F2R_lt_inv in Hc. lia.
  - apply F2R_inj in Hc. lia.
Qed.

Lemma mag_unique v g1 g2 :
  (bpow (g1 - 1) <= v < bpow g1)%R -> (bpow (g2 - 1) <= v < bpow g2)%R -> g1 = g2.
Proof.
  intros [A1 A2] [B1 B2].
  assert (bpow (g1 - 1) < bpow g2)%R as H1 by lra.
  assert (bpow (g2 - 1) < bpow g1)%R as H2 by lra.
  apply bpow_lt_inv in H1, H2. lia.
Qed.

Lemma binary_round_exact s m e :
  let g := Zpos (digits2_pos m) + e in
  -1021 <= g < 1024 ->
  (exists k, F2R (Zpos m) e = F2R k (g - 53)) ->
  exists M,
    binary_round prec emax s m e = S754_finite s M (g - 53)
    /\ F2R (Zpos M) (g - 53) = F2R (Zpos m) e
    /\ 2 ^ 52 <= Zpos M < 2 ^ 53.
Proof.
  intros g Hg Hk. unfold binary_round.
  pose proof (shl_align_spec m e (fexp prec emax (Zpos (digits2_pos m) + e))) as H.
  cbn zeta in H. fold g in H. rewrite fexp_eq in H.
  destruct (shl_align m e _) as [mz ez]. cbn [fst snd] in H.
  destruct H as (Hez & Hmz & Hval).
  assert (Hdz : Zdigits2 (Zpos mz) + ez = g).
  { rewrite Hmz, Zdigits2_shift by lia. cbn [Zdigits2]. unfold g. lia. }
  rewrite binary_round_aux_sign.
  destruct (binary_round_aux_normal (Zpos mz) ez loc_Exact (F2R (Zpos mz) ez))
    as (M & E & HR & HM & HE & Herr & Hlow & Hex);
    try lia; try reflexivity.
  rewrite Hdz in *. rewrite Hval in Hex. specialize (Hex Hk).
  assert (E = g - 53).
  { destruct (Z.eq_dec E (g - 53)); [assumption|exfalso].
    assert (HE' : E = g - 52) by lia.
    pose proof (mag_F2R (Zpos mz) ez ltac:(lia)) as [_ Hu].
    rewrite Hdz, Hval, <- Hex, HE' in Hu.
    destruct HM as [HM _]. apply F2R_le with (e := g - 52) in HM.
    rewrite F2R_pow2 in HM by lia. replace (52 + (g - 52)) with g in HM by lia. lra. }
  subst E. exists M. rewrite HR. cbn [with_sign]. auto.
Qed.

Lemma F2R_opp m e : F2R (- m) e = (- F2R m e)%R.
Proof. unfold F2R. rewrite opp_IZR. lra. Qed.

Lemma F2R_cond_Zopp s m e :
  F2R (cond_Zopp s m) e = (if s then - F2R m e else F2R m e)%R.
Proof. destruct s; cbn [cond_Zopp]; [apply F2R_opp|reflexivity]. Qed.

Lemma F2R_add m1 m2 e : F2R (m1 + m2) e = (F2R m1 e + F2R m2 e)%R.
Proof. unfold F2R. rewrite plus_IZR. lra. Qed.

Lemma F2R_sub m1 m2 e : F2R (m1 - m2) e = (F2R m1 e - F2R m2 e)%R.
Proof. unfold F2R. rewrite minus_IZR. lra. Qed.

Lemma F2R_0 m : F2R m 0 = IZR m.
Proof. unfold F2R, bpow. cbn. lra. Qed.

Lemma F2R_pos m e : 0 < m -> (0 < F2R m e)%R.
Proof.
  intros H. unfold F2R. apply IZR_lt in H. pose proof (bpow_gt_0 e). nra.
Qed.

Lemma Zdigits2_le_53 p : Zpos p < 2 ^ 53 -> Zpos (digits2_pos p) <= 53.
Proof.
  intros H. pose proof (digits2_pos_bounds p) as [H1 _].
  destruct (Z_lt_le_dec 53 (Zpos (digits2_pos p))); [|assumption].
  assert (2 ^ 53 <= 2 ^ (Zpos (digits2_pos p) - 1)) by (apply Z.pow_le_mono_r; lia). lia.
Qed.

Lemma binary_round_int s p :
  Zpos p < 2 ^ 53 ->
  exists M,
    binary_round prec emax s p 0 = S754_finite s M (Zpos (digits2_pos p) - 53)
    /\ F2R (Zpos M) (Zpos (digits2_pos p) - 53) = IZR (Zpos p)
    /\ 2 ^ 52 <= Zpos M < 2 ^ 53.
Proof.
  intros Hp. pose proof (Zdigits2_le_53 p Hp) as Hd.
  destruct (binary_round_exact s p 0) as (M & HR & HV & HM).
  - cbn zeta. lia.
  - cbn zeta. rewrite Z.add_0_r.
    exists (Zpos p * 2 ^ (53 - Zpos (digits2_pos p))).
    replace (Zpos (digits2_pos p) - 53) with (0 - (53 - Zpos (digits2_pos p))) by lia.
    symmetry. apply F2R_shift. lia.
  - cbn zeta in HR, HV. rewrite Z.add_0_r in HR, HV.
    rewrite F2R_0 in HV. exists M. auto.
Qed.

Lemma binary_round_same_value s p e q :
  F2R (Zpos p) e = IZR (Zpos q) -> Zpos q < 2 ^ 53 ->
  binary_round prec emax s p e = binary_round prec emax s q 0.
Proof.
  intros Hv Hq. pose proof (Zdigits2_le_53 q Hq) as Hd.
  destruct (binary_round_int s q Hq) as (M2 & HR2 & HV2 & HM2).
  assert (Hg : Zpos (digits2_pos p) + e = Zpos (digits2_pos q)).
  { pose proof (mag_F2R (Zpos p) e ltac:(lia)) as A.
    pose proof (mag_F2R (Zpos q) 0 ltac:(lia)) as B.
    rewrite F2R_0, <- Hv in B. cbn [Zdigits2] in A, B.
    rewrite Z.add_0_r in B. exact (mag_unique _ _ _ A B). }
  destruct (binary_round_exact s p e) as (M1 & HR1 & HV1 & HM1).
  - cbn zeta. lia.
  - cbn zeta. rewrite Hg, Hv, <- HV2. eauto.
  - cbn zeta in HR1, HV1. rewrite Hg in HR1, HV1.
    rewrite HR1, HR2. f_equal.
    assert (Zpos M1 = Zpos M2) as HM by (eapply F2R_inj; rewrite HV1, HV2; exact Hv).
    congruence.
Qed.

Lemma binary_normalize_exact z e n :
  F2R z e = IZR n -> Z.abs n < 2 ^ 53 ->
  binary_normalize prec emax z e false = of_Z n.
Proof.
  intros Hv Hn. unfold of_Z.
  destruct z as [|p|p], n as [|q|q]; cbn [binary_normalize]; try reflexivity.
  - exfalso. pose proof (F2R_pos (Zpos q) 0 ltac:(lia)) as H. rewrite F2R_0 in H.
    unfold F2R in Hv. lra.
  - exfalso. pose proof (F2R_pos (Zpos q) 0 ltac:(lia)) as H. rewrite F2R_0 in H.
    change (Z.neg q) with (- Zpos q) in Hv. rewrite opp_IZR in Hv.
    unfold F2R in Hv. lra.
  - exfalso. pose proof (F2R_pos (Zpos p) e ltac:(lia)). lra.
  - apply binary_round_same_value; [assumption|lia].
  - exfalso. pose proof (F2R_pos (Zpos p) e ltac:(lia)).
    pose proof (F2R_pos (Zpos q) 0 ltac:(lia)) as H'. rewrite F2R_0 in H'.
    change (Z.neg q) with (- Zpos q) in Hv. rewrite opp_IZR in Hv. lra.
  - exfalso. pose proof (F2R_pos (Zpos p) e ltac:(lia)).
    change (Z.neg p) with (- Zpos p) in Hv. rewrite F2R_opp in Hv. lra.
  - exfalso. pose proof (F2R_pos (Zpos p) e ltac:(lia)).
    pose proof (F2R_pos (Zpos q) 0 ltac:(lia)) as H'. rewrite F2R_0 in H'.
    change (Z.neg p) with (- Zpos p) in Hv. rewrite F2R_opp in Hv. lra.
  - apply binary_round_same_value; [|lia].
    change (Z.neg p) with (- Zpos p) in Hv. change (Z.neg q) with (- Zpos q) in Hv.
    rewrite F2R_opp, opp_IZR in Hv. lra.
Qed.

Lemma of_Z_spec z :
  Z.abs z < 2 ^ 53 ->
  SF2R (of_Z z) = IZR z /\ is_finite (of_Z z) = true
  /\ (z = 0 -> of_Z z = S754_zero false)
  /\ (z <> 0 -> exists M, of_Z z = S754_finite (z <? 0) M (Zdigits2 z - 53)
                          /\ 2 ^ 52 <= Zpos M < 2 ^ 53).
Proof.
  intros Hz. unfold of_Z. destruct z as [|p|p]; cbn [binary_normalize].
  - repeat split; try reflexivity. intros H; lia.
  - destruct (binary_round_int false p ltac:(lia)) as (M & HR & HV & HM).
    rewrite HR. cbn [SF2R cond_Zopp is_finite]. repeat split; try assumption; try discriminate.
    intros _. exists M. auto.
  - destruct (binary_round_int true p ltac:(lia)) as (M & HR & HV & HM).
    rewrite HR. cbn [SF2R cond_Zopp is_finite].
    rewrite F2R_opp, HV. change (Z.neg p) with (- Zpos p). rewrite opp_IZR.
    repeat split; try assumption; try discriminate.
    intros _. exists M. auto.
Qed.

Lemma shl_align_fst_value m e ez :
  ez <= e -> F2R (Zpos (fst (shl_align m e ez))) ez = F2R (Zpos m) e.
Proof.
  intros H. pose proof (shl_align_spec m e ez) as (H1 & _ & H3). cbn zeta in *.
  rewrite <- H3. f_equal. lia.
Qed.

Lemma SF_align_value s m e ez :
  ez <= e ->
  F2R (cond_Zopp s (Zpos (fst (shl_align m e ez)))) ez = SF2R (S754_finite s m e).
Proof.
  intros H. cbn [SF2R]. rewrite !F2R_cond_Zopp, shl_align_fst_value by assumption.
  reflexivity.
Qed.

Lemma add_of_Z a b :
  Z.abs a < 2 ^ 53 -> Z.abs b < 2 ^ 53 -> Z.abs (a + b) < 2 ^ 53 ->
  SFadd prec emax (of_Z a) (of_Z b) = of_Z (a + b).
Proof.
  intros Ha Hb Hab.
  destruct (of_Z_spec a Ha) as (Va & _ & Za & Na).
  destruct (of_Z_spec b Hb) as (Vb & _ & Zb & Nb).
  destruct (Z.eq_dec a 0) as [->|Ha0]; destruct (Z.eq_dec b 0) as [->|Hb0].
  - rewrite Za by reflexivity. reflexivity.
  - rewrite Za, Z.add_0_l by reflexivity. destruct (Nb Hb0) as (M & -> & _). reflexivity.
  - rewrite Zb, Z.add_0_r by reflexivity. destruct (Na Ha0) as (M & -> & _). reflexivity.
  - destruct (Na Ha0) as (Ma & Ea & _). destruct (Nb Hb0) as (Mb & Eb & _).
    rewrite Ea in Va. rewrite Eb in Vb. rewrite Ea, Eb. cbn [SFadd].
    apply binary_normalize_exact; [|assumption].
    rewrite F2R_add, !SF_align_value, Va, Vb, plus_IZR by lia. reflexivity.
Qed.

Lemma sub_of_Z a b :
  Z.abs a < 2 ^ 53 -> Z.abs b < 2 ^ 53 -> Z.abs (a - b) < 2 ^ 53 ->
  SFsub prec emax (of_Z a) (of_Z b) = of_Z (a - b).
Proof.
  intros Ha Hb Hab.
  destruct (of_Z_spec a Ha) as (Va & _ & Za & Na).
  destruct (of_Z_spec b Hb) as (Vb & _ & Zb & Nb).
  destruct (Z.eq_dec a 0) as [->|Ha0]; destruct (Z.eq_dec b 0) as [->|Hb0].
  - rewrite Za by reflexivity. reflexivity.
  - rewrite Za by reflexivity.
    destruct (of_Z_spec (0 - b) ltac:(lia)) as (_ & _ & _ & Nc).
    destruct (Nb Hb0) as (M & E1 & _). destruct (Nc ltac:(lia)) as (M' & E2 & _).
    pose proof (of_Z_spec (0 - b) ltac:(lia)) as (Vc & _).
    rewrite E1 in Vb. rewrite E2 in Vc. rewrite E1, E2. cbn [SFsub].
    assert (Hd : Zdigits2 (0 - b) = Zdigits2 b) by (destruct b; reflexivity).
    assert (Hs : (0 - b <? 0) = negb (b <? 0)).
    { destruct (Z.ltb_spec b 0), (Z.ltb_spec (0 - b) 0); cbn; try reflexivity; lia. }
    rewrite Hs, Hd in *. f_equal.
    cbn [SF2R] in Vb, Vc. rewrite F2R_cond_Zopp in Vb, Vc.
    rewrite minus_IZR in Vc.
    assert (Zpos M = Zpos M') as HM.
    { apply F2R_inj with (e := Zdigits2 b - 53).
      destruct (b <? 0); cbn [negb] in Vc; lra. }
    congruence.
  - rewrite Zb, Z.sub_0_r by reflexivity. destruct (Na Ha0) as (M & -> & _). reflexivity.
  - destruct (Na Ha0) as (Ma & Ea & _). destruct (Nb Hb0) as (Mb & Eb & _).
    rewrite Ea in Va. rewrite Eb in Vb. rewrite Ea, Eb. cbn [SFsub].
    apply binary_normalize_exact; [|assumption].
    rewrite F2R_sub, !SF_align_value, Va, Vb, minus_IZR by lia. reflexivity.
Qed.

Lemma SFeqb_finite s1 m1 e1 s2 m2 e2 :
  SFeqb (S754_finite s1 m1 e1) (S754_finite s2 m2 e2) = true ->
  S754_finite s1 m1 e1 = S754_finite s2 m2 e2.
Proof.
  unfold SFeqb, SFcompare.
  destruct s1, s2; try discriminate;
    destruct (Z.compare_spec e1 e2); try discriminate;
    change (Pos.compare_cont Eq m1 m2) with (Pos.compare m1 m2);
    destruct (Pos.compare_spec m1 m2); try discriminate; intros _; congruence.
Qed.

Lemma SFeqb_refl_finite x : is_finite x = true -> SFeqb x x = true.
Proof.
  destruct x as [s| | |s m e]; try discriminate; intros _; try reflexivity.
  unfold SFeqb, SFcompare. rewrite Z.compare_refl.
  change (Pos.compare_cont Eq m m) with (Pos.compare m m). rewrite Pos.compare_refl.
  destruct s; reflexivity.
Qed.

Lemma eqb_of_Z a b :
  Z.abs a < 2 ^ 53 -> Z.abs b < 2 ^ 53 ->
  SFeqb (of_Z a) (of_Z b) = (a =? b).
Proof.
  intros Ha Hb.
  destruct (of_Z_spec a Ha) as (Va & Fa & Za & Na).
  destruct (of_Z_spec b Hb) as (Vb & Fb & Zb & Nb).
  destruct (Z.eqb_spec a b) as [->|Hne].
  - apply SFeqb_refl_finite; assumption.
  - destruct (SFeqb (of_Z a) (of_Z b)) eqn:E; [exfalso|reflexivity].
    destruct (Z.eq_dec a 0) as [->|Ha0]; destruct (Z.eq_dec b 0) as [->|Hb0]; try lia.
    + rewrite Za in E by reflexivity. destruct (Nb Hb0) as (M & EM & _).
      rewrite EM in E. destruct (b <? 0); discriminate.
    + rewrite Zb in E by reflexivity. destruct (Na Ha0) as (M & EM & _).
      rewrite EM in E. destruct (a <? 0); discriminate.
    + destruct (Na Ha0) as (Ma & Ea & _). destruct (Nb Hb0) as (Mb & Eb & _).
      rewrite Ea, Eb in E. apply SFeqb_finite in E.
      rewrite <- Ea, <- Eb in E. rewrite E in Va. rewrite Va in Vb.
      apply eq_IZR in Vb. lia.
Qed.

Lemma half_ulp g : (bpow (g - 53) / 2 = bpow (g - 1) * u53)%R.
Proof.
  unfold u53. rewrite <- bpow_add.
  replace (g - 53) with (g - 1 + -53 + 1) by lia. rewrite bpow_succ. lra.
Qed.

Lemma new_location_located m2 q r e v :
  0 < m2 -> 0 <= r < m2 ->
  (v * IZR m2 = (IZR q * IZR m2 + IZR r) * bpow e)%R ->
  located q e (new_location m2 r) v.
Proof.
  intros Hm Hr Hv.
  pose proof (bpow_gt_0 e) as He.
  assert (Hm' : (0 < IZR m2)%R) by (apply IZR_lt; assumption).
  assert (Hloc : forall c : comparison,
             (match c with
              | Lt => 0 < 2 * r < m2 | Eq => 2 * r = m2 | Gt => m2 < 2 * r end) ->
             located q e (loc_Inexact c) v).
  { intros c Hc. unfold located, F2R.
    destruct c.
    - assert (2 * IZR r = IZR m2)%R by (rewrite <- Hc, mult_IZR; reflexivity).
      apply Rmult_eq_reg_r with (IZR m2); [|lra]. nra.
    - destruct Hc as [Hc1 Hc2].
      assert (0 < IZR r)%R by (apply IZR_lt; lia).
      assert (2 * IZR r < IZR m2)%R by (rewrite <- mult_IZR; apply IZR_lt; assumption).
      split; apply Rmult_lt_reg_r with (IZR m2); try assumption; nra.
    - assert (IZR m2 < 2 * IZR r)%R by (rewrite <- mult_IZR; apply IZR_lt; assumption).
      assert (IZR r < IZR m2)%R by (apply IZR_lt; lia).
      split; apply Rmult_lt_reg_r with (IZR m2); try assumption; nra. }
  assert (Hex : r = 0 -> v = F2R q e).
  { intros ->. unfold F2R. apply Rmult_eq_reg_r with (IZR m2); [|lra]. nra. }
  unfold new_location.
  destruct (Z.even m2) eqn:Ev.
  - unfold new_location_even.
    destruct (Z.eqb_spec r 0) as [Hr0|Hr0]; [exact (Hex Hr0)|].
    apply Hloc. destruct (Z.compare_spec (2 * r) m2); lia.
  - unfold new_location_odd.
    destruct (Z.eqb_spec r 0) as [Hr0|Hr0]; [exact (Hex Hr0)|].
    assert (Hodd : Z.odd m2 = true) by (rewrite <- Z.negb_even, Ev; reflexivity).
    apply Z.odd_spec in Hodd. destruct Hodd as [k Hk].
    destruct (Z.compare_spec (2 * r + 1) m2); apply Hloc; lia.
Qed.

Lemma Zdigits2_53 M : 2 ^ 52 <= Zpos M < 2 ^ 53 -> Zdigits2 (Zpos M) = 53.
Proof. intros H. apply Zdigits2_unique; [lia|exact H]. Qed.

Lemma SFdiv_normal Mx Ex My Ey :
  2 ^ 52 <= Zpos Mx < 2 ^ 53 -> 2 ^ 52 <= Zpos My < 2 ^ 53 ->
  -900 <= Ex - Ey <= 900 ->
  exists M E,
    SFdiv prec emax (S754_finite false Mx Ex) (S754_finite false My Ey)
    = S754_finite false M E
    /\ 2 ^ 52 <= Zpos M < 2 ^ 53
    /\ Ex - Ey - 53 <= E <= Ex - Ey - 51
    /\ (F2R (Zpos Mx) Ex * (1 - u53) <= F2R (Zpos M) E * F2R (Zpos My) Ey
        <= F2R (Zpos Mx) Ex * (1 + u53))%R.
Proof.
  intros HMx HMy HE.
  cbn [SFdiv xorb]. unfold SFdiv_core_binary.
  rewrite !Zdigits2_53, fexp_eq by assumption.
  replace (Z.min (Z.max (53 + Ex - (53 + Ey) - 53) (-1074)) (Ex - Ey))
    with (Ex - Ey - 53) by lia.
  replace (Ex - Ey - (Ex - Ey - 53)) with 53 by lia.
  rewrite Z.shiftl_mul_pow2 by lia.
  set (m' := Zpos Mx * 2 ^ 53).
  pose proof (Z_div_mod m' (Zpos My) ltac:(lia)) as Hdm.
  destruct (Z.div_eucl m' (Zpos My)) as [q r]. destruct Hdm as [Hq Hr].
  set (e' := Ex - Ey - 53).
  set (v := (F2R (Zpos Mx) Ex / F2R (Zpos My) Ey)%R).
  pose proof (F2R_pos (Zpos Mx) Ex ltac:(lia)) as Hx.
  pose proof (F2R_pos (Zpos My) Ey ltac:(lia)) as Hy.
  assert (Hvy : (v * F2R (Zpos My) Ey = F2R (Zpos Mx) Ex)%R).
  { unfold v. field. lra. }
  assert (Hloc : located q e' (new_location (Zpos My) r) v).
  { apply new_location_located; try lia.
    rewrite <- mult_IZR, <- plus_IZR.
    replace (q * Zpos My + r) with m' by lia.
    unfold m'. rewrite mult_IZR, <- bpow_IZR by lia.
    unfold F2R in Hvy.
    assert (Hb : (bpow Ex = bpow 53 * bpow e' * bpow Ey)%R).
    { rewrite <- !bpow_add. f_equal. unfold e'. lia. }
    rewrite Hb in Hvy. pose proof (bpow_gt_0 Ey).
    apply Rmult_eq_reg_r with (bpow Ey); [|lra]. lra. }
  assert (Hqb : 2 ^ 52 <= q < 2 ^ 54).
  { unfold m' in Hq. change (2 ^ 54) with (2 * 2 ^ 53). change (2 ^ 53) with (2 * 2 ^ 52) in *.
    nia. }
  assert (Hdq : 53 <= Zdigits2 q <= 54).
  { pose proof (Zdigits2_bounds q ltac:(lia)) as [B1 B2].
    split.
    - destruct (Z_lt_le_dec (Zdigits2 q) 53); [|assumption].
      assert (2 ^ Zdigits2 q <= 2 ^ 52) by (apply Z.pow_le_mono_r; lia). lia.
    - destruct (Z_lt_le_dec 54 (Zdigits2 q)); [|assumption].
      assert (2 ^ 54 <= 2 ^ (Zdigits2 q - 1)) by (apply Z.pow_le_mono_r; lia). lia. }
  destruct (binary_round_aux_normal q e' _ v ltac:(lia) ltac:(lia) ltac:(unfold e'; lia)
              ltac:(unfold e'; lia) Hloc)
    as (M & E & HR & HM & HEb & Herr & Hlow & _).
  exists M, E. rewrite HR. repeat split; try lia.
  - rewrite half_ulp in Herr.
    assert (F2R (Zpos M) E >= v - v * u53)%R.
    { assert (0 < u53)%R by apply bpow_gt_0. nra. }
    rewrite <- Hvy. nra.
  - rewrite half_ulp in Herr.
    assert (F2R (Zpos M) E <= v + v * u53)%R.
    { assert (0 < u53)%R by apply bpow_gt_0. nra. }
    rewrite <- Hvy. nra.
Qed.

Lemma SFmul_normal Mx Ex My Ey :
  2 ^ 52 <= Zpos Mx < 2 ^ 53 -> 2 ^ 52 <= Zpos My < 2 ^ 53 ->
  -900 <= Ex + Ey <= 900 ->
  exists M E,
    SFmul prec emax (S754_finite false Mx Ex) (S754_finite false My Ey)
    = S754_finite false M E
    /\ 2 ^ 52 <= Zpos M < 2 ^ 53
    /\ (F2R (Zpos Mx) Ex * F2R (Zpos My) Ey * (1 - u53) <= F2R (Zpos M) E
        <= F2R (Zpos Mx) Ex * F2R (Zpos My) Ey * (1 + u53))%R.
Proof.
  intros HMx HMy HE.
  cbn [SFmul xorb].
  set (v := (F2R (Zpos Mx) Ex * F2R (Zpos My) Ey)%R).
  assert (Hv : v = F2R (Zpos (Mx * My)) (Ex + Ey)).
  { unfold v, F2R. rewrite Pos2Z.inj_mul, mult_IZR, bpow_add. lra. }
  assert (Hb : 2 ^ 104 <= Zpos (Mx * My) < 2 ^ 106).
  { rewrite Pos2Z.inj_mul. change (2 ^ 104) with (2 ^ 52 * 2 ^ 52).
    change (2 ^ 106) with (2 ^ 53 * 2 ^ 53). nia. }
  assert (Hd : 105 <= Zdigits2 (Zpos (Mx * My)) <= 106).
  { pose proof (Zdigits2_bounds (Zpos (Mx * My)) ltac:(lia)) as [B1 B2].
    split.
    - destruct (Z_lt_le_dec (Zdigits2 (Zpos (Mx * My))) 105); [|assumption].
      assert (2 ^ Zdigits2 (Zpos (Mx * My)) <= 2 ^ 104) by (apply Z.pow_le_mono_r; lia). lia.
    - destruct (Z_lt_le_dec 106 (Zdigits2 (Zpos (Mx * My)))); [|assumption].
      assert (2 ^ 106 <= 2 ^ (Zdigits2 (Zpos (Mx * My)) - 1)) by (apply Z.pow_le_mono_r; lia). lia. }
  destruct (binary_round_aux_normal (Zpos (Mx * My)) (Ex + Ey) loc_Exact v
              ltac:(lia) ltac:(lia) ltac:(lia) ltac:(lia) Hv)
    as (M & E & HR & HM & HEb & Herr & Hlow & _).
  exists M, E. rewrite HR. rewrite half_ulp in Herr.
  assert (0 < u53)%R by apply bpow_gt_0.
  repeat split; try lia; nra.
Qed.

Lemma u53_eq : u53 = (1 / 9007199254740992)%R.
Proof.
  assert (H : (u53 * bpow 53 = 1)%R).
  { unfold u53. rewrite <- bpow_add. reflexivity. }
  rewrite bpow_IZR in H by lia. change (2 ^ 53) with 9007199254740992 in H.
  apply Rmult_eq_reg_r with 9007199254740992%R; [|lra]. rewrite H. field.
Qed.

Lemma Math_round_pos M E :
  E < 0 ->
  exists n,
    Math_round (S754_finite false M E) = of_Z n
    /\ (IZR n <= F2R (Zpos M) E + 1 / 2 < IZR n + 1)%R.
Proof.
  intros HE. cbn [Math_round cond_Zopp].
  replace (0 <=? E) with false by (symmetry; apply Z.leb_gt; assumption).
  set (P := 2 ^ (- E)).
  assert (HP : 0 < P) by (apply Z.pow_pos_nonneg; lia).
  assert (H2P : 2 ^ (1 - E) = 2 * P).
  { unfold P. replace (1 - E) with (Z.succ (- E)) by lia. apply Z.pow_succ_r. lia. }
  rewrite H2P.
  set (n := (2 * Z.pos M + P) / (2 * P)).
  exists n. split.
  - destruct (Z.eqb_spec n 0) as [->|]; reflexivity.
  - pose proof (Z_div_mod_eq_full (2 * Z.pos M + P) (2 * P)) as Hdm.
    pose proof (Z.mod_pos_bound (2 * Z.pos M + P) (2 * P) ltac:(lia)) as Hr.
    fold n in Hdm. set (r := (2 * Z.pos M + P) mod (2 * P)) in *.
    assert (Hy : (F2R (Zpos M) E * IZR P = IZR (Zpos M))%R).
    { unfold F2R, P. rewrite <- bpow_IZR by lia.
      rewrite Rmult_assoc, <- bpow_add. replace (E + - E) with 0 by lia.
      unfold bpow. cbn. lra. }
    apply (f_equal IZR) in Hdm.
    rewrite !plus_IZR, !mult_IZR in Hdm.
    destruct Hr as [Hr1 Hr2]. apply IZR_le in Hr1. apply IZR_lt in Hr2.
    rewrite mult_IZR in Hr2. apply IZR_lt in HP.
    set (y := F2R (Zpos M) E) in *.
    split.
    + apply Rmult_le_reg_r with (IZR P); [assumption|]. nra.
    + apply Rmult_lt_reg_r with (IZR P); [assumption|]. nra.
Qed.

Lemma Zdigits2_range z : 0 < z < 2 ^ 53 -> 1 <= Zdigits2 z <= 53.
Proof.
  intros Hz. destruct z as [|p|p]; try lia.
  pose proof (Zdigits2_le_53 p ltac:(lia)). cbn [Zdigits2]. lia.
Qed.

Lemma percent_nearest r t :
  0 <= r <= 2 ^ 44 -> 0 < t < 2 ^ 53 ->
  exists p,
    newPercentage (of_Z r) (of_Z t) = of_Z p
    /\ 0 <= p /\ - t <= 200 * r - 2 * p * t <= t.
Proof.
  intros Hr Ht.
  destruct (of_Z_spec t ltac:(lia)) as (Vt & _ & _ & Nt).
  destruct (Nt ltac:(lia)) as (Mt & Et & HMt).
  replace (t <? 0) with false in Et by (symmetry; apply Z.ltb_ge; lia).
  rewrite Et in Vt. cbn [SF2R cond_Zopp] in Vt.
  destruct (Z.eq_dec r 0) as [->|Hr0].
  { exists 0. unfold newPercentage, mul, div. rewrite Et. cbn. split; [reflexivity|lia]. }
  assert (Hr53 : 0 < r < 2 ^ 53).
  { change (2 ^ 53) with (512 * 2 ^ 44). lia. }
  destruct (of_Z_spec r ltac:(lia)) as (Vr & _ & _ & Nr).
  destruct (Nr ltac:(lia)) as (Mr & Er & HMr).
  replace (r <? 0) with false in Er by (symmetry; apply Z.ltb_ge; lia).
  rewrite Er in Vr. cbn [SF2R cond_Zopp] in Vr.
  destruct (of_Z_spec 100 ltac:(cbn; lia)) as (Vc & _ & _ & Nc).
  destruct (Nc ltac:(lia)) as (Mc & Ec & HMc).
  change (100 <? 0) with false in Ec. change (Zdigits2 100 - 53) with (-46) in Ec.
  rewrite Ec in Vc. cbn [SF2R cond_Zopp] in Vc.
  pose proof (Zdigits2_range r Hr53) as Dr.
  pose proof (Zdigits2_range t Ht) as Dt.
  destruct (SFdiv_normal Mr (Zdigits2 r - 53) Mt (Zdigits2 t - 53) HMr HMt ltac:(lia))
    as (Md & Ed & HRd & HMd & HEd & Herrd).
  rewrite Vr, Vt in Herrd.
  destruct (SFmul_normal Md Ed Mc (-46) HMd HMc ltac:(lia))
    as (My & Ey & HRy & HMy & Herry).
  rewrite Vc in Herry.
  unfold newPercentage, mul, div. rewrite Er, Et, HRd, Ec, HRy.
  set (d := F2R (Zpos Md) Ed) in *. set (y := F2R (Zpos My) Ey) in *.
  rewrite u53_eq in Herrd, Herry.
  assert (HR : (0 < IZR r <= 17592186044416)%R).
  { split; [apply IZR_lt; lia|]. change 17592186044416%R with (IZR (2 ^ 44)). apply IZR_le; lia. }
  assert (HT : (1 <= IZR t)%R) by (apply IZR_le; lia).
  assert (Hd0 : (0 <= d)%R).
  { unfold d. left. apply F2R_pos. lia. }
  assert (HYT : (100 * (d * IZR t) * (1 - 1 / 9007199254740992) <= y * IZR t
                 <= 100 * (d * IZR t) * (1 + 1 / 9007199254740992))%R) by nra.
  assert (Hysmall : (y < 4503599627370496)%R).
  { assert (d <= d * IZR t)%R by nra. lra. }
  assert (HEy : Ey < 0).
  { apply bpow_lt_inv. change (bpow 0) with 1%R.
    destruct HMy as [HMy _]. apply F2R_le with (e := Ey) in HMy.
    fold y in HMy. unfold F2R in HMy. change (2 ^ 52) with 4503599627370496 in HMy.
    pose proof (bpow_gt_0 Ey). nra. }
  destruct (Math_round_pos My Ey HEy) as (n & Hn & Hfl).
  fold y in Hfl. exists n. split; [exact Hn|].
  assert (HNT : (IZR n * IZR t <= y * IZR t + IZR t / 2 < IZR n * IZR t + IZR t)%R) by nra.
  assert (Hn0 : 0 <= n).
  { assert (0 <= y)%R by nra.
    assert (IZR (-1) < IZR n)%R as H' by lra. apply lt_IZR in H'. lia. }
  split; [assumption|].
  split.
  - assert (IZR (- t - 1) < IZR (200 * r - 2 * n * t))%R as H.
    { rewrite !minus_IZR, !mult_IZR, opp_IZR. lra. }
    apply lt_IZR in H. lia.
  - assert (IZR (200 * r - 2 * n * t) < IZR (t + 1))%R as H.
    { rewrite plus_IZR, !minus_IZR, !mult_IZR. lra. }
    apply lt_IZR in H. lia.
Qed.

(** * The progress reports

    The listener of [downloadFile] and the callback of [download] on
    byte counts below [2^44] and a total below [2^53]: the byte counts
    are exact, the percentage is an integer nearest to the exact ratio,
    and comparisons and increments are exact. *)

Lemma of_Z_inj a b :
  Z.abs a < 2 ^ 53 -> Z.abs b < 2 ^ 53 -> of_Z a = of_Z b -> a = b.
Proof.
  intros Ha Hb H.
  destruct (of_Z_spec a Ha) as (Va & _). destruct (of_Z_spec b Hb) as (Vb & _).
  rewrite H in Va. rewrite Va in Vb. apply eq_IZR. exact Vb.
Qed.

Lemma nearest_exists t r :
  0 <= r <= 2 ^ 44 -> 0 < t < 2 ^ 53 -> exists q, nearest_percent t r q.
Proof. intros Hr Ht. exact (percent_nearest r t Hr Ht). Qed.

Lemma nearest_bound t r q :
  0 < t -> 0 <= r <= 2 ^ 44 -> nearest_percent t r q -> 0 <= q < 2 ^ 52.
Proof.
  intros Ht Hr (_ & Hq & Hn).
  assert (q <= 100 * r) by nia.
  change (2 ^ 52) with (256 * 2 ^ 44). lia.
Qed.

Lemma nearest_fun t r q1 q2 :
  0 < t -> 0 <= r <= 2 ^ 44 ->
  nearest_percent t r q1 -> nearest_percent t r q2 -> q1 = q2.
Proof.
  intros Ht Hr H1 H2.
  pose proof (nearest_bound _ _ _ Ht Hr H1). pose proof (nearest_bound _ _ _ Ht Hr H2).
  destruct H1 as (E1 & _). destruct H2 as (E2 & _).
  apply of_Z_inj; [change (2 ^ 53) with (2 * 2 ^ 52); lia ..|congruence].
Qed.

Lemma nearest_mono t r1 r2 q1 q2 :
  0 < t -> 0 <= r1 -> r1 <= r2 -> r2 <= 2 ^ 44 ->
  nearest_percent t r1 q1 -> nearest_percent t r2 q2 -> q1 <= q2.
Proof.
  intros Ht H0 Hle Hr H1 H2.
  destruct (Z.eq_dec r1 r2) as [->|Hne].
  - rewrite (nearest_fun t r2 q1 q2); try assumption; lia.
  - destruct H1 as (_ & _ & A). destruct H2 as (_ & _ & B). nia.
Qed.

Lemma nearest_step t r1 r2 q1 q2 :
  0 < t -> 0 <= r1 -> r1 <= r2 -> r2 <= 2 ^ 44 -> 100 * (r2 - r1) < t ->
  nearest_percent t r1 q1 -> nearest_percent t r2 q2 -> q2 <= q1 + 1.
Proof.
  intros Ht H0 Hle Hr Hs H1 H2.
  destruct H1 as (_ & _ & A). destruct H2 as (_ & _ & B). nia.
Qed.

Lemma nearest_zero t : 0 < t < 2 ^ 53 -> nearest_percent t 0 0.
Proof.
  intros Ht. destruct (nearest_exists t 0 ltac:(lia) Ht) as (q & E & Hq & Hn).
  assert (q = 0) by nia. subst q. repeat split; try assumption; lia.
Qed.

Lemma nearest_full t q : 0 < t -> nearest_percent t t q -> q = 100.
Proof. intros Ht (_ & _ & Hn). nia. Qed.

Lemma last_cons {A} (x : A) l d : last (x :: l) d = last l x.
Proof.
  revert x d. induction l as [|y l IH]; intros x d; [reflexivity|].
  change (last (x :: y :: l) d) with (last (y :: l) d). rewrite (IH y d), (IH y x). reflexivity.
Qed.

Lemma onProgress_of_Z t r q p0 :
  0 < t -> 0 <= r <= 2 ^ 44 -> nearest_percent t r q -> 0 <= p0 < 2 ^ 52 ->
  onProgress (of_Z p0) (of_Z r) (of_Z t)
  = if q =? p0 then (None, of_Z p0)
    else (Some {| message := Percent (of_Z q); increment := of_Z (q - p0) |}, of_Z q).
Proof.
  intros Ht Hr Hn Hp.
  pose proof (nearest_bound _ _ _ Ht Hr Hn) as Hq.
  destruct Hn as (E & _). unfold onProgress. rewrite E.
  unfold strict_neq. rewrite eqb_of_Z by (change (2 ^ 53) with (2 * 2 ^ 52); lia).
  destruct (q =? p0); cbn [negb]; [reflexivity|].
  unfold sub. rewrite sub_of_Z by (change (2 ^ 53) with (2 * 2 ^ 52); lia). reflexivity.
Qed.

Lemma on_data_all_chain t lens : forall r p0,
  0 < t < 2 ^ 53 -> Forall (fun l => 0 <= l) lens ->
  0 <= r -> r + sum_Z lens <= 2 ^ 44 -> 0 <= p0 < 2 ^ 52 ->
  exists qs,
    percent_chain t r lens qs
    /\ on_data_all onProgress (of_Z t) (of_Z r, of_Z p0) lens
       = (events_of p0 qs, (of_Z (r + sum_Z lens), of_Z (last qs p0))).
Proof.
  induction lens as [|len lens IH]; intros r p0 Ht Hl Hr Hs Hp.
  - exists []. split; [constructor|]. cbn. rewrite Z.add_0_r. reflexivity.
  - inversion Hl as [|? ? Hlen Hl']; subst. cbn [sum_Z fold_right] in Hs.
    fold (sum_Z lens) in Hs.
    assert (Hsum : 0 <= sum_Z lens).
    { clear -Hl'. induction Hl'; cbn; [lia|]. fold (sum_Z l). lia. }
    destruct (nearest_exists t (r + len) ltac:(lia) Ht) as (q & Hq).
    pose proof (nearest_bound t (r + len) q ltac:(lia) ltac:(lia) Hq) as Hqb.
    destruct (IH (r + len) (if q =? p0 then p0 else q) Ht Hl' ltac:(lia) ltac:(lia)
                ltac:(destruct (q =? p0); lia)) as (qs & Hc & Hrun).
    exists (q :: qs). split; [constructor; assumption|].
    cbn [on_data_all on_data]. unfold add.
    assert (H244 : 2 ^ 44 < 2 ^ 53) by (cbn; lia).
    rewrite add_of_Z by lia.
    rewrite (onProgress_of_Z t (r + len) q p0) by (assumption || lia).
    rewrite last_cons. cbn [events_of sum_Z fold_right]. fold (sum_Z lens).
    destruct (Z.eqb_spec q p0) as [->|Hne].
    + rewrite Hrun. rewrite Z.add_assoc. reflexivity.
    + rewrite Hrun. rewrite Z.add_assoc. reflexivity.
Qed.

Lemma sum_Z_nonneg lens : Forall (fun l => 0 <= l) lens -> 0 <= sum_Z lens.
Proof. induction 1; cbn; [lia|]. fold (sum_Z l). lia. Qed.

Lemma chain_bounds t r lens qs :
  0 < t -> 0 <= r -> Forall (fun l => 0 <= l) lens -> r + sum_Z lens <= 2 ^ 44 ->
  percent_chain t r lens qs -> Forall (fun q => 0 <= q < 2 ^ 52) qs.
Proof.
  intros Ht Hr Hl Hs Hc. induction Hc as [|r len lens q qs Hq Hc IH]; [constructor|].
  inversion Hl as [|? ? Hlen Hl']; subst. cbn in Hs. fold (sum_Z lens) in Hs.
  pose proof (sum_Z_nonneg lens Hl').
  constructor.
  - apply (nearest_bound t (r + len) q); [lia|lia|assumption].
  - apply IH; try assumption; lia.
Qed.

Lemma chain_last t r lens qs p0 :
  nearest_percent t r p0 -> percent_chain t r lens qs ->
  nearest_percent t (r + sum_Z lens) (last qs p0).
Proof.
  intros Hp Hc. revert p0 Hp.
  induction Hc as [r|r len lens q qs Hq Hc IH]; intros p0 Hp.
  - cbn. rewrite Z.add_0_r. assumption.
  - rewrite last_cons. cbn. fold (sum_Z lens). rewrite Z.add_assoc. apply IH. assumption.
Qed.

Lemma chain_last_ge t r lens qs p0 :
  0 < t -> 0 <= r -> Forall (fun l => 0 <= l) lens -> r + sum_Z lens <= 2 ^ 44 ->
  nearest_percent t r p0 -> percent_chain t r lens qs -> p0 <= last qs p0.
Proof.
  intros Ht Hr Hl Hs Hp Hc.
  pose proof (chain_last t r lens qs p0 Hp Hc) as Hlast.
  pose proof (sum_Z_nonneg lens Hl).
  apply (nearest_mono t r (r + sum_Z lens)); try assumption; lia.
Qed.

Lemma chain_reported_sorted t r lens qs : forall p0,
  0 < t -> 0 <= r -> Forall (fun l => 0 <= l) lens -> r + sum_Z lens <= 2 ^ 44 ->
  nearest_percent t r p0 -> percent_chain t r lens qs ->
  StronglySorted Z.lt (reported p0 qs)
  /\ Forall (fun q => p0 < q < 2 ^ 52) (reported p0 qs).
Proof.
  intros p0 Ht Hr Hl Hs Hp Hc. revert p0 Hp.
  induction Hc as [r|r len lens q qs Hq Hc IH]; intros p0 Hp.
  - cbn. split; constructor.
  - inversion Hl as [|? ? Hlen Hl']; subst. cbn in Hs. fold (sum_Z lens) in Hs.
    pose proof (sum_Z_nonneg lens Hl') as Hsum.
    assert (Hle : p0 <= q).
    { apply (nearest_mono t r (r + len)); try assumption; lia. }
    pose proof (nearest_bound t (r + len) q ltac:(lia) ltac:(lia) Hq) as Hqb.
    cbn [reported]. destruct (Z.eqb_spec q p0) as [->|Hne].
    + apply IH; try assumption; lia.
    + destruct (IH ltac:(lia) Hl' ltac:(lia) q Hq) as [S1 S2].
      split.
      * constructor; [assumption|]. eapply Forall_impl; [|exact S2]. cbn. intros; lia.
      * constructor; [lia|]. eapply Forall_impl; [|exact S2]. cbn. intros; lia.
Qed.

Lemma events_of_percentage p0 qs :
  map percentage (events_of p0 qs) = map of_Z (reported p0 qs).
Proof.
  revert p0. induction qs as [|q qs IH]; intros p0; [reflexivity|].
  cbn [events_of reported]. destruct (q =? p0); [apply IH|].
  cbn [map percentage message]. rewrite IH. reflexivity.
Qed.

Lemma NoDup_map_of_Z ps :
  StronglySorted Z.lt ps -> Forall (fun q => 0 <= q < 2 ^ 52) ps -> NoDup (map of_Z ps).
Proof.
  induction 1 as [|a l Hs IH Ha]; intros Hb; cbn; constructor.
  - inversion Hb as [|? ? Hab Hbl]; subst.
    intros Hin. apply in_map_iff in Hin. destruct Hin as (x & Hx & Hin).
    rewrite Forall_forall in Ha, Hbl. specialize (Ha x Hin). specialize (Hbl x Hin).
    apply of_Z_inj in Hx; [lia| |]; change (2 ^ 53) with (2 * 2 ^ 52); lia.
  - apply IH. inversion Hb; assumption.
Qed.

Lemma events_of_total p0 qs :
  0 <= p0 < 2 ^ 52 -> Forall (fun q => 0 <= q < 2 ^ 52) qs ->
  fold_left add (map increment (events_of p0 qs)) (of_Z p0) = of_Z (last qs p0)
  /\ last (map percentage (events_of p0 qs)) (of_Z p0) = of_Z (last qs p0).
Proof.
  intros Hp Hq. revert p0 Hp. induction Hq as [|q qs Hqb Hq IH]; intros p0 Hp.
  - cbn. auto.
  - rewrite last_cons. cbn [events_of]. destruct (Z.eqb_spec q p0) as [->|Hne].
    + apply IH. assumption.
    + cbn [map fold_left increment percentage message]. rewrite last_cons.
      unfold add at 2. rewrite add_of_Z by (change (2 ^ 53) with (2 * 2 ^ 52); lia).
      replace (p0 + (q - p0)) with q by lia. apply IH. assumption.
Qed.

Lemma chain_unit_steps t r lens qs : forall p0,
  0 < t -> 0 <= r -> Forall (fun l => 0 <= l /\ 100 * l < t) lens ->
  r + sum_Z lens <= 2 ^ 44 ->
  nearest_percent t r p0 -> percent_chain t r lens qs ->
  events_of p0 qs = map unit_step (count_up (p0 + 1) (Z.to_nat (last qs p0 - p0))).
Proof.
  intros p0 Ht Hr Hl Hs Hp Hc. revert p0 Hp.
  induction Hc as [r|r len lens q qs Hq Hc IH]; intros p0 Hp.
  - cbn. rewrite Z.sub_diag. reflexivity.
  - inversion Hl as [|? ? [Hlen Hstep] Hl']; subst. cbn in Hs. fold (sum_Z lens) in Hs.
    assert (Hl0 : Forall (fun l => 0 <= l) lens).
    { eapply Forall_impl; [|exact Hl']. cbn. intros; lia. }
    pose proof (sum_Z_nonneg lens Hl0) as Hsum.
    assert (Hle : p0 <= q).
    { apply (nearest_mono t r (r + len)); try assumption; lia. }
    assert (Hup : q <= p0 + 1).
    { apply (nearest_step t r (r + len)); try assumption; lia. }
    rewrite last_cons. cbn [events_of].
    destruct (Z.eqb_spec q p0) as [->|Hne].
    + apply IH; try assumption; lia.
    + assert (q = p0 + 1) by lia. subst q.
      pose proof (chain_last_ge t (r + len) lens qs (p0 + 1) Ht ltac:(lia) Hl0 ltac:(lia)
                    Hq Hc) as Hge.
      replace (Z.to_nat (last qs (p0 + 1) - p0))
        with (Datatypes.S (Z.to_nat (last qs (p0 + 1) - (p0 + 1)))) by lia.
      cbn [count_up map]. rewrite <- IH by (assumption || lia).
      unfold unit_step. do 3 f_equal. lia.
Qed.

(** The reports of a download are the reports [events_of] builds from the
    chain of computed percentages. *)
Lemma progress_events_chain t lens :
  0 < t < 2 ^ 53 -> Forall (fun l => 0 <= l) lens -> sum_Z lens <= 2 ^ 44 ->
  exists qs,
    percent_chain t 0 lens qs /\ progress_events (of_Z t) lens = events_of 0 qs.
Proof.
  intros Ht Hl Hs.
  destruct (on_data_all_chain t lens 0 0 Ht Hl ltac:(lia) ltac:(lia) ltac:(lia))
    as (qs & Hc & Hrun).
  exists qs. split; [assumption|]. unfold progress_events. rewrite Hrun. reflexivity.
Qed.

(** C3, as amended.  The callback computes [Math.round] of the ratio in
    percent, not its floor: for [readBytes] up to [2^44] and a positive
    [totalBytes] below [2^53], [newPercentage] is an integer [p] nearest to
    [100 * readBytes / totalBytes] (that is, [|100 * readBytes - p *
    totalBytes| <= totalBytes / 2]), and it is reported, with its
    difference to [lastPercentage], exactly when it differs from
    [lastPercentage]. *)
Theorem onProgress_rounds_to_nearest (lastPercentage : number) (readBytes totalBytes : Z) :
  0 <= readBytes <= 2 ^ 44 -> 0 < totalBytes < 2 ^ 53 ->
  exists p,
    0 <= p
    /\ - totalBytes <= 200 * readBytes - 2 * p * totalBytes <= totalBytes
    /\ newPercentage (of_Z readBytes) (of_Z totalBytes) = of_Z p
    /\ onProgress lastPercentage (of_Z readBytes) (of_Z totalBytes)
       = if strict_neq (of_Z p) lastPercentage
         then (Some {| message := Percent (of_Z p);
                       increment := sub (of_Z p) lastPercentage |}, of_Z p)
         else (None, lastPercentage).
Proof.
  intros Hr Ht. destruct (nearest_exists totalBytes readBytes Hr Ht) as (p & E & Hp & Hn).
  exists p. repeat split; try assumption; try lia.
  unfold onProgress. rewrite E. reflexivity.
Qed.

Lemma onProgress_rounds_to_nearest_witness :
  (0 <= 2 <= 2 ^ 44 /\ 0 < 3 < 2 ^ 53)
  /\ exists p,
       0 <= p
       /\ - 3 <= 200 * 2 - 2 * p * 3 <= 3
       /\ newPercentage (of_Z 2) (of_Z 3) = of_Z p
       /\ onProgress (of_Z 0) (of_Z 2) (of_Z 3)
          = if strict_neq (of_Z p) (of_Z 0)
            then (Some {| message := Percent (of_Z p);
                          increment := sub (of_Z p) (of_Z 0) |}, of_Z p)
            else (None, of_Z 0).
Proof.
  split; [lia|]. apply (onProgress_rounds_to_nearest (of_Z 0) 2 3); lia.
Defined.

(** C3, as the specification states it, fails: for 2 bytes read out of 3
    the callback computes 67, and the floor of the ratio in percent is
    66. *)
Lemma newPercentage_is_not_floor :
  newPercentage (of_Z 2) (of_Z 3) = of_Z 67
  /\ floor_percentage (of_Z 2) (of_Z 3) = of_Z 66
  /\ newPercentage (of_Z 2) (of_Z 3) <> floor_percentage (of_Z 2) (of_Z 3).
Proof. repeat split; try (vm_compute; reflexivity). vm_compute. discriminate. Qed.

(** On a tie the result follows the binary64 value, not the exact ratio:
    57 bytes out of 200 are 28.5 percent, the product computed is
    28.499999999999996, and 28 is reported. *)
Example newPercentage_below_a_tie : newPercentage (of_Z 57) (of_Z 200) = of_Z 28.
Proof. vm_compute. reflexivity. Qed.

(** With a total of [0], as for a response without [content-length], the
    first chunk is reported as [Infinity] percent and nothing after it. *)
Lemma newPercentage_zero_total r :
  0 < r < 2 ^ 53 -> newPercentage (of_Z r) (of_Z 0) = Infinity.
Proof.
  intros Hr. destruct (of_Z_spec r ltac:(lia)) as (_ & _ & _ & Nr).
  destruct (Nr ltac:(lia)) as (M & E & _). rewrite E.
  replace (r <? 0) with false by (symmetry; apply Z.ltb_ge; lia).
  reflexivity.
Qed.

Lemma on_data_all_zero_total lens : forall r,
  0 < r -> Forall (fun l => 0 <= l) lens -> r + sum_Z lens < 2 ^ 53 ->
  on_data_all onProgress (of_Z 0) (of_Z r, Infinity) lens
  = ([], (of_Z (r + sum_Z lens), Infinity)).
Proof.
  induction lens as [|len lens IH]; intros r Hr Hl Hs.
  - cbn. rewrite Z.add_0_r. reflexivity.
  - inversion Hl as [|? ? Hlen Hl']; subst. cbn [sum_Z fold_right] in Hs.
    fold (sum_Z lens) in Hs. pose proof (sum_Z_nonneg lens Hl') as Hsum.
    cbn [on_data_all on_data]. unfold add. rewrite add_of_Z by lia.
    unfold onProgress at 1. rewrite newPercentage_zero_total by lia.
    change (strict_neq Infinity Infinity) with false. cbv iota.
    rewrite IH by (assumption || lia). cbn [sum_Z fold_right]. fold (sum_Z lens).
    rewrite Z.add_assoc. reflexivity.
Qed.

(** X17.  With a total of [0], which is what a response without
    [content-length] gives, a body of less than [2^53] bytes whose first
    chunk is not empty is reported once, as [Infinity] percent with the
    increment [Infinity]. *)
Lemma progress_events_zero_total len lens :
  0 < len -> Forall (fun l => 0 <= l) lens -> len + sum_Z lens < 2 ^ 53 ->
  progress_events (of_Z 0) (len :: lens)
  = [{| message := Percent Infinity; increment := Infinity |}].
Proof.
  intros Hlen Hl Hs. pose proof (sum_Z_nonneg lens Hl) as Hsum.
  unfold progress_events. cbn [on_data_all on_data].
  unfold add. rewrite add_of_Z by lia. rewrite Z.add_0_l.
  unfold onProgress at 1. rewrite newPercentage_zero_total by lia.
  change (strict_neq Infinity (of_Z 0)) with true. cbv iota.
  rewrite on_data_all_zero_total by (assumption || lia). reflexivity.
Qed.

(** C4.  For a download of a positive [totalBytes] below [2^53] whose
    chunks add up to at most [2^44] bytes, the percentages reported are
    integers in strictly increasing order: they never decrease and none is
    reported twice. *)
Theorem progress_events_increasing (totalBytes : Z) (lengths : list Z) :
  0 < totalBytes < 2 ^ 53 ->
  Forall (fun l => 0 <= l) lengths ->
  sum_Z lengths <= 2 ^ 44 ->
  exists ps,
    map percentage (progress_events (of_Z totalBytes) lengths) = map of_Z ps
    /\ StronglySorted Z.lt ps
    /\ NoDup (map percentage (progress_events (of_Z totalBytes) lengths)).
Proof.
  intros Ht Hl Hs.
  destruct (progress_events_chain totalBytes lengths Ht Hl Hs) as (qs & Hc & E).
  destruct (chain_reported_sorted totalBytes 0 lengths qs 0 ltac:(lia) ltac:(lia) Hl
              ltac:(lia) (nearest_zero totalBytes Ht) Hc) as [S1 S2].
  exists (reported 0 qs). rewrite E, events_of_percentage.
  repeat split; try assumption.
  apply NoDup_map_of_Z; [assumption|].
  eapply Forall_impl; [|exact S2]. cbn. intros; lia.
Qed.

Lemma progress_events_increasing_witness :
  (0 < 3 < 2 ^ 53 /\ Forall (fun l => 0 <= l) [1; 1; 1] /\ sum_Z [1; 1; 1] <= 2 ^ 44)
  /\ exists ps,
       map percentage (progress_events (of_Z 3) [1; 1; 1]) = map of_Z ps
       /\ StronglySorted Z.lt ps
       /\ NoDup (map percentage (progress_events (of_Z 3) [1; 1; 1])).
Proof.
  assert (H : Forall (fun l => 0 <= l) [1; 1; 1]) by (repeat constructor; lia).
  split; [split; [lia|split; [exact H|cbn; lia]]|].
  apply (progress_events_increasing 3 [1; 1; 1]); [lia|exact H|cbn; lia].
Defined.

(** C5, as amended.  For a payload of 1,048,576 bytes delivered in chunks
    of at most 10,485 bytes (less than one percent each), exactly one
    report is made for each integer percentage from 1 through 100, each
    with an increment of 1; no report is made for 0, the value
    [lastPercentage] starts from. *)
Theorem one_event_per_percent (lengths : list Z) :
  Forall (fun l => 0 <= l /\ 100 * l < 1048576) lengths ->
  sum_Z lengths = 1048576 ->
  progress_events (of_Z 1048576) lengths = map unit_step (count_up 1 100).
Proof.
  intros Hl Hs.
  assert (Hl0 : Forall (fun l => 0 <= l) lengths).
  { eapply Forall_impl; [|exact Hl]. cbn. intros; lia. }
  assert (Ht : 0 < 1048576 < 2 ^ 53) by (cbn; lia).
  assert (H44 : 1048576 <= 2 ^ 44) by (cbn; lia).
  destruct (progress_events_chain 1048576 lengths Ht Hl0 ltac:(lia)) as (qs & Hc & E).
  pose proof (chain_last 1048576 0 lengths qs 0 (nearest_zero _ Ht) Hc) as Hlast.
  rewrite Hs in Hlast. cbn [Z.add] in Hlast.
  apply nearest_full in Hlast; [|lia].
  rewrite E.
  rewrite (chain_unit_steps 1048576 0 lengths qs 0 ltac:(lia) ltac:(lia) Hl ltac:(lia)
             (nearest_zero _ Ht) Hc).
  rewrite Hlast. reflexivity.
Qed.

Lemma one_event_per_percent_witness :
  (Forall (fun l => 0 <= l /\ 100 * l < 1048576) (repeat 4096 256)
   /\ sum_Z (repeat 4096 256) = 1048576)
  /\ progress_events (of_Z 1048576) (repeat 4096 256) = map unit_step (count_up 1 100).
Proof.
  assert (H : Forall (fun l => 0 <= l /\ 100 * l < 1048576) (repeat 4096 256)).
  { apply Forall_forall. intros x Hx. apply repeat_spec in Hx. subst x. lia. }
  split; [split; [exact H|reflexivity]|].
  apply (one_event_per_percent (repeat 4096 256)); [exact H|reflexivity].
Defined.

(** C5, as the specification states it, fails: with 256 chunks of 4,096
    bytes every integer percentage is crossed, yet 100 reports are made,
    not 101, and none of them is for 0. *)
Lemma no_event_for_zero_percent :
  List.length (progress_events (of_Z 1048576) (repeat 4096 256)) = 100%nat
  /\ ~ In (of_Z 0) (map percentage (progress_events (of_Z 1048576) (repeat 4096 256))).
Proof.
  assert (E : map percentage (progress_events (of_Z 1048576) (repeat 4096 256))
              = map of_Z (count_up 1 100)) by (vm_compute; reflexivity).
  split.
  - rewrite <- (length_map percentage), E, length_map. reflexivity.
  - rewrite E. vm_compute. intuition discriminate.
Qed.

(** C9.  Under the bounds of C4, the increments of the reports of a
    download, added up from 0 as a consumer of the reports does, give the
    percentage of the last report. *)
Theorem increments_sum_to_last_percentage (totalBytes : Z) (lengths : list Z) :
  0 < totalBytes < 2 ^ 53 ->
  Forall (fun l => 0 <= l) lengths ->
  sum_Z lengths <= 2 ^ 44 ->
  fold_left add (map increment (progress_events (of_Z totalBytes) lengths)) (of_Z 0)
  = last (map percentage (progress_events (of_Z totalBytes) lengths)) (of_Z 0).
Proof.
  intros Ht Hl Hs.
  destruct (progress_events_chain totalBytes lengths Ht Hl Hs) as (qs & Hc & E).
  pose proof (chain_bounds totalBytes 0 lengths qs ltac:(lia) ltac:(lia) Hl ltac:(lia) Hc)
    as Hb.
  destruct (events_of_total 0 qs ltac:(cbn; lia) Hb) as [E1 E2].
  rewrite E, E1, E2. reflexivity.
Qed.

Lemma increments_sum_to_last_percentage_witness :
  (0 < 3 < 2 ^ 53 /\ Forall (fun l => 0 <= l) [1; 1; 1] /\ sum_Z [1; 1; 1] <= 2 ^ 44)
  /\ fold_left add (map increment (progress_events (of_Z 3) [1; 1; 1])) (of_Z 0)
     = last (map percentage (progress_events (of_Z 3) [1; 1; 1])) (of_Z 0).
Proof.
  assert (H : Forall (fun l => 0 <= l) [1; 1; 1]) by (repeat constructor; lia).
  split; [split; [lia|split; [exact H|cbn; lia]]|].
  apply (increments_sum_to_last_percentage 3 [1; 1; 1]); [lia|exact H|cbn; lia].
Defined.

(** * The functions of [net.ts]: what they emit and when they throw *)

Section Emits.

Context {S : Type} {FS : FileSystem S}.
Variable P : Event -> Prop.

Lemma emits_only_ret {A} (a : A) : emits_only P (ret (S := S) a).
Proof. intros w. exists []. cbn. rewrite app_nil_r. auto. Qed.

Lemma emits_only_throw {A} e : emits_only P (throw (S := S) (A := A) e).
Proof. intros w. exists []. cbn. rewrite app_nil_r. auto. Qed.

Lemma emits_only_pending {A} : emits_only P (pending (S := S) (A := A)).
Proof. intros w. exists []. cbn. rewrite app_nil_r. auto. Qed.

Lemma emits_only_lift {A} (r : result A) : emits_only P (lift (S := S) r).
Proof. intros w. exists []. cbn. rewrite app_nil_r. auto. Qed.

Lemma emits_only_on_fs {A} (op : S -> result A * S) : emits_only P (on_fs op).
Proof.
  intros w. exists []. unfold on_fs. destruct (op (fs w)). cbn.
  rewrite app_nil_r. auto.
Qed.

Lemma emits_only_emit e : P e -> emits_only P (emit (S := S) e).
Proof. intros H w. exists [e]. cbn. auto. Qed.

Lemma emits_only_bind {A B} (m : M A) (k : A -> M B) :
  emits_only P m -> (forall a, emits_only P (k a)) -> emits_only (S := S) P (bind m k).
Proof.
  intros Hm Hk w. unfold bind. destruct (Hm w) as (t1 & E1 & F1).
  destruct (m w) as [[[a|e]|] w1]; cbn [snd] in *.
  - destruct (Hk a w1) as (t2 & E2 & F2). exists (t1 ++ t2).
    rewrite E2, E1, app_assoc. split; [reflexivity|]. apply Forall_app; auto.
  - exists t1. auto.
  - exists t1. auto.
Qed.

Lemma emits_only_try_catch {A} (m : M A) (h : JsError -> M A) :
  emits_only P m -> (forall e, emits_only P (h e)) ->
  emits_only (S := S) P (try_catch m h).
Proof.
  intros Hm Hh w. unfold try_catch. destruct (Hm w) as (t1 & E1 & F1).
  destruct (m w) as [[[a|e]|] w1]; cbn [snd] in *.
  - exists t1. auto.
  - destruct (Hh e w1) as (t2 & E2 & F2). exists (t1 ++ t2).
    rewrite E2, E1, app_assoc. split; [reflexivity|]. apply Forall_app; auto.
  - exists t1. auto.
Qed.

Lemma emits_only_for_each {A} (f : A -> M unit) (l : list A) :
  (forall x, emits_only P (f x)) -> emits_only (S := S) P (for_each f l).
Proof.
  intros Hf. induction l as [|x l IH]; cbn [for_each].
  - apply emits_only_ret.
  - apply emits_only_bind; auto.
Qed.

End Emits.

Lemma emits_only_weaken {S A} (P Q : Event -> Prop) (m : M (S := S) A) :
  (forall e, P e -> Q e) -> emits_only P m -> emits_only Q m.
Proof.
  intros H Hm w. destruct (Hm w) as (tl & E & F). exists tl. split; [assumption|].
  eapply Forall_impl; eauto.
Qed.

Create HintDb emits.
#[export] Hint Resolve emits_only_ret emits_only_throw emits_only_pending emits_only_lift
  emits_only_on_fs emits_only_for_each : emits.

(** One step of a proof that a computation emits only events of a kind:
    the combinators are taken apart, the branches are split, and an
    emitted event is checked against the kind. *)
Ltac emits_step :=
  match goal with
  | |- emits_only _ (bind _ _) => apply emits_only_bind; [|intros]
  | |- emits_only _ (try_catch _ _) => apply emits_only_try_catch; [|intros]
  | |- emits_only _ (for_each _ _) => apply emits_only_for_each; intros
  | |- emits_only _ (emit _) => apply emits_only_emit; cbn; auto
  | |- emits_only _ (if ?b then _ else _) => destruct b
  | |- emits_only _ (match ?x with _ => _ end) => destruct x
  | |- emits_only _ _ => solve [auto with emits]
  end.

Section Throws.

Context {S : Type} {FS : FileSystem S}.

Lemma never_throws_ret {A} (a : A) : never_throws (ret (S := S) a).
Proof. intros w. exists a, w. reflexivity. Qed.

Lemma never_throws_emit e : never_throws (emit (S := S) e).
Proof. intros w. eexists _, _. reflexivity. Qed.

Lemma never_throws_bind {A B} (m : M A) (k : A -> M B) :
  never_throws m -> (forall a, never_throws (k a)) -> never_throws (S := S) (bind m k).
Proof.
  intros Hm Hk w. unfold bind. destruct (Hm w) as (a & w1 & ->). apply Hk.
Qed.

Lemma never_throws_settles {A} (m : M A) : never_throws m -> settles (S := S) m.
Proof. intros H w. destruct (H w) as (a & w' & ->). eexists _, _. reflexivity. Qed.

Lemma settles_emit e : settles (emit (S := S) e).
Proof. apply never_throws_settles, never_throws_emit. Qed.

Lemma settles_on_fs {A} (op : S -> result A * S) : settles (on_fs op).
Proof. intros w. unfold on_fs. destruct (op (fs w)) as [r s]. eexists _, _. reflexivity. Qed.

Lemma settles_bind {A B} (m : M A) (k : A -> M B) :
  settles m -> (forall a, settles (k a)) -> settles (S := S) (bind m k).
Proof.
  intros Hm Hk w. unfold bind. destruct (Hm w) as ([a|e] & w1 & ->).
  - apply Hk.
  - eexists _, _. reflexivity.
Qed.

(** A [try] whose body always settles and whose handler never throws
    never throws. *)
Lemma never_throws_try_catch {A} (m : M A) (h : JsError -> M A) :
  settles m -> (forall e, never_throws (h e)) -> never_throws (S := S) (try_catch m h).
Proof.
  intros Hm Hh w. unfold try_catch. destruct (Hm w) as ([a|e] & w1 & ->).
  - exists a, w1. reflexivity.
  - apply Hh.
Qed.

Lemma never_throws_for_each {A} (f : A -> M unit) (l : list A) :
  (forall x, never_throws (f x)) -> never_throws (S := S) (for_each f l).
Proof.
  intros Hf. induction l as [|x l IH]; cbn [for_each].
  - apply never_throws_ret.
  - apply never_throws_bind; auto.
Qed.


Lemma settles_rename source target : settles (rename source target).
Proof.
  unfold rename. apply settles_bind; [apply settles_emit|intros _; apply settles_on_fs].
Qed.

Lemma displace_old_never_throws opts old : never_throws (displace_old opts old).
Proof.
  unfold displace_old. apply never_throws_try_catch.
  - apply settles_bind; [apply settles_rename|intros _; apply settles_emit].
  - intros e. destruct (_ || _); [apply never_throws_emit|apply never_throws_ret].
Qed.

Lemma install_new_never_throws opts temp : never_throws (install_new opts temp).
Proof.
  unfold install_new. apply never_throws_try_catch; [apply settles_rename|].
  intros e. apply never_throws_emit.
Qed.

Lemma remove_entry_never_throws d pat (entry_type : string * FileType) :
  never_throws
    (try_catch
       (if includes (fst entry_type) pat then
          try_catch
            (bind (delete (joinPath d (fst entry_type)))
               (fun _ => log_info [LText ("Removed old server binary "
                                      ++ fsPath (joinPath d (fst entry_type)))]))
            (fun _ => log_error [LText ("Unable to remove old server binary "
                                    ++ fsPath (joinPath d (fst entry_type)))])
        else ret tt)
       (fun _ => log_error [LText ("Unable to parse " ++ fst entry_type)])).
Proof.
  apply never_throws_try_catch; [|intros e; apply never_throws_emit].
  apply never_throws_settles. destruct (includes _ _); [|apply never_throws_ret].
  apply never_throws_try_catch; [|intros e; apply never_throws_emit].
  apply settles_bind; [|intros _; apply settles_emit].
  unfold delete. apply settles_bind; [apply settles_emit|intros _; apply settles_on_fs].
Qed.

Lemma remove_stale_never_throws rawDest : never_throws (remove_stale rawDest).
Proof.
  unfold remove_stale. apply never_throws_try_catch; [|intros e; apply never_throws_emit].
  apply settles_bind.
  - unfold readDirectory.
    apply settles_bind; [apply settles_emit|intros _; apply settles_on_fs].
  - intros entries. apply never_throws_settles, never_throws_for_each.
    intros entry_type. apply remove_entry_never_throws.
Qed.

End Throws.

Section NetFacts.

Context {S : Type} {FS : FileSystem S}.
Variable fetch : Request -> result Response.
Variable json : string -> result GithubRelease.
Variable createGunzip : Transform.
Variable node_version : N * N.

Lemma write_emits destFilePath data :
  emits_only (stream_event destFilePath) (write destFilePath data).
Proof. unfold write. destruct data; repeat emits_step. Qed.

Lemma pump_emits {C} (cb : C -> number -> number -> option ProgressEvent * C)
    totalBytes destFilePath T chunks : forall ts st,
  emits_only (stream_event destFilePath)
    (pump cb totalBytes destFilePath T ts st chunks).
Proof.
  induction chunks as [|chunk rest IH]; intros ts st; cbn [pump].
  - apply emits_only_ret.
  - destruct (on_data cb totalBytes st _) as [ev st'].
    apply emits_only_bind; [unfold report; repeat emits_step|intros _].
    apply emits_only_bind; [repeat emits_step|intros r].
    apply emits_only_bind; [apply write_emits|intros _]. apply IH.
Qed.

Lemma downloadFile_trace {C} urlString destFilePath mode gunzip httpProxy
    (cb : C -> number -> number -> option ProgressEvent * C) c w :
  exists pre tl,
    trace (snd (downloadFile fetch createGunzip node_version urlString destFilePath
                  mode gunzip httpProxy cb c w))
    = trace w ++ pre ++ EFetch (download_request urlString httpProxy) :: tl
    /\ Forall (fun e => exists args, e = ELog Debug args) pre
    /\ Forall (stream_event destFilePath) tl.
Proof.
  unfold downloadFile.
  match goal with |- context [snd (bind ?m ?k w)] => set (request := m); set (rest := k) end.
  assert (Hrest : forall res, emits_only (stream_event destFilePath) (rest res)).
  { intros res. unfold rest, assert, log_debug, log_error, createWriteStream, end_stream.
    destruct node_version as [major minor].
    repeat first [apply pump_emits | apply write_emits | emits_step]. }
  assert (Hreq : exists pre,
             Forall (fun e => exists args, e = ELog Debug args) pre
             /\ snd (request w)
                = {| fs := fs w;
                     trace := trace w ++ pre
                              ++ [EFetch (download_request urlString httpProxy)] |}).
  { unfold request, download_request, do_fetch, log_debug, bind, emit, lift.
    destruct (truthy httpProxy); cbn.
    - eexists [ELog Debug _]. split; [constructor; [eexists; reflexivity|constructor]|].
      rewrite <- app_assoc. reflexivity.
    - exists []. split; [constructor|]. reflexivity. }
  destruct Hreq as (pre & Hpre & Ew).
  unfold bind. destruct (request w) as [[[res|e]|] w1]; cbn [snd] in Ew; subst w1.
  - destruct (Hrest res {| fs := fs w;
                           trace := trace w ++ pre
                                    ++ [EFetch (download_request urlString httpProxy)] |})
      as (tl & E & F).
    exists pre, tl. cbn [trace] in E. rewrite E.
    split; [|auto]. rewrite <- !app_assoc. reflexivity.
  - exists pre, []. cbn. auto.
  - exists pre, []. cbn. auto.
Qed.

Lemma downloadFile_emits {C} urlString destFilePath mode gunzip httpProxy
    (cb : C -> number -> number -> option ProgressEvent * C) c opts randomHex :
  destFilePath = tempFilePath (dest opts) randomHex ->
  emits_only (install_event opts randomHex)
    (downloadFile fetch createGunzip node_version urlString destFilePath
       mode gunzip httpProxy cb c).
Proof.
  intros -> w.
  destruct (downloadFile_trace urlString (tempFilePath (dest opts) randomHex) mode gunzip
              httpProxy cb c w) as (pre & tl & E & Fp & Ft).
  exists (pre ++ EFetch (download_request urlString httpProxy) :: tl).
  split; [assumption|].
  apply Forall_app. split.
  - eapply Forall_impl; [|exact Fp]. intros e (args & ->). exact I.
  - constructor; [exact I|].
    eapply Forall_impl; [|exact Ft]. intros [] H; cbn in *; auto; contradiction.
Qed.

Lemma bind_of_ok {A B} (m : M A) (k : A -> M B) (w w1 : World (S := S)) a :
  m w = (Ok a, w1) -> bind m k w = k a w1.
Proof. unfold bind. intros ->. reflexivity. Qed.

Lemma bind_assoc {A B D} (m : M A) (k : A -> M B) (h : B -> M D) (w : World (S := S)) :
  bind (bind m k) h w = bind m (fun a => bind (k a) h) w.
Proof. unfold bind. destruct (m w) as [[[a|e]|] w1]; reflexivity. Qed.

Lemma In_trace_extends {A} P (m : M A) (w : World (S := S)) e :
  emits_only P m -> In e (trace w) -> In e (trace (snd (m w))).
Proof.
  intros Hm Hin. destruct (Hm w) as (tl & E & _). rewrite E.
  apply in_or_app. left. assumption.
Qed.

(** The slip behind C1, for every file system and every response: when
    the response is a success without a [content-length] header, the
    check of the total passes and the write stream on the destination is
    created. *)
Lemma missing_content_length_reaches_the_stream {C} urlString destFilePath mode gunzip
    httpProxy (cb : C -> number -> number -> option ProgressEvent * C) c w res :
  fetch (download_request urlString httpProxy) = Ok res ->
  ok res = true ->
  headers_get (headers res) "content-length" = None ->
  In (ECreateWriteStream destFilePath mode)
     (trace (snd (downloadFile fetch createGunzip node_version urlString destFilePath
                    mode gunzip httpProxy cb c w))).
Proof.
  intros Hres Hok Hcl. unfold downloadFile.
  match goal with |- context [snd (bind ?m ?k w)] => set (request := m); set (rest := k) end.
  assert (Hreq : exists w1, request w = (Ok res, w1)).
  { unfold request, download_request in *. unfold do_fetch, log_debug, bind, emit, lift.
    destruct (truthy httpProxy); cbn; rewrite Hres; eauto. }
  destruct Hreq as (w1 & Hreq). rewrite (bind_of_ok _ _ _ _ _ Hreq).
  unfold rest. rewrite Hok, Hcl. cbn [negb Number isNaN assert].
  unfold ret at 1. unfold bind at 1. unfold log_debug, emit at 1. unfold bind at 1.
  unfold createWriteStream. rewrite bind_assoc. unfold emit at 1. unfold bind at 1.
  eapply In_trace_extends with (P := stream_event destFilePath).
  - destruct node_version as [major minor]. unfold end_stream.
    repeat first [apply pump_emits | apply write_emits | emits_step].
  - cbn [trace]. apply in_or_app. right. left. reflexivity.
Qed.

Lemma remove_stale_emits opts randomHex :
  emits_only (install_event opts randomHex) (remove_stale (dest opts)).
Proof.
  unfold remove_stale, readDirectory, delete, log_info, log_error.
  repeat emits_step.
Qed.

Lemma download_emits opts randomBytes :
  emits_only (install_event opts (hex randomBytes))
    (download fetch createGunzip node_version opts randomBytes).
Proof.
  unfold download.
  apply emits_only_bind; [repeat emits_step|intros _].
  apply emits_only_bind; [apply downloadFile_emits; reflexivity|intros _].
  apply emits_only_bind; [|intros _].
  { unfold displace_old, rename, log_info, log_error. repeat emits_step. }
  apply emits_only_bind; [|intros _].
  { unfold install_new, rename, log_error. repeat emits_step. }
  apply remove_stale_emits.
Qed.

End NetFacts.

(** * Strings *)

Lemma prefix_app pre s : String.prefix pre (pre ++ s) = true.
Proof.
  induction pre as [|c pre IH]; cbn; [destruct s; reflexivity|].
  destruct (ascii_dec c c); [assumption|contradiction].
Qed.

Lemma prefix_inv pre s : String.prefix pre s = true -> exists post, s = (pre ++ post)%string.
Proof.
  revert s. induction pre as [|c pre IH]; intros s H.
  - exists s. reflexivity.
  - destruct s as [|d s]; cbn in H; [discriminate|].
    destruct (ascii_dec c d) as [->|]; [|discriminate].
    destruct (IH s H) as (post & ->). exists post. reflexivity.
Qed.

Lemma includes_spec s pat :
  includes s pat = true <-> exists pre post, s = (pre ++ pat ++ post)%string.
Proof.
  split.
  - induction s as [|c s IH]; cbn [includes].
    + destruct (String.prefix pat EmptyString) eqn:E; [|discriminate].
      intros _. apply prefix_inv in E. destruct E as (post & E).
      exists EmptyString, post. exact E.
    + destruct (String.prefix pat (String c s)) eqn:E.
      * intros _. apply prefix_inv in E. destruct E as (post & E).
        exists EmptyString, post. exact E.
      * intros H. destruct (IH H) as (pre & post & ->).
        exists (String c pre), post. reflexivity.
  - intros (pre & post & ->). induction pre as [|c pre IH].
    + cbn [append]. destruct (pat ++ post)%string eqn:E; cbn [includes];
        rewrite <- E, prefix_app; reflexivity.
    + cbn [append includes]. rewrite IH. destruct (String.prefix _ _); reflexivity.
Qed.

Lemma string_app_assoc (a b c : string) : ((a ++ b) ++ c = a ++ (b ++ c))%string.
Proof. induction a as [|x a IH]; cbn; [reflexivity|]. rewrite IH. reflexivity. Qed.

Lemma strip_prefix_app pre s : strip_prefix pre (pre ++ s) = Some s.
Proof.
  induction pre as [|c pre IH]; cbn; [reflexivity|]. rewrite Ascii.eqb_refl. assumption.
Qed.

Lemma strip_prefix_inv pre s rest :
  strip_prefix pre s = Some rest -> s = (pre ++ rest)%string.
Proof.
  revert s. induction pre as [|c pre IH]; intros s H; cbn in H.
  - cbn. congruence.
  - destruct s as [|d s]; [discriminate|].
    destruct (Ascii.eqb_spec c d) as [->|]; [|discriminate].
    cbn. f_equal. apply IH. assumption.
Qed.

Lemma strip_hex_app h s :
  forallb is_hex_digit (list_ascii_of_string h) = true ->
  strip_hex (String.length h) (h ++ s) = Some s.
Proof.
  induction h as [|c h IH]; cbn; [reflexivity|].
  intros H. apply andb_true_iff in H. destruct H as [Hc Hh].
  rewrite Hc. apply IH. assumption.
Qed.

Lemma pattern_included base ext entry :
  matches_displaced_pattern base ext entry = true ->
  includes entry (base ++ "-stale-") = true.
Proof.
  unfold matches_displaced_pattern.
  destruct (strip_prefix _ entry) as [rest|] eqn:E; [|discriminate].
  intros _. apply strip_prefix_inv in E. apply includes_spec.
  exists EmptyString, rest. exact E.
Qed.

Lemma hex_length bs : String.length (hex bs) = (2 * List.length bs)%nat.
Proof. induction bs as [|b bs IH]; cbn [hex String.length List.length]; lia. Qed.

Lemma hex_digits bs : forallb is_hex_digit (list_ascii_of_string (hex bs)) = true.
Proof.
  induction bs as [|b bs IH]; [reflexivity|].
  cbn [hex list_ascii_of_string forallb]. rewrite IH.
  destruct b; reflexivity.
Qed.

Lemma show_N_inj n m : show_N n = show_N m -> n = m.
Proof.
  unfold show_N. intros H.
  assert (Hnil : forall k, N.to_uint k <> Decimal.Nil).
  { intros [|p]; cbn; [discriminate|].
    intros E. pose proof (DecimalPos.Unsigned.to_uint_nonnil p). contradiction. }
  apply (f_equal NilZero.uint_of_string) in H.
  rewrite !NilZero.usu in H by apply Hnil.
  injection H as H. apply DecimalN.Unsigned.to_uint_inj. assumption.
Qed.

(** * The properties of [fetchRelease], [downloadFile] and [download] *)

Lemma deletes_app a b : deletes (a ++ b) = deletes a ++ deletes b.
Proof. apply flat_map_app. Qed.

Section Claims.

Context {S : Type} {FS : FileSystem S}.
Variable fetch : Request -> result Response.
Variable json : string -> result GithubRelease.
Variable createGunzip : Transform.
Variable node_version : N * N.

Lemma remove_entries_deletes d pat entries : forall w,
  exists w',
    for_each
      (fun entry_type : string * FileType =>
         try_catch
           (if includes (fst entry_type) pat then
              try_catch
                (bind (delete (joinPath d (fst entry_type)))
                   (fun _ => log_info [LText ("Removed old server binary "
                                          ++ fsPath (joinPath d (fst entry_type)))]))
                (fun _ => log_error [LText ("Unable to remove old server binary "
                                        ++ fsPath (joinPath d (fst entry_type)))])
            else ret tt)
           (fun _ => log_error [LText ("Unable to parse " ++ fst entry_type)]))
      entries w = (Ok tt, w')
    /\ deletes (trace w')
       = deletes (trace w)
         ++ map (joinPath d) (filter (fun entry => includes entry pat) (map fst entries)).
Proof.
  induction entries as [|[entry ty] entries IH]; intros w.
  - exists w. cbn. rewrite app_nil_r. auto.
  - cbn [for_each map filter fst].
    unfold bind at 1. unfold try_catch at 1.
    destruct (includes entry pat).
    + unfold try_catch at 1, bind at 1, delete, bind at 1, emit, on_fs, log_info, log_error.
      cbn [fs trace].
      destruct (fs_delete (joinPath d entry) (fs w)) as [[[]|e] s1]; cbn [emit].
      * match goal with |- context [for_each _ entries ?w1] => destruct (IH w1) as (w' & E & D) end.
        exists w'. split; [exact E|]. rewrite D. cbn [trace].
        rewrite !deletes_app. cbn. rewrite app_nil_r, <- app_assoc. reflexivity.
      * match goal with |- context [for_each _ entries ?w1] => destruct (IH w1) as (w' & E & D) end.
        exists w'. split; [exact E|]. rewrite D. cbn [trace].
        rewrite !deletes_app. cbn. rewrite app_nil_r, <- app_assoc. reflexivity.
    + unfold ret. destruct (IH w) as (w' & E & D). exists w'. auto.
Qed.

(** C8, as amended.  The cleanup never throws.  It lists the directory of
    the destination once; an entry is handed to [delete] exactly when
    its name contains [<base>-stale-] as a substring, in the order of
    the listing and whatever the earlier deletions returned; every name
    of the displaced-artifact pattern is among them.  When the listing
    fails nothing is deleted. *)
Theorem remove_stale_selects_by_substring (rawDest : ParsedPath) (w : World) :
  exists w',
    remove_stale rawDest w = (Ok tt, w')
    /\ deletes (trace w')
       = deletes (trace w)
         ++ match fst (fs_readDirectory (dir rawDest) (fs w)) with
            | Ok entries =>
                map (joinPath (dir rawDest))
                  (filter (fun entry => includes entry (pname rawDest ++ "-stale-"))
                     (map fst entries))
            | Err _ => []
            end
    /\ forall entry,
         implb (matches_displaced_pattern (pname rawDest) (ext rawDest) entry)
               (includes entry (pname rawDest ++ "-stale-")) = true.
Proof.
  assert (Hpat : forall entry,
             implb (matches_displaced_pattern (pname rawDest) (ext rawDest) entry)
                   (includes entry (pname rawDest ++ "-stale-")) = true).
  { intros entry.
    destruct (matches_displaced_pattern _ _ entry) eqn:E; [|reflexivity].
    apply pattern_included in E. rewrite E. reflexivity. }
  unfold remove_stale, try_catch at 1, bind at 1, readDirectory, bind at 1, emit, on_fs.
  cbn [fs trace].
  destruct (fs_readDirectory (dir rawDest) (fs w)) as [[entries|e] s1]; cbn [fst].
  - match goal with |- context [for_each ?f entries ?w1] =>
      destruct (remove_entries_deletes (dir rawDest) (pname rawDest ++ "-stale-")
                  entries w1) as (w' & E & D)
    end.
    exists w'. rewrite E. split; [reflexivity|]. split; [|exact Hpat].
    rewrite D. cbn [trace]. rewrite deletes_app. cbn. rewrite app_nil_r. reflexivity.
  - eexists. split; [reflexivity|]. split; [|exact Hpat].
    unfold log_error, emit. cbn [trace]. rewrite !deletes_app. cbn.
    rewrite !app_nil_r. reflexivity.
Qed.


(** C6.  When the request is answered by a response with a status outside
    200..299, both functions read the whole body for the log before they
    throw.  When the body can be read, [fetchRelease] throws an [Error]
    whose message holds the status in decimal and the release tag, and
    [downloadFile] throws an [Error] whose message holds the status in
    decimal; when it cannot, the error of the reading is thrown in its
    place.  Each function is answered on its own. *)
Theorem http_status_error_carries_status
    (releaseTag : string) (githubToken httpProxy : option string)
    (urlString : string) (destFilePath : Uri) (mode : option N) (gunzip : bool)
    (C : Type) (cb : C -> number -> number -> option ProgressEvent * C) (c : C)
    (w : World) :
  (forall res,
     fetch (release_request releaseTag githubToken
              (if truthy httpProxy then httpProxy else None)) = Ok res ->
     ok res = false ->
     fst (fetchRelease fetch json releaseTag githubToken httpProxy w)
     = match text res with
       | Ok _ => Err (new_Error ("Got response " ++ show_N (status res)
                                 ++ " when trying to fetch release info for "
                                 ++ releaseTag ++ " release"))
       | Err e => Err e
       end)
  /\ (forall res,
        fetch (download_request urlString httpProxy) = Ok res ->
        ok res = false ->
        fst (downloadFile fetch createGunzip node_version urlString destFilePath mode gunzip
               httpProxy cb c w)
        = match text res with
          | Ok _ => Err (new_Error ("Got response " ++ show_N (status res)
                                    ++ " when trying to download a file."))
          | Err e => Err e
          end).
Proof.
  unfold release_request, download_request. split; intros res Hres Hok.
  - unfold fetchRelease, bind, log_debug, log_error, do_fetch, bind, emit, lift, throw.
    destruct (truthy httpProxy); cbn; cbn in Hres; rewrite Hres, Hok; cbn;
      destruct (text res); reflexivity.
  - unfold downloadFile, bind, log_debug, log_error, do_fetch, bind, emit, lift, throw.
    destruct (truthy httpProxy); cbn; rewrite Hres, Hok; cbn;
      destruct (text res); reflexivity.
Qed.

(** C10.  With the empty string for proxy endpoint, [fetchRelease] and
    [downloadFile] do what they do without a proxy endpoint: the one
    request they issue carries no agent. *)
Theorem empty_proxy_is_direct (releaseTag : string) (githubToken : option string)
    (urlString : string) (destFilePath : Uri) (mode : option N) (gunzip : bool)
    (C : Type) (cb : C -> number -> number -> option ProgressEvent * C) (c : C)
    (w : World) :
  fetchRelease fetch json releaseTag githubToken (Some ""%string) w
  = fetchRelease fetch json releaseTag githubToken None w
  /\ downloadFile fetch createGunzip node_version urlString destFilePath mode gunzip
       (Some ""%string) cb c w
     = downloadFile fetch createGunzip node_version urlString destFilePath mode gunzip
         None cb c w
  /\ fetches (trace (snd (fetchRelease fetch json releaseTag githubToken (Some ""%string) w)))
     = fetches (trace w) ++ [release_request releaseTag githubToken None]
  /\ fetches (trace (snd (downloadFile fetch createGunzip node_version urlString
                            destFilePath mode gunzip (Some ""%string) cb c w)))
     = fetches (trace w)
       ++ [{| req_url := urlString; req_headers := None; agent := None |}].
Proof.
  split; [reflexivity|]. split; [reflexivity|]. split.
  - unfold fetchRelease, bind, log_debug, log_error, do_fetch, bind, emit, lift, throw.
    cbn [truthy String.eqb negb fs trace].
    destruct (fetch _) as [res|e]; cbn [fs trace snd].
    + destruct (negb (ok res)); destruct (text res); cbn [snd trace];
        try destruct (json _); cbn [snd trace];
        unfold fetches; rewrite ?flat_map_app; cbn; rewrite ?app_nil_r; reflexivity.
    + unfold fetches; rewrite ?flat_map_app; cbn; rewrite ?app_nil_r; reflexivity.
  - destruct (downloadFile_trace fetch createGunzip node_version urlString destFilePath
                mode gunzip (Some ""%string) cb c w) as (pre & tl & E & Fp & Ft).
    rewrite E. unfold fetches. rewrite !flat_map_app. cbn [flat_map].
    assert (Hpre : flat_map (fun e => match e with EFetch r => [r] | _ => [] end) pre = []).
    { clear -Fp. induction Fp as [|e l (args & ->) _ IH]; [reflexivity|]. exact IH. }
    assert (Htl : flat_map (fun e => match e with EFetch r => [r] | _ => [] end) tl = []).
    { clear -Ft. induction Ft as [|e l He _ IH]; [reflexivity|].
      destruct e; cbn in He |- *; try contradiction; exact IH. }
    rewrite Hpre, Htl. reflexivity.
Qed.

End Claims.


(** * The reports of a transfer are those of the listener *)

Lemma reports_app a b : reports (a ++ b) = reports a ++ reports b.
Proof. apply flat_map_app. Qed.

Section Reports.

Context {S : Type} {FS : FileSystem S}.
Variable fetch : Request -> result Response.
Variable createGunzip : Transform.
Variable node_version : N * N.

Lemma bind_ok {A B} (m : M A) (k : A -> M B) (w w' : World (S := S)) b :
  bind m k w = (Ok b, w') -> exists a w1, m w = (Ok a, w1) /\ k a w1 = (Ok b, w').
Proof.
  unfold bind. destruct (m w) as [[[a|e]|] w1]; [eauto|discriminate..].
Qed.

Lemma emit_reports e (w w' : World (S := S)) r :
  emit e w = (r, w') -> reports (trace w') = reports (trace w) ++ reports [e].
Proof. unfold emit. intros [= _ <-]. cbn [trace]. apply reports_app. Qed.

Lemma on_fs_trace {A} (op : S -> result A * S) (w w' : World) r :
  on_fs op w = (r, w') -> trace w' = trace w.
Proof. unfold on_fs. destruct (op (fs w)). intros [= _ <-]. reflexivity. Qed.

Lemma write_reports u data (w w' : World) r :
  write u data w = (r, w') -> reports (trace w') = reports (trace w).
Proof.
  unfold write. destruct data as [|b data].
  - intros [= _ <-]. reflexivity.
  - unfold bind, emit. cbn. intros H. apply on_fs_trace in H. rewrite H. cbn [trace].
    rewrite reports_app. cbn. apply app_nil_r.
Qed.

Lemma pump_reports {C} (cb : C -> number -> number -> option ProgressEvent * C)
    totalBytes destFilePath T chunks : forall ts st w ts' st' w',
  pump cb totalBytes destFilePath T ts st chunks w = (Ok (ts', st'), w') ->
  reports (trace w')
  = reports (trace w)
    ++ fst (on_data_all cb totalBytes st (map (fun b => Z.of_nat (List.length b)) chunks))
  /\ st' = snd (on_data_all cb totalBytes st (map (fun b => Z.of_nat (List.length b)) chunks)).
Proof.
  induction chunks as [|chunk rest IH]; intros ts st w ts' st' w' H; cbn [pump map on_data_all] in *.
  - unfold ret in H. injection H as <- <- <-. cbn. rewrite app_nil_r. auto.
  - destruct (on_data cb totalBytes st (Z.of_nat (List.length chunk))) as [ev st1].
    apply bind_ok in H. destruct H as ([] & w1 & H1 & H).
    apply bind_ok in H. destruct H as (r & w2 & H2 & H).
    apply bind_ok in H. destruct H as ([] & w3 & H3 & H).
    apply IH in H. destruct H as (E & ->).
    unfold lift in H2. injection H2 as _ <-.
    apply write_reports in H3.
    destruct (on_data_all cb totalBytes st1 _) as [evs st2]. cbn [fst snd] in *.
    split; [|reflexivity]. rewrite E, H3.
    destruct ev as [e|]; cbn [report] in H1.
    + apply emit_reports in H1. rewrite H1. cbn. rewrite <- app_assoc. reflexivity.
    + unfold ret in H1. injection H1 as <-. reflexivity.
Qed.

(** When [downloadFile] returns, the reports in the trace are the ones
    the listener makes over the chunks of the body, for the total the
    [content-length] header gives. *)
Lemma downloadFile_reports urlString destFilePath mode gunzip httpProxy
    (w w' : World) c res :
  fetch (download_request urlString httpProxy) = Ok res ->
  downloadFile fetch createGunzip node_version urlString destFilePath mode gunzip
    httpProxy onProgress (of_Z 0) w = (Ok c, w') ->
  reports (trace w')
  = reports (trace w)
    ++ progress_events (Number (headers_get (headers res) "content-length"))
         (map (fun b => Z.of_nat (List.length b)) (body res)).
Proof.
  intros Hres H. unfold downloadFile in H.
  apply bind_ok in H. destruct H as (res' & w1 & H1 & H).
  assert (Hw1 : res' = res /\ reports (trace w1) = reports (trace w)).
  { unfold download_request in Hres.
    destruct (truthy httpProxy); unfold do_fetch, log_debug, bind, emit, lift in H1;
      cbn in H1; rewrite Hres in H1; injection H1 as <- <-; cbn [trace];
      rewrite ?reports_app; cbn; rewrite ?app_nil_r; auto. }
  destruct Hw1 as (-> & E1).
  destruct (negb (ok res)).
  { apply bind_ok in H. destruct H as (? & ? & _ & H).
    apply bind_ok in H. destruct H as (? & ? & _ & H).
    apply bind_ok in H. destruct H as (? & ? & _ & H). discriminate. }
  apply bind_ok in H. destruct H as ([] & w2 & H2 & H).
  assert (E2 : w2 = w1).
  { unfold assert in H2. destruct (negb _); [|discriminate]. injection H2 as <-. reflexivity. }
  subst w2.
  apply bind_ok in H. destruct H as ([] & w3 & H3 & H).
  apply emit_reports in H3. cbn in H3. rewrite app_nil_r in H3.
  apply bind_ok in H. destruct H as ([] & w4 & H4 & H).
  assert (E4 : reports (trace w4) = reports (trace w3)).
  { unfold createWriteStream in H4. apply bind_ok in H4. destruct H4 as ([] & w5 & H5 & H4).
    apply on_fs_trace in H4. apply emit_reports in H5. cbn in H5. rewrite app_nil_r in H5.
    rewrite H4. assumption. }
  apply bind_ok in H. destruct H as ([ts' st'] & w5 & H5 & H).
  apply pump_reports in H5. destruct H5 as (E5 & _).
  apply bind_ok in H. destruct H as ([] & w6 & H6 & H).
  assert (E6 : w6 = w5).
  { destruct (body_error res); [destruct gunzip; discriminate|].
    injection H6 as <-. reflexivity. }
  subst w6.
  apply bind_ok in H. destruct H as (lastb & w7 & H7 & H).
  unfold lift in H7. injection H7 as _ <-.
  apply bind_ok in H. destruct H as ([] & w8 & H8 & H).
  apply write_reports in H8.
  apply bind_ok in H. destruct H as ([] & w9 & H9 & H).
  assert (E9 : reports (trace w9) = reports (trace w8)).
  { unfold end_stream in H9. apply bind_ok in H9. destruct H9 as ([] & w10 & H10 & H9).
    apply on_fs_trace in H9. apply emit_reports in H10. cbn in H10.
    rewrite app_nil_r in H10. rewrite H9. assumption. }
  assert (E10 : reports (trace w') = reports (trace w9)).
  { destruct node_version as [major minor].
    destruct (_ || _)%bool.
    - injection H as _ <-. reflexivity.
    - apply bind_ok in H. destruct H as ([] & w10 & H10 & H).
      injection H as _ <-. apply emit_reports in H10. cbn in H10.
      rewrite app_nil_r in H10. assumption. }
  rewrite E10, E9, H8, E5, E4, H3, E1. reflexivity.
Qed.

End Reports.
(** * The request and the result of [fetchRelease] *)

Lemma fetches_app a b : fetches (a ++ b) = fetches a ++ fetches b.
Proof. apply flat_map_app. Qed.

Lemma errors_logged_app a b : errors_logged (a ++ b) = errors_logged a ++ errors_logged b.
Proof. apply flat_map_app. Qed.

Section FetchRelease.

Context {S : Type} {FS : FileSystem S}.
Variable fetch : Request -> result Response.
Variable json : string -> result GithubRelease.
Variable createGunzip : Transform.
Variable node_version : N * N.

(** What [fetchRelease] does up to the response: the world after its
    request. *)
Lemma fetchRelease_run releaseTag githubToken httpProxy (w : World (S := S)) :
  exists pre,
    Forall (fun e => exists args, e = ELog Debug args) pre
    /\ fetchRelease fetch json releaseTag githubToken httpProxy w
       = let req := release_request releaseTag githubToken
                      (if truthy httpProxy then httpProxy else None) in
         let w1 := {| fs := fs w; trace := trace w ++ pre ++ [EFetch req] |} in
         match fetch req with
         | Err e => (Err e, w1)
         | Ok res =>
             match text res with
             | Err e => (Err e, w1)
             | Ok body =>
                 if ok res then (json body, w1)
                 else
                   (Err (new_Error ("Got response " ++ show_N (status res)
                                    ++ " when trying to fetch "
                                    ++ "release info for " ++ releaseTag ++ " release")),
                    {| fs := fs w;
                       trace := trace w1
                                ++ [ELog Error
                                      [LText "Error fetching artifact release info";
                                       LText (release_request releaseTag githubToken None).(req_url);
                                       LText releaseTag; LHeaders (headers res);
                                       LStatus (status res); LText body]] |})
             end
         end.
Proof.
  unfold fetchRelease, release_request, do_fetch, log_debug, log_error, bind, emit, lift, throw.
  destruct (truthy httpProxy); cbn [fs trace req_url].
  - eexists [ELog Debug _; ELog Debug _]. split.
    { repeat constructor; eexists; reflexivity. }
    cbn zeta. rewrite <- !app_assoc. cbn [app].
    destruct (fetch _) as [res|e]; [|reflexivity].
    destruct (ok res); cbn [negb]; destruct (text res); reflexivity.
  - eexists [ELog Debug _]. split.
    { repeat constructor; eexists; reflexivity. }
    cbn zeta. rewrite <- !app_assoc. cbn [app].
    destruct (fetch _) as [res|e]; [|reflexivity].
    destruct (ok res); cbn [negb]; destruct (text res); reflexivity.
Qed.

Lemma fetches_debug pre :
  Forall (fun e => exists args, e = ELog Debug args) pre -> fetches pre = [].
Proof.
  induction 1 as [|e pre (args & ->) _ IH]; [reflexivity|]. cbn. exact IH.
Qed.


(** X1.  Whatever the network answers, [fetchRelease] calls [fetch] once:
    for the release of the tag in the rust-analyzer repository of the
    GitHub API, with the [Accept] header of the v3 API, with an
    [Authorization: token ...] header exactly when a token is given (an
    empty token included), and through the proxy exactly when the proxy
    is a non-empty string. *)
Theorem fetchRelease_issues_one_request (releaseTag : string)
    (githubToken httpProxy : option string) (w : World (S := S)) :
  fetches (trace (snd (fetchRelease fetch json releaseTag githubToken httpProxy w)))
  = fetches (trace w)
    ++ [{| req_url := "https://api.github.com/repos/rust-analyzer/rust-analyzer/releases/tags/"
                      ++ releaseTag;
           req_headers :=
             Some (("Accept", "application/vnd.github.v3+json")
                   :: match githubToken with
                      | Some token => [("Authorization", "token " ++ token)]
                      | None => []
                      end);
           agent := match httpProxy with
                    | Some "" | None => None
                    | Some p => Some p
                    end |}%string].
Proof.
  destruct (fetchRelease_run releaseTag githubToken httpProxy w) as (pre & Hpre & ->).
  assert (Hreq : release_request releaseTag githubToken
                   (if truthy httpProxy then httpProxy else None)
                 = {| req_url := "https://api.github.com/repos/rust-analyzer/rust-analyzer/releases/tags/"
                                 ++ releaseTag;
                      req_headers :=
                        Some (("Accept", "application/vnd.github.v3+json")
                              :: match githubToken with
                                 | Some token => [("Authorization", "token " ++ token)]
                                 | None => []
                                 end);
                      agent := match httpProxy with
                               | Some "" | None => None
                               | Some p => Some p
                               end |}%string).
  { unfold release_request. f_equal. destruct httpProxy as [[|c p]|]; reflexivity. }
  rewrite <- Hreq. cbn zeta.
  destruct (fetch _) as [res|e]; [destruct (text res); [destruct (ok res)|]|]; cbn [snd trace];
    rewrite ?fetches_app, (fetches_debug pre Hpre); cbn; rewrite ?app_nil_r; reflexivity.
Qed.

(** X2.  [fetchRelease] leaves the file system as it is: whatever it
    returns or throws, the only things it does are calls of the logger
    and of [fetch]. *)
Theorem fetchRelease_leaves_the_files (releaseTag : string)
    (githubToken httpProxy : option string) (w : World (S := S)) :
  let w' := snd (fetchRelease fetch json releaseTag githubToken httpProxy w) in
  fs w' = fs w
  /\ exists tl, trace w' = trace w ++ tl /\ Forall network_event tl.
Proof.
  destruct (fetchRelease_run releaseTag githubToken httpProxy w) as (pre & Hpre & E).
  cbn zeta. rewrite E. cbn zeta.
  assert (Hn : Forall network_event pre).
  { eapply Forall_impl; [|exact Hpre]. intros e (args & ->). exact I. }
  destruct (fetch _) as [res|e]; [destruct (text res); [destruct (ok res)|]|]; cbn [snd fs trace];
    (split; [reflexivity|]).
  all: try (exists (pre ++ [EFetch (release_request releaseTag githubToken
                                 (if truthy httpProxy then httpProxy else None))]);
            split; [reflexivity|]; apply Forall_app; split; [assumption|repeat constructor]).
  eexists. rewrite <- !app_assoc. split; [reflexivity|].
  apply Forall_app. split; [assumption|repeat constructor].
Qed.

(** X3.  [fetchRelease] returns a release exactly when the response to
    its request has a status in 200..299, its body can be read and the
    body decodes to that release. *)
Theorem fetchRelease_returns_the_decoded_body (releaseTag : string)
    (githubToken httpProxy : option string) (w : World (S := S)) (release : GithubRelease) :
  fst (fetchRelease fetch json releaseTag githubToken httpProxy w) = Ok release
  <-> exists res body,
        fetch (release_request releaseTag githubToken
                 (if truthy httpProxy then httpProxy else None)) = Ok res
        /\ ok res = true /\ text res = Ok body /\ json body = Ok release.
Proof.
  destruct (fetchRelease_run releaseTag githubToken httpProxy w) as (pre & Hpre & ->).
  cbn zeta. split.
  - destruct (fetch _) as [res|e]; [|discriminate].
    destruct (text res) as [body|e] eqn:Et; [|discriminate].
    destruct (ok res) eqn:Eok; [|discriminate].
    cbn [fst]. intros [= H]. exists res, body. auto.
  - intros (res & body & -> & -> & -> & H). cbn [fst]. rewrite H. reflexivity.
Qed.

End FetchRelease.

(** * The transfer of [downloadFile] *)

Lemma stream_ops_app a b : stream_ops (a ++ b) = stream_ops a ++ stream_ops b.
Proof. apply filter_app. Qed.

Lemma writes_app a b : writes (a ++ b) = writes a ++ writes b.
Proof. apply flat_map_app. Qed.

Section Transfer.

Context {S : Type} {FS : FileSystem S}.
Variable fetch : Request -> result Response.
Variable createGunzip : Transform.
Variable node_version : N * N.

Lemma emit_trace e (w w' : World (S := S)) r :
  emit e w = (r, w') -> trace w' = trace w ++ [e] /\ fs w' = fs w.
Proof. unfold emit. intros [= _ <-]. auto. Qed.

Lemma write_trace u data (w w' : World (S := S)) r :
  write u data w = (r, w') ->
  trace w' = trace w ++ (if nonempty data then [EWrite u data] else []).
Proof.
  unfold write. destruct data as [|b data].
  - intros [= _ <-]. cbn. rewrite app_nil_r. reflexivity.
  - unfold bind, emit. cbn. intros H. apply on_fs_trace in H. rewrite H. reflexivity.
Qed.

Lemma pump_trace {C} (cb : C -> number -> number -> option ProgressEvent * C)
    totalBytes destFilePath T chunks : forall ts st (w : World (S := S)) ts' st' w',
  pump cb totalBytes destFilePath T ts st chunks w = (Ok (ts', st'), w') ->
  exists outs tl,
    transform_all T ts chunks = Ok (ts', outs)
    /\ trace w' = trace w ++ tl
    /\ stream_ops tl = map (EWrite destFilePath) (filter nonempty outs)
    /\ writes tl = map (pair destFilePath) (filter nonempty outs)
    /\ reports tl
       = fst (on_data_all cb totalBytes st (map (fun b => Z.of_nat (List.length b)) chunks))
    /\ st' = snd (on_data_all cb totalBytes st (map (fun b => Z.of_nat (List.length b)) chunks)).
Proof.
  intros ts st w ts' st' w' H.
  destruct (pump_reports _ _ _ _ _ _ _ _ _ _ _ H) as (Hrep & Hst).
  revert ts st w ts' st' w' H Hrep Hst.
  assert (Hmain : forall ts st (w : World (S := S)) ts' st' w',
    pump cb totalBytes destFilePath T ts st chunks w = (Ok (ts', st'), w') ->
    exists outs tl,
      transform_all T ts chunks = Ok (ts', outs)
      /\ trace w' = trace w ++ tl
      /\ stream_ops tl = map (EWrite destFilePath) (filter nonempty outs)
      /\ writes tl = map (pair destFilePath) (filter nonempty outs)).
  2:{ intros ts st w ts' st' w' H Hrep Hst.
      destruct (Hmain _ _ _ _ _ _ H) as (outs & tl & Ht & Etl & Eops & Ewr).
      exists outs, tl. repeat split; try assumption.
      rewrite Etl, reports_app in Hrep. apply app_inv_head in Hrep. assumption. }
  induction chunks as [|chunk rest IH]; intros ts st w ts' st' w' H;
    cbn [pump transform_all] in *.
  - unfold ret in H. injection H as <- <- <-. exists [], []. cbn.
    rewrite app_nil_r. auto.
  - destruct (on_data cb totalBytes st (Z.of_nat (List.length chunk))) as [ev st1].
    apply bind_ok in H. destruct H as ([] & w1 & H1 & H).
    apply bind_ok in H. destruct H as ([ts1 out] & w2 & H2 & H).
    apply bind_ok in H. destruct H as ([] & w3 & H3 & H).
    apply IH in H. destruct H as (outs & tl & Ht & Etl & Eops & Ewr).
    unfold lift in H2. injection H2 as H2 <-. cbn [fst snd] in *.
    rewrite H2, Ht. apply write_trace in H3.
    assert (E1 : exists r, trace w1 = trace w ++ r /\ stream_ops r = [] /\ writes r = []).
    { destruct ev as [e|]; cbn [report] in H1.
      - apply emit_trace in H1. destruct H1 as (H1 & _). exists [EReport e]. auto.
      - unfold ret in H1. injection H1 as <-. exists []. rewrite app_nil_r. auto. }
    destruct E1 as (r & E1 & Er & Er').
    exists (out :: outs), (r ++ (if nonempty out then [EWrite destFilePath out] else []) ++ tl).
    split; [reflexivity|]. split.
    { rewrite Etl, H3, E1, <- !app_assoc. reflexivity. }
    rewrite !stream_ops_app, !writes_app, Er, Er', Eops, Ewr. cbn [filter app].
    destruct (nonempty out); split; reflexivity.
Qed.

(** The steps of a transfer that returns. *)
Lemma downloadFile_ok_inv {C} urlString destFilePath mode gunzip httpProxy
    (cb : C -> number -> number -> option ProgressEvent * C) c c'
    (w w' : World (S := S)) res :
  fetch (download_request urlString httpProxy) = Ok res ->
  downloadFile fetch createGunzip node_version urlString destFilePath mode gunzip
    httpProxy cb c w = (Ok c', w') ->
  let T := if gunzip then createGunzip else PassThrough in
  ok res = true
  /\ isNaN (Number (headers_get (headers res) "content-length")) = false
  /\ body_error res = None
  /\ exists pre ts outs lastb tl,
       Forall (fun e => exists args, e = ELog Debug args) pre
       /\ transform_all T (tinit T) (body res) = Ok (ts, outs)
       /\ flush T ts = Ok lastb
       /\ stream_ops tl = map (EWrite destFilePath) (filter nonempty outs)
       /\ writes tl = map (pair destFilePath) (filter nonempty outs)
       /\ reports tl
          = fst (on_data_all cb (Number (headers_get (headers res) "content-length"))
                   (of_Z 0, c) (map (fun b => Z.of_nat (List.length b)) (body res)))
       /\ c' = snd (snd (on_data_all cb (Number (headers_get (headers res) "content-length"))
                           (of_Z 0, c) (map (fun b => Z.of_nat (List.length b)) (body res))))
       /\ trace w'
          = trace w ++ pre
            ++ [EFetch (download_request urlString httpProxy);
                ELog Debug [LText "Downloading file of";
                            LNumber (Number (headers_get (headers res) "content-length"));
                            LText "bytes size from"; LText urlString; LText "to";
                            LText (fsPath destFilePath)];
                ECreateWriteStream destFilePath mode]
            ++ tl
            ++ (if nonempty lastb then [EWrite destFilePath lastb] else [])
            ++ EEnd destFilePath
               :: (if has_close_fix node_version then [] else [EDestroy destFilePath]).
Proof.
  intros Hres H T. unfold downloadFile in H. fold T in H.
  apply bind_ok in H. destruct H as (res' & w1 & H1 & H).
  assert (Hw1 : exists pre,
             Forall (fun e => exists args, e = ELog Debug args) pre
             /\ res' = res
             /\ trace w1 = trace w ++ pre ++ [EFetch (download_request urlString httpProxy)]).
  { unfold download_request in *.
    destruct (truthy httpProxy); unfold do_fetch, log_debug, bind, emit, lift in H1;
      cbn in H1; rewrite Hres in H1; injection H1 as <- <-; cbn [trace].
    - eexists [ELog Debug _]. split; [repeat constructor; eexists; reflexivity|].
      rewrite <- app_assoc. auto.
    - exists []. split; [constructor|]. auto. }
  destruct Hw1 as (pre & Hpre & -> & E1).
  destruct (ok res).
  2:{ cbn [negb] in H. apply bind_ok in H. destruct H as (? & ? & _ & H).
      apply bind_ok in H. destruct H as (? & ? & _ & H).
      apply bind_ok in H. destruct H as (? & ? & _ & H). discriminate. }
  cbn [negb] in H.
  apply bind_ok in H. destruct H as ([] & w2 & H2 & H).
  destruct (isNaN _); [discriminate|]. cbn [negb assert] in H2.
  unfold ret in H2. injection H2 as <-.
  apply bind_ok in H. destruct H as ([] & w3 & H3 & H).
  apply emit_trace in H3. destruct H3 as (H3 & _).
  apply bind_ok in H. destruct H as ([] & w4 & H4 & H).
  assert (E4 : trace w4 = trace w3 ++ [ECreateWriteStream destFilePath mode]).
  { unfold createWriteStream in H4. apply bind_ok in H4. destruct H4 as ([] & w5 & H5 & H4).
    apply on_fs_trace in H4. apply emit_trace in H5. destruct H5 as (H5 & _).
    rewrite H4. assumption. }
  apply bind_ok in H. destruct H as ([ts' st'] & w5 & H5 & H).
  apply pump_trace in H5. destruct H5 as (outs & tl & Ht & E5 & Eops & Ewr & Erep & Est).
  apply bind_ok in H. destruct H as ([] & w6 & H6 & H).
  destruct (body_error res); [destruct gunzip; discriminate|].
  unfold ret in H6. injection H6 as <-.
  apply bind_ok in H. destruct H as (lastb & w7 & H7 & H).
  unfold lift in H7. injection H7 as H7 <-. cbn [fst] in H7.
  apply bind_ok in H. destruct H as ([] & w8 & H8 & H).
  apply write_trace in H8.
  apply bind_ok in H. destruct H as ([] & w9 & H9 & H).
  assert (E9 : trace w9 = trace w8 ++ [EEnd destFilePath]).
  { unfold end_stream in H9. apply bind_ok in H9. destruct H9 as ([] & w10 & H10 & H9).
    apply on_fs_trace in H9. apply emit_trace in H10. destruct H10 as (H10 & _).
    rewrite H9. assumption. }
  assert (E10 : trace w' = trace w9
                           ++ (if has_close_fix node_version then [] else [EDestroy destFilePath])).
  { unfold has_close_fix. destruct node_version as [major minor].
    destruct (_ || _)%bool.
    - injection H as _ <-. rewrite app_nil_r. reflexivity.
    - apply bind_ok in H. destruct H as ([] & w10 & H10 & H).
      injection H as _ <-. apply emit_trace in H10. apply H10. }
  assert (Ec : c' = snd (snd (on_data_all cb
                                (Number (headers_get (headers res) "content-length"))
                                (of_Z 0, c)
                                (map (fun b => Z.of_nat (List.length b)) (body res))))).
  { destruct node_version as [major minor].
    destruct (_ || _)%bool.
    - injection H as <- _. cbn [snd]. rewrite Est. reflexivity.
    - apply bind_ok in H. destruct H as ([] & w10 & H10 & H).
      injection H as <- _. cbn [snd]. rewrite Est. reflexivity. }
  repeat split; try reflexivity.
  exists pre, ts', outs, lastb, tl. repeat split; try assumption.
  rewrite E10, E9, H8, E5, E4, H3, E1. rewrite <- !app_assoc. reflexivity.
Qed.

Lemma stream_ops_debug pre :
  Forall (fun e => exists args, e = ELog Debug args) pre -> stream_ops pre = [].
Proof.
  induction 1 as [|e pre (args & ->) _ IH]; [reflexivity|]. cbn. exact IH.
Qed.

Lemma writes_debug pre :
  Forall (fun e => exists args, e = ELog Debug args) pre -> writes pre = [].
Proof.
  induction 1 as [|e pre (args & ->) _ IH]; [reflexivity|]. cbn. exact IH.
Qed.

(** X8.  When [downloadFile] returns, what it did to write streams is, in
    this order: the stream on the destination is created with the mode
    given, the non-empty outputs of the transform ([zlib.createGunzip()]
    when [gunzip] is set, nothing otherwise) over the chunks of the body
    and its final output are written to it, the stream is ended, and it
    is destroyed only on a node before 13.11. *)
Theorem downloadFile_stream_operations (C : Type) (urlString : string) (destFilePath : Uri)
    (mode : option N) (gunzip : bool) (httpProxy : option string)
    (cb : C -> number -> number -> option ProgressEvent * C) (c c' : C)
    (w w' : World (S := S)) (res : Response) :
  fetch (download_request urlString httpProxy) = Ok res ->
  downloadFile fetch createGunzip node_version urlString destFilePath mode gunzip
    httpProxy cb c w = (Ok c', w') ->
  let T := if gunzip then createGunzip else PassThrough in
  exists ts outs lastb,
    transform_all T (tinit T) (body res) = Ok (ts, outs)
    /\ flush T ts = Ok lastb
    /\ stream_ops (trace w')
       = stream_ops (trace w)
         ++ ECreateWriteStream destFilePath mode
            :: map (EWrite destFilePath) (filter nonempty (outs ++ [lastb]))
         ++ EEnd destFilePath
            :: (if has_close_fix node_version then [] else [EDestroy destFilePath]).
Proof.
  intros Hres H T.
  destruct (downloadFile_ok_inv _ _ _ _ _ _ _ _ _ _ _ Hres H)
    as (_ & _ & _ & pre & ts & outs & lastb & tl & Hpre & Ht & Hf & Eops & _ & _ & _ & E).
  exists ts, outs, lastb. split; [exact Ht|]. split; [exact Hf|].
  rewrite E, !stream_ops_app, (stream_ops_debug pre Hpre), Eops.
  rewrite filter_app, map_app. cbn [app filter map stream_ops].
  rewrite <- !app_assoc. cbn [app].
  destruct (nonempty lastb), (has_close_fix node_version); reflexivity.
Qed.

Lemma transform_all_PassThrough chunks : forall ts,
  transform_all PassThrough ts chunks = Ok (tt, chunks).
Proof.
  induction chunks as [|chunk rest IH]; intros []; cbn; [reflexivity|].
  rewrite IH. reflexivity.
Qed.

Lemma concat_filter_nonempty (l : list Buffer) :
  List.concat (filter nonempty l) = List.concat l.
Proof.
  induction l as [|b l IH]; [reflexivity|]. cbn [filter].
  destruct b; cbn [nonempty List.concat app]; rewrite IH; reflexivity.
Qed.

(** X9.  Without [gunzip], when [downloadFile] returns, it has written
    the non-empty chunks of the body to the destination, in their order
    and nothing else: the bytes written are the bytes of the body. *)
Theorem plain_transfer_writes_the_body (C : Type) (urlString : string) (destFilePath : Uri)
    (mode : option N) (httpProxy : option string)
    (cb : C -> number -> number -> option ProgressEvent * C) (c c' : C)
    (w w' : World (S := S)) (res : Response) :
  fetch (download_request urlString httpProxy) = Ok res ->
  downloadFile fetch createGunzip node_version urlString destFilePath mode false
    httpProxy cb c w = (Ok c', w') ->
  writes (trace w')
  = writes (trace w) ++ map (pair destFilePath) (filter nonempty (body res))
  /\ List.concat (filter nonempty (body res)) = List.concat (body res).
Proof.
  intros Hres H.
  destruct (downloadFile_ok_inv _ _ _ _ _ _ _ _ _ _ _ Hres H)
    as (_ & _ & _ & pre & ts & outs & lastb & tl & Hpre & Ht & Hf & _ & Ewr & _ & _ & E).
  cbn in Ht, Hf. rewrite transform_all_PassThrough in Ht. injection Ht as _ <-.
  injection Hf as <-.
  split; [|apply concat_filter_nonempty].
  rewrite E, !writes_app, (writes_debug pre Hpre), Ewr. cbn.
  destruct (has_close_fix node_version); cbn; rewrite ?app_nil_r; reflexivity.
Qed.


Lemma reports_debug pre :
  Forall (fun e => exists args, e = ELog Debug args) pre -> reports pre = [].
Proof.
  induction 1 as [|e pre (args & ->) _ IH]; [reflexivity|]. cbn. exact IH.
Qed.

(** X10.  When [downloadFile] returns, the reports in the trace are the
    ones its callback made, called once for each chunk of the body, in
    order, with the bytes received so far and the total of the
    [content-length] header, whatever [gunzip] is: progress counts the
    bytes received, not the bytes written.  The closure of the callback
    ends as these calls leave it. *)
Theorem downloadFile_calls_back_for_each_chunk (C : Type) (urlString : string)
    (destFilePath : Uri) (mode : option N) (gunzip : bool) (httpProxy : option string)
    (cb : C -> number -> number -> option ProgressEvent * C) (c c' : C)
    (w w' : World (S := S)) (res : Response) :
  fetch (download_request urlString httpProxy) = Ok res ->
  downloadFile fetch createGunzip node_version urlString destFilePath mode gunzip
    httpProxy cb c w = (Ok c', w') ->
  let run := on_data_all cb (Number (headers_get (headers res) "content-length"))
               (of_Z 0, c) (map (fun b => Z.of_nat (List.length b)) (body res)) in
  reports (trace w') = reports (trace w) ++ fst run
  /\ c' = snd (snd run).
Proof.
  intros Hres H.
  destruct (downloadFile_ok_inv _ _ _ _ _ _ _ _ _ _ _ Hres H)
    as (_ & _ & _ & pre & ts & outs & lastb & tl & Hpre & _ & _ & _ & _ & Erep & Ec & E).
  cbn zeta. split; [|exact Ec].
  rewrite E, !reports_app, (reports_debug pre Hpre), Erep. cbn [reports flat_map app].
  destruct (nonempty lastb), (has_close_fix node_version); cbn; rewrite ?app_nil_r; reflexivity.
Qed.

Lemma network_debug pre :
  Forall (fun e => exists args, e = ELog Debug args) pre -> Forall network_event pre.
Proof. intros H. eapply Forall_impl; [|exact H]. intros e (args & ->). exact I. Qed.

(** The world after the request of [downloadFile]. *)
Lemma downloadFile_request {C} urlString destFilePath mode gunzip httpProxy
    (cb : C -> number -> number -> option ProgressEvent * C) c (w : World (S := S)) :
  exists pre,
    Forall (fun e => exists args, e = ELog Debug args) pre
    /\ let req := download_request urlString httpProxy in
       let w1 := {| fs := fs w; trace := trace w ++ pre ++ [EFetch req] |} in
       match fetch req with
       | Err e =>
           downloadFile fetch createGunzip node_version urlString destFilePath mode gunzip
             httpProxy cb c w = (Err e, w1)
       | Ok res =>
           if ok res then
             isNaN (Number (headers_get (headers res) "content-length")) = true ->
             downloadFile fetch createGunzip node_version urlString destFilePath mode gunzip
               httpProxy cb c w
             = (Err {| err_name := "ProtocolInvariantError"; err_code := None;
                       err_message := "Sanity check of content-length protocol" |}, w1)
           else
             let w2 := {| fs := fs w;
                          trace := trace w1
                                   ++ [ELog Error [LText "Error"; LStatus (status res);
                                                   LText "while downloading file from";
                                                   LText urlString]] |} in
             downloadFile fetch createGunzip node_version urlString destFilePath mode gunzip
               httpProxy cb c w
             = match text res with
               | Err e => (Err e, w2)
               | Ok body =>
                   (Err (new_Error ("Got response " ++ show_N (status res)
                                    ++ " when trying to download a file.")),
                    {| fs := fs w;
                       trace := trace w2 ++ [ELog Error [LText body; LHeaders (headers res)]] |})
               end
       end.
Proof.
  unfold downloadFile, download_request, do_fetch, log_debug, log_error, bind, emit, lift, throw.
  destruct (truthy httpProxy); cbn [fs trace].
  - eexists [ELog Debug _]. split; [repeat constructor; eexists; reflexivity|].
    cbn zeta. rewrite <- !app_assoc. cbn [app].
    destruct (fetch _) as [res|e]; [|reflexivity].
    destruct (ok res); cbn [negb].
    + intros ->. reflexivity.
    + destruct (text res); reflexivity.
  - exists []. split; [constructor|].
    cbn zeta. cbn [app].
    destruct (fetch _) as [res|e]; [|reflexivity].
    destruct (ok res); cbn [negb].
    + intros ->. reflexivity.
    + destruct (text res); reflexivity.
Qed.

(** X6.  A response with a status in 200..299 whose [content-length]
    converts to [NaN] is refused with the error of [assert] before
    anything is done to a file: the file system is as it was, and the
    calls made are those of the logger and of [fetch]. *)
Theorem nan_content_length_is_refused (C : Type) (urlString : string) (destFilePath : Uri)
    (mode : option N) (gunzip : bool) (httpProxy : option string)
    (cb : C -> number -> number -> option ProgressEvent * C) (c : C)
    (w : World (S := S)) (res : Response) :
  fetch (download_request urlString httpProxy) = Ok res ->
  ok res = true ->
  isNaN (Number (headers_get (headers res) "content-length")) = true ->
  let run := downloadFile fetch createGunzip node_version urlString destFilePath mode gunzip
               httpProxy cb c w in
  fst run = Err {| err_name := "ProtocolInvariantError"; err_code := None;
                   err_message := "Sanity check of content-length protocol" |}
  /\ fs (snd run) = fs w
  /\ exists tl, trace (snd run) = trace w ++ tl /\ Forall network_event tl.
Proof.
  intros Hres Hok Hnan.
  destruct (downloadFile_request urlString destFilePath mode gunzip httpProxy cb c w)
    as (pre & Hpre & E).
  cbn zeta in E. rewrite Hres, Hok in E. cbn zeta. rewrite (E Hnan). cbn [fst snd fs trace].
  split; [reflexivity|]. split; [reflexivity|].
  eexists. split; [reflexivity|].
  apply Forall_app. split; [apply network_debug; assumption|repeat constructor].
Qed.

(** X5.  When the request fails or is answered with a status outside
    200..299, [downloadFile] throws and has done nothing to a file: the
    file system is as it was, and the calls made are those of the logger
    and of [fetch]. *)
Theorem failed_request_opens_no_file (C : Type) (urlString : string) (destFilePath : Uri)
    (mode : option N) (gunzip : bool) (httpProxy : option string)
    (cb : C -> number -> number -> option ProgressEvent * C) (c : C)
    (w : World (S := S)) :
  (forall res, fetch (download_request urlString httpProxy) = Ok res -> ok res = false) ->
  let run := downloadFile fetch createGunzip node_version urlString destFilePath mode gunzip
               httpProxy cb c w in
  (exists e, fst run = Err e)
  /\ fs (snd run) = fs w
  /\ exists tl, trace (snd run) = trace w ++ tl /\ Forall network_event tl.
Proof.
  intros Hno.
  destruct (downloadFile_request urlString destFilePath mode gunzip httpProxy cb c w)
    as (pre & Hpre & E).
  cbn zeta in E. cbn zeta. apply network_debug in Hpre.
  destruct (fetch _) as [res|e].
  - rewrite (Hno res eq_refl) in E. rewrite E.
    destruct (text res); cbn [fst snd fs trace].
    + split; [eexists; reflexivity|]. split; [reflexivity|].
      eexists. rewrite <- !app_assoc. split; [reflexivity|].
      apply Forall_app. split; [assumption|repeat constructor].
    + split; [eexists; reflexivity|]. split; [reflexivity|].
      eexists. rewrite <- !app_assoc. split; [reflexivity|].
      apply Forall_app. split; [assumption|repeat constructor].
  - rewrite E. cbn [fst snd fs trace].
    split; [eexists; reflexivity|]. split; [reflexivity|].
    eexists. split; [reflexivity|].
    apply Forall_app. split; [assumption|repeat constructor].
Qed.

End Transfer.

(** * The installation of [download] *)

Section Install.

Context {S : Type} {FS : FileSystem S}.
Variable fetch : Request -> result Response.
Variable createGunzip : Transform.
Variable node_version : N * N.

Lemma displace_old_run opts old (w : World (S := S)) :
  displace_old opts old w
  = match fs_rename (dest_uri opts) old (fs w) with
    | (Ok _, s) =>
        (Ok tt, {| fs := s;
                   trace := trace w
                            ++ [ERename (dest_uri opts) old;
                                ELog Info [LText ("Renamed old server binary "
                                             ++ fsPath (dest_uri opts) ++ " to "
                                             ++ fsPath old)]] |})
    | (Err e, s) =>
        (Ok tt, {| fs := s;
                   trace := trace w
                            ++ ERename (dest_uri opts) old
                               :: (if is_not_found (err_code e) then []
                                   else [ELog Error
                                           [LText ("Cannot rename existing server instance: "
                                              ++ err_toString e)]]) |})
    end.
Proof.
  unfold displace_old, try_catch, rename, log_info, log_error, bind, emit, on_fs, ret.
  cbn [fs trace]. destruct (fs_rename _ _ _) as [[[]|e] s]; cbn [fs trace].
  - rewrite <- ?app_assoc; reflexivity.
  - unfold is_not_found, truthy. destruct (err_code e) as [code|]; cbv beta iota.
    + destruct (String.eqb code "FileNotFound") eqn:Ef;
        destruct (String.eqb code "EntryNotFound") eqn:Ee;
        destruct (String.eqb code "") eqn:E0;
        cbn [negb orb andb fs trace]; rewrite <- ?app_assoc; try reflexivity;
        apply String.eqb_eq in E0; subst code; discriminate.
    + cbn [negb orb andb String.eqb fs trace]. rewrite <- ?app_assoc; reflexivity.
Qed.

Lemma install_new_run opts temp (w : World (S := S)) :
  install_new opts temp w
  = match fs_rename temp (dest_uri opts) (fs w) with
    | (Ok _, s) => (Ok tt, {| fs := s; trace := trace w ++ [ERename temp (dest_uri opts)] |})
    | (Err e, s) =>
        (Ok tt, {| fs := s;
                   trace := trace w
                            ++ [ERename temp (dest_uri opts);
                                ELog Error [LText ("Cannot update server binary: "
                                             ++ err_toString e)]] |})
    end.
Proof.
  unfold install_new, try_catch, rename, log_error, bind, emit, on_fs.
  cbn [fs trace]. destruct (fs_rename _ _ _) as [[[]|e] s]; cbn [fs trace].
  - reflexivity.
  - rewrite <- ?app_assoc; reflexivity.
Qed.

Lemma remove_stale_trace rawDest (w : World (S := S)) :
  exists tl,
    trace (snd (remove_stale rawDest w)) = trace w ++ EReadDirectory (dir rawDest) :: tl
    /\ Forall (cleanup_event (dir rawDest)) tl.
Proof.
  unfold remove_stale, try_catch at 1. unfold readDirectory. rewrite bind_assoc.
  unfold bind at 1. unfold emit at 1. unfold bind at 1. unfold on_fs at 1. cbn [fs trace].
  destruct (fs_readDirectory _ _) as [[entries|e] s].
  - match goal with |- context [for_each ?f entries ?w0] =>
      assert (Hf : emits_only (cleanup_event (dir rawDest)) (for_each f entries)) end.
    { unfold delete, log_info, log_error. repeat emits_step. }
    match goal with |- context [for_each ?f entries ?w0] =>
      destruct (Hf w0) as (tl & E & F); destruct (for_each f entries w0) as [[[[]|e]|] w1] end.
    + cbn [snd trace] in *. exists tl. rewrite E, <- app_assoc. auto.
    + unfold log_error, emit. cbn [snd trace] in *. rewrite E, <- !app_assoc. cbn [app].
      eexists. split; [reflexivity|].
      apply Forall_app. split; [assumption|repeat constructor].
    + cbn [snd trace] in *. exists tl. rewrite E, <- app_assoc. auto.
  - unfold log_error, emit. cbn [snd fs trace]. rewrite <- app_assoc. cbn [app].
    eexists. split; [reflexivity|repeat constructor].
Qed.

Lemma transfer_trace {C} urlString destFilePath mode gunzip httpProxy
    (cb : C -> number -> number -> option ProgressEvent * C) c (w : World (S := S)) :
  exists tl,
    trace (snd (downloadFile fetch createGunzip node_version urlString destFilePath
                  mode gunzip httpProxy cb c w)) = trace w ++ tl
    /\ Forall (transfer_event destFilePath) tl
    /\ forall c', fst (downloadFile fetch createGunzip node_version urlString destFilePath
                         mode gunzip httpProxy cb c w) = Ok c' ->
                  In (EEnd destFilePath) tl.
Proof.
  destruct (downloadFile_trace fetch createGunzip node_version urlString destFilePath mode
              gunzip httpProxy cb c w) as (pre & tl & E & Fp & Ft).
  exists (pre ++ EFetch (download_request urlString httpProxy) :: tl).
  split; [assumption|]. split.
  - apply Forall_app. split.
    + eapply Forall_impl; [|exact Fp]. intros e (args & ->). exact I.
    + constructor; [exact I|].
      eapply Forall_impl; [|exact Ft]. intros [] H; cbn in *; auto.
  - intros c' Hok.
    destruct (downloadFile fetch createGunzip node_version urlString destFilePath mode
                gunzip httpProxy cb c w) as [r w'] eqn:Hrun.
    cbn [fst snd] in *. subst r.
    destruct (fetch (download_request urlString httpProxy)) as [res|e] eqn:Hres.
    + destruct (downloadFile_ok_inv fetch createGunzip node_version _ _ _ _ _ _ _ _ _ _ _
                  Hres Hrun)
        as (_ & _ & _ & pre' & ts & outs & lastb & tl' & _ & _ & _ & _ & _ & _ & _ & E').
      rewrite E' in E. apply app_inv_head in E. rewrite <- E.
      repeat (apply in_or_app; right). cbn. repeat (apply in_or_app; right).
      left. reflexivity.
    + exfalso. unfold downloadFile, download_request in *.
      destruct (truthy httpProxy); unfold do_fetch, log_debug, bind, emit, lift in Hrun;
        cbn in Hrun; rewrite Hres in Hrun; discriminate.
Qed.

Lemma displace_old_trace opts old (w : World (S := S)) :
  exists logs,
    trace (snd (displace_old opts old w)) = trace w ++ ERename (dest_uri opts) old :: logs
    /\ Forall log_event logs.
Proof.
  rewrite displace_old_run. destruct (fs_rename _ _ _) as [[[]|e] s]; cbn [snd trace].
  - eexists. split; [reflexivity|repeat constructor].
  - eexists. split; [reflexivity|]. destruct (is_not_found _); repeat constructor.
Qed.

Lemma install_new_trace opts temp (w : World (S := S)) :
  exists logs,
    trace (snd (install_new opts temp w)) = trace w ++ ERename temp (dest_uri opts) :: logs
    /\ Forall log_event logs.
Proof.
  rewrite install_new_run. destruct (fs_rename _ _ _) as [[[]|e] s]; cbn [snd trace].
  - eexists. split; [reflexivity|repeat constructor].
  - eexists. split; [reflexivity|repeat constructor].
Qed.

(** X18.  A download that returns went through its phases in this order:
    the transfer into the temporary file, which touches no other file
    and has ended its write stream; the renaming of the destination to
    the displaced path; the renaming of the temporary file to the
    destination; the listing of the directory of the destination, and
    after it only deletions in that directory.  Between them there are
    only calls of the logger. *)
Theorem download_phases (opts : DownloadOpts) (randomBytes : list Byte.byte)
    (w : World (S := S)) :
  fst (download fetch createGunzip node_version opts randomBytes w) = Ok tt ->
  let temp := tempFilePath (dest opts) (hex randomBytes) in
  let old := oldServerPath (dest opts) (hex randomBytes) in
  let run := download fetch createGunzip node_version opts randomBytes w in
  exists transfer displaced installed cleanup,
    trace (snd run)
    = trace w ++ transfer
      ++ ERename (dest_uri opts) old :: displaced
      ++ ERename temp (dest_uri opts) :: installed
      ++ EReadDirectory (dir (dest opts)) :: cleanup
    /\ Forall (transfer_event temp) transfer
    /\ In (EEnd temp) transfer
    /\ Forall log_event displaced
    /\ Forall log_event installed
    /\ Forall (cleanup_event (dir (dest opts))) cleanup.
Proof.
  intros Hrun temp old run. subst run.
  destruct (download fetch createGunzip node_version opts randomBytes w) as [r w'] eqn:H.
  cbn [fst snd] in *. subst r.
  unfold download in H. fold temp old in H.
  apply bind_ok in H. destruct H as ([] & w1 & H1 & H).
  apply emit_trace in H1. destruct H1 as (E1 & _).
  apply bind_ok in H. destruct H as (c' & w2 & H2 & H).
  destruct (transfer_trace (url opts) temp (mode opts)
              (match gunzip opts with Some b => b | None => false end)
              (httpProxy opts) onProgress (of_Z 0) w1) as (tl & E2 & F2 & Hend).
  rewrite H2 in E2, Hend. cbn [fst snd] in *. specialize (Hend c' eq_refl).
  apply bind_ok in H. destruct H as ([] & w3 & H3 & H).
  destruct (displace_old_trace opts old w2) as (dl & E3 & F3). rewrite H3 in E3.
  apply bind_ok in H. destruct H as ([] & w4 & H4 & H).
  destruct (install_new_trace opts temp w3) as (il & E4 & F4). rewrite H4 in E4.
  destruct (remove_stale_trace (dest opts) w4) as (cl & E5 & F5). rewrite H in E5.
  cbn [snd] in *.
  exists (EWithProgress (progressTitle opts) :: tl), dl, il, cl.
  split; [|repeat split; auto].
  - rewrite E5, E4, E3, E2, E1.
    repeat first [rewrite <- app_assoc | progress cbn [app]]. reflexivity.
  - constructor; [exact I|assumption].
  - right. assumption.
Qed.

(** X19.  A download that throws has renamed nothing, listed no
    directory and deleted nothing: all it did to files went to the write
    stream on the temporary file, and the destination is as it was. *)
Theorem failed_download_renames_nothing (opts : DownloadOpts) (randomBytes : list Byte.byte)
    (w : World (S := S)) (e : JsError) :
  fst (download fetch createGunzip node_version opts randomBytes w) = Err e ->
  let temp := tempFilePath (dest opts) (hex randomBytes) in
  let run := download fetch createGunzip node_version opts randomBytes w in
  exists tl, trace (snd run) = trace w ++ tl /\ Forall (transfer_event temp) tl.
Proof.
  intros Hrun temp run. subst run. unfold download in *. fold temp in Hrun |- *.
  unfold bind at 1 in Hrun. unfold bind at 1. unfold emit at 1 in Hrun. unfold emit at 1.
  set (w1 := {| fs := fs w; trace := trace w ++ [EWithProgress (progressTitle opts)] |}) in *.
  unfold bind at 1 in Hrun. unfold bind at 1.
  destruct (transfer_trace (url opts) temp (mode opts)
              (match gunzip opts with Some b => b | None => false end)
              (httpProxy opts) onProgress (of_Z 0) w1) as (tl & E2 & F2 & _).
  destruct (downloadFile _ _ _ _ _ _ _ _ _ _ w1) as [[[c'|e']|] w2]; [| |discriminate Hrun].
  - exfalso.
    assert (Hnt : never_throws
              (bind (displace_old opts (oldServerPath (dest opts) (hex randomBytes)))
                 (fun _ => bind (install_new opts temp) (fun _ => remove_stale (dest opts))))).
    { apply never_throws_bind; [apply displace_old_never_throws|intros _].
      apply never_throws_bind; [apply install_new_never_throws|intros _].
      apply remove_stale_never_throws. }
    destruct (Hnt w2) as (a & w3 & E3). rewrite E3 in Hrun. discriminate.
  - cbn [snd] in *. exists (EWithProgress (progressTitle opts) :: tl).
    rewrite E2. subst w1. cbn [trace]. rewrite <- app_assoc.
    split; [reflexivity|]. constructor; [exact I|assumption].
Qed.

(** X20.  The renaming of the server in place never throws and is tried
    once.  When it fails, an error is logged unless the code of the
    failure is [FileNotFound] or [EntryNotFound]: a destination that is
    not there yet is not an error, a failure without a code is. *)
Theorem displace_old_reports_unexpected_errors (opts : DownloadOpts) (old : Uri)
    (w : World (S := S)) :
  let run := displace_old opts old w in
  fst run = Ok tt
  /\ fs (snd run) = snd (fs_rename (dest_uri opts) old (fs w))
  /\ renames (trace (snd run)) = renames (trace w) ++ [(dest_uri opts, old)]
  /\ errors_logged (trace (snd run))
     = errors_logged (trace w)
       ++ match fst (fs_rename (dest_uri opts) old (fs w)) with
          | Ok _ => []
          | Err e =>
              if is_not_found (err_code e) then []
              else [[LText ("Cannot rename existing server instance: " ++ err_toString e)]]
          end.
Proof.
  cbn zeta. rewrite displace_old_run.
  destruct (fs_rename _ _ _) as [[[]|e] s]; cbn [fst snd fs trace];
    (split; [reflexivity|]); (split; [reflexivity|]);
    unfold renames; rewrite errors_logged_app, flat_map_app.
  - split; reflexivity.
  - destruct (is_not_found _); split; reflexivity.
Qed.

End Install.

(** * More on the progress reports *)

Lemma on_data_all_readBytes {C} (cb : C -> number -> number -> option ProgressEvent * C)
    totalBytes lens : forall r c,
  Forall (fun l => 0 <= l) lens -> 0 <= r -> r + sum_Z lens < 2 ^ 53 ->
  fst (snd (on_data_all cb totalBytes (of_Z r, c) lens)) = of_Z (r + sum_Z lens).
Proof.
  induction lens as [|len lens IH]; intros r c Hl Hr Hs.
  - cbn. rewrite Z.add_0_r. reflexivity.
  - inversion Hl as [|? ? Hlen Hl']; subst. cbn [sum_Z fold_right] in Hs.
    fold (sum_Z lens) in Hs. pose proof (sum_Z_nonneg lens Hl') as Hsum.
    cbn [on_data_all on_data]. unfold add. rewrite add_of_Z by lia.
    destruct (cb c (of_Z (r + len)) totalBytes) as [ev c'].
    specialize (IH (r + len) c' Hl' ltac:(lia) ltac:(lia)).
    destruct (on_data_all cb totalBytes (of_Z (r + len), c') lens) as [evs st''].
    cbn [fst snd] in *. rewrite IH. cbn [sum_Z fold_right]. fold (sum_Z lens).
    rewrite Z.add_assoc. reflexivity.
Qed.

(** X13.  For a body of less than [2^53] bytes, the [readBytes] of the
    listener ends as the exact number of bytes received, whatever the
    callback and the total are. *)
Theorem readBytes_counts_the_body (C : Type)
    (cb : C -> number -> number -> option ProgressEvent * C)
    (totalBytes : number) (c : C) (lengths : list Z) :
  Forall (fun l => 0 <= l) lengths ->
  sum_Z lengths < 2 ^ 53 ->
  fst (snd (on_data_all cb totalBytes (of_Z 0, c) lengths)) = of_Z (sum_Z lengths).
Proof.
  intros Hl Hs. apply (on_data_all_readBytes cb totalBytes lengths 0 c Hl); lia.
Qed.

Lemma nearest_exact t r p q :
  0 < t -> 100 * r = p * t -> nearest_percent t r q -> q = p.
Proof. intros Ht He (_ & _ & Hq). nia. Qed.

Lemma progress_events_last t lens :
  0 < t < 2 ^ 53 -> Forall (fun l => 0 <= l) lens -> sum_Z lens <= 2 ^ 44 ->
  exists q,
    nearest_percent t (sum_Z lens) q
    /\ last (map percentage (progress_events (of_Z t) lens)) (of_Z 0) = of_Z q.
Proof.
  intros Ht Hl Hs.
  destruct (progress_events_chain t lens Ht Hl Hs) as (qs & Hc & ->).
  pose proof (chain_bounds t 0 lens qs ltac:(lia) ltac:(lia) Hl Hs Hc) as Hb.
  destruct (events_of_total 0 qs ltac:(lia) Hb) as (_ & ->).
  exists (last qs 0). split; [|reflexivity].
  apply (chain_last t 0 lens qs 0 (nearest_zero _ Ht) Hc).
Qed.

(** X14.  For a positive total below [2^53] and at most [2^44] bytes
    received: when the bytes received are exactly
    [p] percent of the total, the last percentage reported is [p]: 100
    for a body of [totalBytes] bytes, 200 for one twice as long, as
    nothing caps the percentage. *)
Theorem last_report_is_exact (totalBytes : Z) (lengths : list Z) (p : Z) :
  0 < totalBytes < 2 ^ 53 ->
  Forall (fun l => 0 <= l) lengths ->
  sum_Z lengths <= 2 ^ 44 ->
  100 * sum_Z lengths = p * totalBytes ->
  last (map percentage (progress_events (of_Z totalBytes) lengths)) (of_Z 0) = of_Z p.
Proof.
  intros Ht Hl Hs He.
  destruct (progress_events_last totalBytes lengths Ht Hl Hs) as (q & Hq & ->).
  f_equal. apply (nearest_exact totalBytes (sum_Z lengths)); [lia|assumption..].
Qed.

Lemma chain_le_100 t r lens qs :
  0 < t -> Forall (fun l => 0 <= l) lens -> r + sum_Z lens <= t ->
  percent_chain t r lens qs -> Forall (fun q => q <= 100) qs.
Proof.
  intros Ht Hl Hs Hc. induction Hc as [r|r len lens q qs Hq Hc IH].
  - constructor.
  - inversion Hl as [|? ? Hlen Hl']; subst. cbn [sum_Z fold_right] in Hs.
    fold (sum_Z lens) in Hs. pose proof (sum_Z_nonneg lens Hl') as Hsum.
    constructor.
    + destruct Hq as (_ & _ & Hq). nia.
    + apply IH; [assumption|lia].
Qed.

Lemma reported_incl p0 qs : incl (reported p0 qs) qs.
Proof.
  revert p0. induction qs as [|q qs IH]; intros p0; cbn; [apply incl_refl|].
  destruct (q =? p0).
  - apply incl_tl, IH.
  - apply incl_cons; [left; reflexivity|apply incl_tl, IH].
Qed.

Lemma sorted_length_between a b l :
  StronglySorted Z.lt l -> Forall (fun q => a < q <= b) l ->
  Z.of_nat (List.length l) <= Z.max 0 (b - a).
Proof.
  intros Hs. revert a. induction Hs as [|x l Hs IH Hx]; intros a Hb.
  - cbn. lia.
  - inversion Hb as [|? ? Hxa Hb']; subst.
    assert (Hl : Forall (fun q => x < q <= b) l).
    { rewrite Forall_forall in *. intros q Hq. specialize (Hx q Hq).
      specialize (Hb' q Hq). lia. }
    specialize (IH x Hl). cbn [List.length]. lia.
Qed.

(** X15.  For a positive total below [2^53] and a body of at most
    [totalBytes] and at most [2^44] bytes, every percentage reported is an integer from 1 to 100, and
    there are at most 100 reports however many chunks there are. *)
Theorem reports_between_1_and_100 (totalBytes : Z) (lengths : list Z) :
  0 < totalBytes < 2 ^ 53 ->
  Forall (fun l => 0 <= l) lengths ->
  sum_Z lengths <= totalBytes ->
  sum_Z lengths <= 2 ^ 44 ->
  exists ps,
    map percentage (progress_events (of_Z totalBytes) lengths) = map of_Z ps
    /\ Forall (fun p => 1 <= p <= 100) ps
    /\ (List.length (progress_events (of_Z totalBytes) lengths) <= 100)%nat.
Proof.
  intros Ht Hl Hst Hs.
  destruct (progress_events_chain totalBytes lengths Ht Hl Hs) as (qs & Hc & ->).
  exists (reported 0 qs).
  destruct (chain_reported_sorted totalBytes 0 lengths qs 0 ltac:(lia) ltac:(lia) Hl Hs
              (nearest_zero _ Ht) Hc) as (Hsorted & Hpos).
  pose proof (chain_le_100 totalBytes 0 lengths qs ltac:(lia) Hl Hst Hc) as H100.
  assert (Hrange : Forall (fun p => 0 < p <= 100) (reported 0 qs)).
  { rewrite Forall_forall in *. intros q Hq. specialize (Hpos q Hq).
    specialize (H100 q (reported_incl 0 qs q Hq)). lia. }
  split; [apply events_of_percentage|]. split.
  - eapply Forall_impl; [|exact Hrange]. cbn. intros; lia.
  - pose proof (sorted_length_between 0 100 _ Hsorted Hrange) as Hlen.
    rewrite <- (length_map percentage), events_of_percentage, length_map. lia.
Qed.

Lemma events_of_steps p0 qs :
  map increment (events_of p0 qs) = map of_Z (steps p0 (reported p0 qs)).
Proof.
  revert p0. induction qs as [|q qs IH]; intros p0; cbn; [reflexivity|].
  destruct (q =? p0); [apply IH|]. cbn. rewrite IH. reflexivity.
Qed.

Lemma steps_positive p0 ps :
  StronglySorted Z.lt ps -> Forall (fun q => p0 < q) ps -> Forall (fun d => 1 <= d) (steps p0 ps).
Proof.
  intros Hs. revert p0. induction Hs as [|x l Hs IH Hx]; intros p0 Hb; cbn.
  - constructor.
  - inversion Hb; subst. constructor; [lia|]. apply IH. exact Hx.
Qed.

(** X16.  For a positive total below [2^53] and at most [2^44] bytes
    received, the increment of every report is the
    difference between its percentage and the one reported before it (0
    for the first), and it is at least 1. *)
Theorem increments_are_the_steps (totalBytes : Z) (lengths : list Z) :
  0 < totalBytes < 2 ^ 53 ->
  Forall (fun l => 0 <= l) lengths ->
  sum_Z lengths <= 2 ^ 44 ->
  exists ps,
    map percentage (progress_events (of_Z totalBytes) lengths) = map of_Z ps
    /\ map increment (progress_events (of_Z totalBytes) lengths) = map of_Z (steps 0 ps)
    /\ Forall (fun d => 1 <= d) (steps 0 ps).
Proof.
  intros Ht Hl Hs.
  destruct (progress_events_chain totalBytes lengths Ht Hl Hs) as (qs & Hc & ->).
  exists (reported 0 qs). split; [apply events_of_percentage|].
  split; [apply events_of_steps|].
  destruct (chain_reported_sorted totalBytes 0 lengths qs 0 ltac:(lia) ltac:(lia) Hl Hs
              (nearest_zero _ Ht) Hc) as (Hsorted & Hpos).
  apply steps_positive; [assumption|].
  eapply Forall_impl; [|exact Hpos]. cbn. intros; lia.
Qed.


(** * Strings: the random token and the paths *)

Lemma hex_digit_inj a b : (a < 16)%N -> (b < 16)%N -> hex_digit a = hex_digit b -> a = b.
Proof.
  intros Ha Hb H. apply (f_equal N_of_ascii) in H. unfold hex_digit in H.
  destruct (N.ltb_spec a 10), (N.ltb_spec b 10);
    rewrite !N_ascii_embedding in H by lia; lia.
Qed.

Lemma hex_inj a : forall b, hex a = hex b -> a = b.
Proof.
  induction a as [|x a IH]; intros [|y b] H; cbn in H; try discriminate; [reflexivity|].
  injection H as H1 H2 H3.
  pose proof (Byte.to_N_bounded x) as Hx. pose proof (Byte.to_N_bounded y) as Hy.
  apply hex_digit_inj in H1; [|apply N.Div0.div_lt_upper_bound; lia..].
  apply hex_digit_inj in H2; [|apply N.mod_lt; lia..].
  assert (E : Byte.to_N x = Byte.to_N y).
  { rewrite (N.div_mod (Byte.to_N x) 16), (N.div_mod (Byte.to_N y) 16) by lia.
    rewrite H1, H2. reflexivity. }
  f_equal; [|apply IH; assumption].
  pose proof (Byte.of_to_N x) as Ex. rewrite E, Byte.of_to_N in Ex. congruence.
Qed.

Lemma append_inv_head s a b : (s ++ a = s ++ b)%string -> a = b.
Proof. induction s as [|c s IH]; cbn; [auto|]. intros [= H]. auto. Qed.

Lemma length_append a b : String.length (a ++ b) = (String.length a + String.length b)%nat.
Proof. induction a as [|c a IH]; cbn; [reflexivity|]. rewrite IH. reflexivity. Qed.

Lemma append_inv_tail s : forall a b, (a ++ s = b ++ s)%string -> a = b.
Proof.
  induction a as [|c a IH]; intros [|d b] H; cbn in H.
  - reflexivity.
  - apply (f_equal String.length) in H. cbn in H. rewrite length_append in H. lia.
  - apply (f_equal String.length) in H. cbn in H. rewrite length_append in H. lia.
  - injection H as -> H. f_equal. apply IH. assumption.
Qed.

(** X21.  Different random bytes give different temporary paths and
    different displaced paths: [toString("hex")] loses nothing. *)
Theorem random_bytes_determine_the_paths (rawDest : ParsedPath) (a b : list Byte.byte) :
  a <> b ->
  tempFilePath rawDest (hex a) <> tempFilePath rawDest (hex b)
  /\ oldServerPath rawDest (hex a) <> oldServerPath rawDest (hex b).
Proof.
  intros Hab. unfold tempFilePath, oldServerPath, joinPath. split; intros [= H]; apply Hab.
  - apply append_inv_head in H. apply hex_inj. assumption.
  - apply append_inv_head in H. apply (append_inv_head "-stale-") in H.
    apply append_inv_tail in H. apply hex_inj. assumption.
Qed.

Lemma hex_not_ext bs e :
  bs <> [] -> (e = "" \/ exists s, e = String "." s)%string -> hex bs <> e.
Proof.
  intros Hbs [->|(s & ->)] H.
  - destruct bs; [contradiction|discriminate].
  - pose proof (hex_digits bs) as Hd. rewrite H in Hd. cbn in Hd. discriminate.
Qed.

(** X22.  With an extension as [path.parse] gives it, empty or starting
    with a dot, the temporary path, the displaced path and the
    destination are three different files. *)
Theorem install_paths_are_distinct (opts : DownloadOpts) (randomBytes : list Byte.byte) :
  randomBytes <> [] ->
  (ext (dest opts) = "" \/ exists s, ext (dest opts) = String "." s)%string ->
  let temp := tempFilePath (dest opts) (hex randomBytes) in
  let old := oldServerPath (dest opts) (hex randomBytes) in
  temp <> dest_uri opts /\ old <> dest_uri opts /\ temp <> old.
Proof.
  intros Hbs Hext. cbn zeta. unfold tempFilePath, oldServerPath, dest_uri, joinPath.
  repeat split; intros [= H]; apply append_inv_head in H.
  - exact (hex_not_ext randomBytes _ Hbs Hext H).
  - apply (f_equal String.length) in H. cbn in H. rewrite length_append in H. lia.
  - apply (f_equal String.length) in H. cbn in H. rewrite length_append in H. lia.
Qed.

(** * [Number] of a decimal rendering *)

Lemma uint_chars d :
  forallb is_decimal_digit (list_ascii_of_string (NilEmpty.string_of_uint d)) = true.
Proof. induction d; cbn; auto. Qed.

Ltac digit_step :=
  cbn [NilEmpty.string_of_uint list_ascii_of_string digits_value];
  match goal with
  | |- context [digit_value 10 ?c] =>
      let v := eval vm_compute in (digit_value 10 c) in
      change (digit_value 10 c) with v; cbv beta iota
  end.

Lemma digits_value_acc d : forall acc,
  digits_value 10 (Zpos acc) (list_ascii_of_string (NilEmpty.string_of_uint d))
  = Some (Zpos (Pos.of_uint_acc d acc)).
Proof.
  induction d; intros acc; [reflexivity|..]; digit_step; cbn [Pos.of_uint_acc];
    rewrite <- IHd; f_equal; lia.
Qed.

Lemma digits_value_uint d :
  digits_value 10 0 (list_ascii_of_string (NilEmpty.string_of_uint d))
  = Some (Z.of_N (Pos.of_uint d)).
Proof.
  induction d; [reflexivity|..]; digit_step; cbn [Pos.of_uint];
    [exact IHd|apply digits_value_acc..].
Qed.

Lemma digit_is_plain c :
  is_decimal_digit c = true ->
  is_whitespace c = false
  /\ (exists v, digit_value 10 c = Some v)
  /\ (forall l : ascii, In l ["x"; "X"; "o"; "O"; "b"; "B"; "-"; "+"; "I"]%char ->
      Ascii.eqb c l = false).
Proof.
  destruct c as [[] [] [] [] [] [] [] []]; intros H; try discriminate H;
    (split; [reflexivity|]); (split; [eexists; reflexivity|]);
    intros l Hl; cbn in Hl; intuition (subst; reflexivity).
Qed.

Lemma trim_start_digit c cs :
  is_decimal_digit c = true -> trim_start (c :: cs) = c :: cs.
Proof. intros H. cbn. destruct (digit_is_plain c H) as (-> & _). reflexivity. Qed.

Lemma trim_digits cs :
  forallb is_decimal_digit cs = true -> trim cs = cs.
Proof.
  intros H. unfold trim. destruct cs as [|c cs]; [reflexivity|].
  cbn [forallb] in H. apply andb_prop in H. destruct H as (Hc & Hcs).
  rewrite trim_start_digit by assumption.
  assert (Hr : forallb is_decimal_digit (rev (c :: cs)) = true).
  { apply forallb_forall. intros x Hx. apply in_rev in Hx. destruct Hx as [<-|Hx]; [assumption|].
    rewrite forallb_forall in Hcs. auto. }
  destruct (rev (c :: cs)) as [|d ds] eqn:E.
  - apply (f_equal (@rev ascii)) in E. rewrite rev_involutive in E. discriminate.
  - cbn [forallb] in Hr. apply andb_prop in Hr. destruct Hr as (Hd & _).
    rewrite trim_start_digit by assumption. rewrite <- E. apply rev_involutive.
Qed.

Lemma span_digits_all cs :
  forallb is_decimal_digit cs = true -> span_digits cs = (cs, []).
Proof.
  induction cs as [|c cs IH]; [reflexivity|]. cbn [forallb]. intros H.
  apply andb_prop in H. destruct H as (Hc & Hcs).
  cbn [span_digits]. destruct (digit_is_plain c Hc) as (_ & (v & ->) & _).
  rewrite (IH Hcs). reflexivity.
Qed.

Lemma round_decimal_integer m : 0 <= m -> round_decimal false m 0 = of_Z m.
Proof.
  intros Hm. unfold round_decimal. destruct (Z.eqb_spec m 0) as [->|Hne]; [reflexivity|].
  cbn [Z.leb Z.compare cond_Zopp]. rewrite Z.pow_0_r, Z.mul_1_r. reflexivity.
Qed.

Lemma digits_value_nonneg cs : forall acc v,
  0 <= acc -> digits_value 10 acc cs = Some v -> 0 <= v.
Proof.
  induction cs as [|c cs IH]; intros acc v Hacc; cbn [digits_value].
  - intros [= <-]. assumption.
  - destruct (digit_value 10 c) as [d|] eqn:E; [|discriminate].
    apply IH. unfold digit_value in E.
    destruct (_ <? 10) eqn:E'; [|discriminate]. injection E as <-.
    repeat match goal with |- context [if ?b then _ else _] => destruct b eqn:? end; lia.
Qed.

Lemma parse_signed_decimal_digits c cs :
  forallb is_decimal_digit (c :: cs) = true ->
  parse_signed_decimal (c :: cs) = of_Z (decimal (c :: cs)).
Proof.
  intros H. pose proof H as Hall. cbn [forallb] in H. apply andb_prop in H.
  destruct H as (Hc & Hcs). destruct (digit_is_plain c Hc) as (_ & _ & Hl).
  unfold parse_signed_decimal.
  assert (Hsign : match c :: cs with
                  | "-"%char :: r => (true, r)
                  | "+"%char :: r => (false, r)
                  | _ => (false, c :: cs)
                  end = (false, c :: cs)).
  { clear -Hc. destruct c as [[] [] [] [] [] [] [] []]; try discriminate Hc; reflexivity. }
  rewrite Hsign.
  assert (HI : String.eqb (string_of_list_ascii (c :: cs)) "Infinity" = false).
  { cbn [string_of_list_ascii String.eqb]. rewrite (Hl "I"%char) by (cbn; tauto). reflexivity. }
  rewrite HI. unfold parse_unsigned_decimal. rewrite (span_digits_all _ Hall).
  rewrite app_nil_r. cbn [parse_exponent List.length Z.of_nat Z.sub Z.opp Z.add].
  apply round_decimal_integer. unfold decimal.
  destruct (digits_value 10 0 (c :: cs)) as [v|] eqn:E; [|lia].
  apply (digits_value_nonneg _ _ _ (Z.le_refl 0) E).
Qed.

Lemma StringToNumber_digits str :
  str <> EmptyString ->
  forallb is_decimal_digit (list_ascii_of_string str) = true ->
  StringToNumber str = of_Z (decimal (list_ascii_of_string str)).
Proof.
  intros Hne H. unfold StringToNumber. rewrite (trim_digits _ H).
  destruct (list_ascii_of_string str) as [|c cs] eqn:E.
  { destruct str; [contradiction|discriminate]. }
  destruct cs as [|c' cs].
  - rewrite <- (parse_signed_decimal_digits c [] H).
    clear. destruct c as [[] [] [] [] [] [] [] []]; reflexivity.
  - assert (Hc' : is_decimal_digit c' = true).
    { cbn [forallb] in H. apply andb_prop in H. destruct H as (_ & H).
      apply andb_prop in H. apply H. }
    destruct (digit_is_plain c' Hc') as (_ & _ & Hl).
    rewrite <- (parse_signed_decimal_digits c (c' :: cs) H).
    assert (Hx : forall l, In l ["x"; "X"; "o"; "O"; "b"; "B"]%char -> Ascii.eqb c' l = false).
    { intros l Hin. apply Hl. cbn in *. tauto. }
    clear -Hx.
    destruct c as [[] [] [] [] [] [] [] []]; try reflexivity.
    rewrite !Hx by (cbn; tauto). reflexivity.
Qed.

(** X11.  [Number] reads the decimal rendering of a non-negative integer
    as that integer (rounded to the nearest binary64 value, which is the
    integer itself below [2^53]): a [content-length] header of digits is
    the total it says. *)
Theorem Number_of_decimal (n : N) : Number (Some (show_N n)) = of_Z (Z.of_N n).
Proof.
  unfold Number, show_N, NilZero.string_of_uint.
  assert (Hd : N.to_uint n <> Decimal.Nil).
  { destruct n; [discriminate|apply DecimalPos.Unsigned.to_uint_nonnil]. }
  assert (E : match N.to_uint n with
              | Decimal.Nil => "0"%string
              | _ => NilEmpty.string_of_uint (N.to_uint n)
              end = NilEmpty.string_of_uint (N.to_uint n)).
  { destruct (N.to_uint n); [contradiction|reflexivity..]. }
  rewrite E. rewrite StringToNumber_digits.
  - unfold decimal. rewrite digits_value_uint.
    change (Pos.of_uint (N.to_uint n)) with (N.of_uint (N.to_uint n)).
    rewrite DecimalN.Unsigned.of_to. reflexivity.
  - destruct (N.to_uint n); [contradiction|discriminate..].
  - apply uint_chars.
Qed.

(** * A transfer from the header to the last report *)

Section EndToEnd.

Context {S : Type} {FS : FileSystem S}.
Variable fetch : Request -> result Response.
Variable json : string -> result GithubRelease.
Variable createGunzip : Transform.
Variable node_version : N * N.


(** X12.  When the [content-length] header is the decimal rendering of
    a total of at most [2^44] bytes and the chunks of the body add up to
    that total, a download that returns has made [100] its last
    report. *)
Theorem complete_transfer_ends_at_100 (urlString : string) (destFilePath : Uri)
    (mode : option N) (gunzip : bool) (httpProxy : option string)
    (w w' : World (S := S)) (c : number) (res : Response) (total : N) :
  fetch (download_request urlString httpProxy) = Ok res ->
  headers_get (headers res) "content-length" = Some (show_N total) ->
  (0 < total <= 2 ^ 44)%N ->
  sum_Z (map (fun b => Z.of_nat (List.length b)) (body res)) = Z.of_N total ->
  downloadFile fetch createGunzip node_version urlString destFilePath mode gunzip
    httpProxy onProgress (of_Z 0) w = (Ok c, w') ->
  exists evs,
    reports (trace w') = reports (trace w) ++ evs
    /\ last (map percentage evs) (of_Z 0) = of_Z 100.
Proof.
  intros Hres Hcl Ht Hsum H.
  rewrite (downloadFile_reports fetch createGunzip node_version _ _ _ _ _ _ _ _ _ Hres H).
  rewrite Hcl, Number_of_decimal. eexists. split; [reflexivity|].
  assert (Hl : Forall (fun l => 0 <= l) (map (fun b => Z.of_nat (List.length b)) (body res))).
  { apply Forall_forall. intros l Hin. apply in_map_iff in Hin. destruct Hin as (b & <- & _). lia. }
  destruct (progress_events_last (Z.of_N total) _ ltac:(lia) Hl ltac:(lia)) as (q & Hq & ->).
  rewrite Hsum in Hq. f_equal. apply (nearest_full (Z.of_N total)); [lia|assumption].
Qed.

End EndToEnd.

(** * What the removal of stale binaries spares *)

Lemma append_split a : forall b c d,
  (a ++ b = c ++ d)%string -> (String.length a <= String.length c)%nat ->
  exists m, c = (a ++ m)%string /\ b = (m ++ d)%string.
Proof.
  induction a as [|x a IH]; intros b c d H Hlen.
  - exists c. auto.
  - destruct c as [|y c]; [cbn in Hlen; lia|].
    cbn in H, Hlen. injection H as -> H.
    destruct (IH b c d H ltac:(lia)) as (m & -> & ->). exists m. auto.
Qed.

Lemma stale_in_the_rest base rest :
  includes (base ++ rest) (base ++ "-stale-") = true -> includes rest "-stale-" = true.
Proof.
  intros H. apply includes_spec in H. destruct H as (pre & post & H).
  rewrite string_app_assoc, <- (string_app_assoc pre base) in H.
  apply append_split in H; [|rewrite length_append; lia].
  destruct H as (m & _ & ->). apply includes_spec. exists m, post. reflexivity.
Qed.

Lemma chars_append a b :
  list_ascii_of_string (a ++ b) = (list_ascii_of_string a ++ list_ascii_of_string b)%list.
Proof. induction a as [|c a IH]; cbn; [reflexivity|]. rewrite IH. reflexivity. Qed.

Lemma hex_has_no_stale bs : includes (hex bs) "-stale-" = false.
Proof.
  destruct (includes (hex bs) "-stale-") eqn:E; [|reflexivity].
  apply includes_spec in E. destruct E as (pre & post & E).
  pose proof (hex_digits bs) as H. rewrite E, !chars_append, !forallb_app in H.
  cbn in H. rewrite andb_false_r in H. discriminate.
Qed.

Section Cleanup.

Context {S : Type} {FS : FileSystem S}.

Lemma remove_stale_deletes rawDest (w : World (S := S)) :
  deletes (trace (snd (remove_stale rawDest w)))
  = deletes (trace w)
    ++ match fst (fs_readDirectory (dir rawDest) (fs w)) with
       | Ok entries =>
           map (joinPath (dir rawDest))
             (filter (fun entry => includes entry (pname rawDest ++ "-stale-"))
                (map fst entries))
       | Err _ => []
       end.
Proof.
  unfold remove_stale, try_catch at 1, bind at 1, readDirectory, bind at 1, emit, on_fs.
  cbn [fs trace].
  destruct (fs_readDirectory (dir rawDest) (fs w)) as [[entries|e] s1]; cbn [fst].
  - match goal with |- context [for_each ?f entries ?w1] =>
      destruct (remove_entries_deletes (dir rawDest) (pname rawDest ++ "-stale-")
                  entries w1) as (w' & E & D)
    end.
    rewrite E. cbn [snd]. rewrite D. cbn [trace]. rewrite deletes_app. cbn.
    rewrite app_nil_r. reflexivity.
  - unfold log_error, emit. cbn [snd trace]. rewrite !deletes_app. cbn.
    rewrite !app_nil_r. reflexivity.
Qed.

Variable fetch : Request -> result Response.
Variable createGunzip : Transform.
Variable node_version : N * N.

Lemma remove_stale_spares (opts : DownloadOpts) (randomBytes : list Byte.byte)
    (w : World (S := S)) :
  includes (ext (dest opts)) "-stale-" = false ->
  exists removed,
    deletes (trace (snd (remove_stale (dest opts) w))) = deletes (trace w) ++ removed
    /\ ~ In (dest_uri opts) removed
    /\ ~ In (tempFilePath (dest opts) (hex randomBytes)) removed.
Proof.
  intros Hext. rewrite remove_stale_deletes. eexists. split; [reflexivity|].
  assert (Hsel : forall base,
             In (joinPath (dir (dest opts)) base)
                match fst (fs_readDirectory (dir (dest opts)) (fs w)) with
                | Ok entries =>
                    map (joinPath (dir (dest opts)))
                      (filter (fun entry => includes entry (pname (dest opts) ++ "-stale-"))
                         (map fst entries))
                | Err _ => []
                end ->
             includes base (pname (dest opts) ++ "-stale-") = true).
  { intros base Hin. destruct (fst _) as [entries|e]; [|contradiction].
    apply in_map_iff in Hin. destruct Hin as (entry & [= <-] & Hin).
    apply filter_In in Hin. apply Hin. }
  split; intros Hin; apply Hsel in Hin; apply stale_in_the_rest in Hin.
  - rewrite Hext in Hin. discriminate.
  - rewrite hex_has_no_stale in Hin. discriminate.
Qed.

Lemma deletes_of_logs logs : Forall log_event logs -> deletes logs = [].
Proof.
  induction 1 as [|e logs He _ IH]; [reflexivity|].
  destruct e; try contradiction. exact IH.
Qed.

Lemma deletes_of_transfer temp tl : Forall (transfer_event temp) tl -> deletes tl = [].
Proof.
  induction 1 as [|e tl He _ IH]; [reflexivity|].
  destruct e; try contradiction; exact IH.
Qed.

(** X23.  Unless the extension of the destination contains [-stale-],
    whatever [download] deletes, it deletes neither the destination it
    has just installed nor its temporary file. *)
Theorem download_spares_what_it_installs (opts : DownloadOpts) (randomBytes : list Byte.byte)
    (w : World (S := S)) :
  includes (ext (dest opts)) "-stale-" = false ->
  exists removed,
    deletes (trace (snd (download fetch createGunzip node_version opts randomBytes w)))
    = deletes (trace w) ++ removed
    /\ ~ In (dest_uri opts) removed
    /\ ~ In (tempFilePath (dest opts) (hex randomBytes)) removed.
Proof.
  intros Hext. unfold download.
  unfold bind at 1. unfold emit at 1.
  set (w1 := {| fs := fs w; trace := trace w ++ [EWithProgress (progressTitle opts)] |}).
  unfold bind at 1.
  destruct (transfer_trace fetch createGunzip node_version (url opts)
              (tempFilePath (dest opts) (hex randomBytes)) (mode opts)
              (match gunzip opts with Some b => b | None => false end)
              (httpProxy opts) onProgress (of_Z 0) w1) as (tl & E2 & F2 & _).
  apply deletes_of_transfer in F2.
  destruct (downloadFile _ _ _ _ _ _ _ _ _ _ w1) as [[[c'|e']|] w2]; cbn [snd] in E2.
  2,3:
    exists []; cbn [snd]; rewrite E2; subst w1; cbn [trace];
    rewrite !deletes_app, F2; cbn; rewrite !app_nil_r; auto.
  unfold bind at 1.
  destruct (displace_old_trace opts (oldServerPath (dest opts) (hex randomBytes)) w2)
    as (dl & E3 & F3).
  apply deletes_of_logs in F3.
  destruct (displace_old_never_throws opts (oldServerPath (dest opts) (hex randomBytes)) w2)
    as ([] & w3 & H3).
  rewrite H3 in E3 |- *. cbn [snd] in E3.
  unfold bind at 1.
  destruct (install_new_trace opts (tempFilePath (dest opts) (hex randomBytes)) w3)
    as (il & E4 & F4).
  apply deletes_of_logs in F4.
  destruct (install_new_never_throws opts (tempFilePath (dest opts) (hex randomBytes)) w3)
    as ([] & w4 & H4).
  rewrite H4 in E4 |- *. cbn [snd] in E4.
  destruct (remove_stale_spares opts randomBytes w4 Hext) as (removed & E5 & Hd & Ht).
  exists removed. split; [|auto].
  rewrite E5, E4, E3, E2. subst w1. cbn [trace].
  unfold deletes in *. rewrite !flat_map_app. cbn [flat_map app]. rewrite F2, F3, F4.
  cbn. rewrite !app_nil_r. reflexivity.
Qed.

End Cleanup.

(** * The paths [download] works on *)

Lemma renames_app a b : renames (a ++ b) = renames a ++ renames b.
Proof. apply flat_map_app. Qed.

Lemma renames_of_logs logs : Forall log_event logs -> renames logs = [].
Proof.
  induction 1 as [|e logs He _ IH]; [reflexivity|].
  destruct e; try contradiction. exact IH.
Qed.

Lemma renames_of_transfer temp tl : Forall (transfer_event temp) tl -> renames tl = [].
Proof.
  induction 1 as [|e tl He _ IH]; [reflexivity|].
  destruct e; try contradiction; exact IH.
Qed.

Lemma renames_of_cleanup d tl : Forall (cleanup_event d) tl -> renames tl = [].
Proof.
  induction 1 as [|e tl He _ IH]; [reflexivity|].
  destruct e; try contradiction; exact IH.
Qed.

Section Paths.

Context {S : Type} {FS : FileSystem S}.
Variable fetch : Request -> result Response.
Variable createGunzip : Transform.
Variable node_version : N * N.

(** A response that passes the two checks of [downloadFile] has its
    write stream created, on the path and with the mode given. *)
Lemma downloadFile_creates_the_stream {C} urlString destFilePath mode gunzip
    httpProxy (cb : C -> number -> number -> option ProgressEvent * C) c
    (w : World (S := S)) res :
  fetch (download_request urlString httpProxy) = Ok res ->
  ok res = true ->
  isNaN (Number (headers_get (headers res) "content-length")) = false ->
  In (ECreateWriteStream destFilePath mode)
     (trace (snd (downloadFile fetch createGunzip node_version urlString destFilePath
                    mode gunzip httpProxy cb c w))).
Proof.
  intros Hres Hok Hnan. unfold downloadFile.
  match goal with |- context [snd (bind ?m ?k w)] => set (request := m); set (rest := k) end.
  assert (Hreq : exists w1, request w = (Ok res, w1)).
  { unfold request, download_request in *. unfold do_fetch, log_debug, bind, emit, lift.
    destruct (truthy httpProxy); cbn; rewrite Hres; eauto. }
  destruct Hreq as (w1 & Hreq). rewrite (bind_of_ok _ _ _ _ _ Hreq).
  unfold rest. rewrite Hok. cbn [negb]. cbv zeta. rewrite Hnan. cbn [negb assert].
  unfold ret at 1. unfold bind at 1. unfold log_debug, emit at 1. unfold bind at 1.
  unfold createWriteStream. rewrite bind_assoc. unfold emit at 1. unfold bind at 1.
  eapply In_trace_extends with (P := stream_event destFilePath).
  - destruct node_version as [major minor]. unfold end_stream.
    repeat first [apply pump_emits | apply write_emits | emits_step].
  - cbn [trace]. apply in_or_app. right. left. reflexivity.
Qed.

(** What the transfer has done stays in the trace of [download]. *)
Lemma download_keeps_the_transfer opts randomBytes (w : World (S := S)) e :
  In e (trace (snd (downloadFile fetch createGunzip node_version (url opts)
                      (tempFilePath (dest opts) (hex randomBytes)) (mode opts)
                      (match gunzip opts with Some b => b | None => false end)
                      (httpProxy opts) onProgress (of_Z 0)
                      {| fs := fs w;
                         trace := trace w ++ [EWithProgress (progressTitle opts)] |}))) ->
  In e (trace (snd (download fetch createGunzip node_version opts randomBytes w))).
Proof.
  intros Hin. unfold download. unfold bind at 1. unfold emit at 1. unfold bind at 1.
  destruct (downloadFile _ _ _ _ _ _ _ _ _ _ _) as [[[c'|e']|] w2]; cbn [snd] in *;
    [|assumption..].
  eapply In_trace_extends with (P := fun _ => True); [|assumption].
  unfold displace_old, install_new, remove_stale, rename, readDirectory, delete,
    log_info, log_error.
  repeat emits_step.
Qed.

(** The renames of a download that returns. *)
Lemma download_renames opts randomBytes (w : World (S := S)) :
  fst (download fetch createGunzip node_version opts randomBytes w) = Ok tt ->
  renames (trace (snd (download fetch createGunzip node_version opts randomBytes w)))
  = renames (trace w)
    ++ [(dest_uri opts, oldServerPath (dest opts) (hex randomBytes));
        (tempFilePath (dest opts) (hex randomBytes), dest_uri opts)].
Proof.
  intros Hrun.
  destruct (download fetch createGunzip node_version opts randomBytes w) as [r w'] eqn:H.
  cbn [fst snd] in *. subst r. unfold download in H.
  apply bind_ok in H. destruct H as ([] & w1 & H1 & H).
  apply emit_trace in H1. destruct H1 as (E1 & _).
  apply bind_ok in H. destruct H as (c' & w2 & H2 & H).
  destruct (transfer_trace fetch createGunzip node_version (url opts)
              (tempFilePath (dest opts) (hex randomBytes)) (mode opts)
              (match gunzip opts with Some b => b | None => false end)
              (httpProxy opts) onProgress (of_Z 0) w1) as (tl & E2 & F2 & _).
  rewrite H2 in E2. cbn [snd] in E2. apply renames_of_transfer in F2.
  apply bind_ok in H. destruct H as ([] & w3 & H3 & H).
  destruct (displace_old_trace opts (oldServerPath (dest opts) (hex randomBytes)) w2)
    as (dl & E3 & F3).
  rewrite H3 in E3. cbn [snd] in E3. apply renames_of_logs in F3.
  apply bind_ok in H. destruct H as ([] & w4 & H4 & H).
  destruct (install_new_trace opts (tempFilePath (dest opts) (hex randomBytes)) w3)
    as (il & E4 & F4).
  rewrite H4 in E4. cbn [snd] in E4. apply renames_of_logs in F4.
  destruct (remove_stale_trace (dest opts) w4) as (cl & E5 & F5).
  rewrite H in E5. cbn [snd] in E5. apply renames_of_cleanup in F5.
  rewrite E5, E4, E3, E2, E1.
  unfold renames in *. rewrite !flat_map_app. cbn [flat_map app].
  rewrite F2, F3, F4, F5. cbn. rewrite <- !app_assoc. reflexivity.
Qed.

(** C7.  With the five random bytes rendered as ten hexadecimal digits
    [h], the temporary path of [download] is [dir/name ++ h], without
    the extension, and its displaced path is [dir/name-stale- ++ h ++
    ext], a name of the displaced-artifact pattern, both in the directory
    of the destination.  These are the paths [download] works on: a
    response that passes the checks has its write stream created on the
    temporary path with the mode of the options; a download that returns
    has renamed the destination to the displaced path and then the
    temporary path to the destination, and nothing else; and whatever
    happens every file-system event is on these paths or in this
    directory. *)
Theorem install_paths (opts : DownloadOpts) (randomBytes : list Byte.byte)
    (w : World (S := S)) :
  List.length randomBytes = 5%nat ->
  let h := hex randomBytes in
  let rawDest := dest opts in
  let temp := joinPath (dir rawDest) (pname rawDest ++ h) in
  let old := joinPath (dir rawDest) (pname rawDest ++ "-stale-" ++ h ++ ext rawDest) in
  let run := download fetch createGunzip node_version opts randomBytes w in
  String.length h = 10%nat
  /\ forallb is_hex_digit (list_ascii_of_string h) = true
  /\ uri_dir temp = uri_dir (dest_uri opts)
  /\ uri_dir old = uri_dir (dest_uri opts)
  /\ matches_displaced_pattern (pname rawDest) (ext rawDest) (uri_base old) = true
  /\ (forall res,
        fetch (download_request (url opts) (httpProxy opts)) = Ok res ->
        ok res = true ->
        isNaN (Number (headers_get (headers res) "content-length")) = false ->
        In (ECreateWriteStream temp (mode opts)) (trace (snd run)))
  /\ (fst run = Ok tt ->
      renames (trace (snd run))
      = renames (trace w) ++ [(dest_uri opts, old); (temp, dest_uri opts)])
  /\ emits_only (install_event opts h)
       (download fetch createGunzip node_version opts randomBytes).
Proof.
  intros Hlen. cbn zeta.
  assert (Hh : String.length (hex randomBytes) = 10%nat) by (rewrite hex_length, Hlen; reflexivity).
  split; [assumption|]. split; [apply hex_digits|].
  split; [reflexivity|]. split; [reflexivity|]. split.
  { unfold matches_displaced_pattern. cbn [uri_base joinPath].
    rewrite <- string_app_assoc, strip_prefix_app.
    rewrite <- Hh, strip_hex_app by apply hex_digits.
    apply String.eqb_refl. }
  split.
  { intros res Hres Hok Hnan. apply download_keeps_the_transfer.
    apply (downloadFile_creates_the_stream _ _ _ _ _ _ _ _ res); assumption. }
  split; [apply download_renames|].
  apply download_emits.
Qed.

End Paths.

Import Sample.
Local Open Scope string_scope.

Lemma http_status_error_carries_status_witness :
  (respond (response 404 []) (release_request "v1.2.3" None None) = Ok (response 404 [])
   /\ respond (response 404 []) (download_request (url opts) None) = Ok (response 404 [])
   /\ ok (response 404 []) = false
   /\ text (response 404 []) = Ok (string_of_list_byte (List.concat payload)))
  /\ fst (fetchRelease (respond (response 404 [])) no_release "v1.2.3" None None (world [] []))
     = Err (new_Error "Got response 404 when trying to fetch release info for v1.2.3 release")
  /\ fst (downloadFile (FS := MemFs.mem_fs) (respond (response 404 [])) PassThrough node
            (url opts) (tempFilePath tool (hex randomBytes)) None false None
            onProgress (of_Z 0) (world [] []))
     = Err (new_Error "Got response 404 when trying to download a file.").
Proof.
  split; [repeat split|].
  destruct (http_status_error_carries_status (FS := MemFs.mem_fs) (respond (response 404 []))
              no_release PassThrough node "v1.2.3" None None (url opts)
              (tempFilePath tool (hex randomBytes)) None false number onProgress (of_Z 0)
              (world [] [])) as [Hrelease Htransfer].
  split.
  - exact (Hrelease (response 404 []) eq_refl eq_refl).
  - exact (Htransfer (response 404 []) eq_refl eq_refl).
Defined.

(** C6 fails as it is stated: when a response with the status 503 has a
    body that breaks off, the error [response.text()] rejects with is
    what both functions throw, and the status is nowhere in it. *)
Lemma unreadable_body_hides_the_status :
  let api := "https://api.github.com/repos/rust-analyzer/rust-analyzer/releases/tags/v1.2.3" in
  let thrown (url : string) :=
    {| err_name := "FetchError"; err_code := Some "ECONNRESET";
       err_message := "Invalid response body while trying to fetch " ++ url
                      ++ ": socket hang up" |} in
  ok (broken api 503 []) = false
  /\ fst (fetchRelease (respond (broken api 503 [])) no_release "v1.2.3" None None
            (world [] []))
     = Err (thrown api)
  /\ fst (downloadFile (FS := MemFs.mem_fs) (respond (broken (url opts) 503 [])) PassThrough
            node (url opts) (tempFilePath tool (hex randomBytes)) None false None
            onProgress (of_Z 0) (world [] []))
     = Err (thrown (url opts))
  /\ includes (err_message (thrown api)) "503" = false
  /\ includes (err_message (thrown (url opts))) "503" = false.
Proof. vm_compute. repeat split. Qed.

Lemma install_paths_witness :
  let temp := joinPath "/opt/tool" "tool0a1b2c3d4e" in
  let old := joinPath "/opt/tool" "tool-stale-0a1b2c3d4e" in
  let target := joinPath "/opt/tool" "tool" in
  let answer := respond (response 200 [("content-length", "3")]) in
  let w := world [(target, [Byte.xff])] [] in
  let run := download (FS := MemFs.mem_fs) answer PassThrough node opts randomBytes w in
  List.length randomBytes = 5%nat
  /\ String.length (hex randomBytes) = 10%nat
  /\ forallb is_hex_digit (list_ascii_of_string (hex randomBytes)) = true
  /\ uri_dir temp = uri_dir (dest_uri opts)
  /\ uri_dir old = uri_dir (dest_uri opts)
  /\ matches_displaced_pattern "tool" "" (uri_base old) = true
  /\ (forall res,
        answer (download_request (url opts) (httpProxy opts)) = Ok res ->
        ok res = true ->
        isNaN (Number (headers_get (headers res) "content-length")) = false ->
        In (ECreateWriteStream temp (mode opts)) (trace (snd run)))
  /\ (fst run = Ok tt ->
      renames (trace (snd run)) = (renames (trace w) ++ [(target, old); (temp, target)])%list)
  /\ emits_only (install_event opts (hex randomBytes))
       (download (FS := MemFs.mem_fs) answer PassThrough node opts randomBytes).
Proof.
  cbv zeta.
  assert (H : List.length randomBytes = 5%nat) by reflexivity.
  split; [exact H|].
  exact (install_paths (FS := MemFs.mem_fs) (respond (response 200 [("content-length", "3")]))
           PassThrough node opts randomBytes
           (world [(joinPath "/opt/tool" "tool", [Byte.xff])] []) H).
Defined.

(** C1 fails on the code: a response without [content-length] is not
    refused.  [Number(null)] is [0], not [NaN], the check passes, and the
    body is written to the temporary path; the one report made is for
    [Infinity] percent. *)
Theorem downloadFile_accepts_missing_content_length :
  let temp := tempFilePath tool (hex randomBytes) in
  let run := downloadFile (FS := MemFs.mem_fs) (respond (response 200 [])) PassThrough node
               (url opts) temp None false None onProgress (of_Z 0) (world [] []) in
  headers_get (headers (response 200 [])) "content-length" = None
  /\ fst run = Ok Infinity
  /\ writes (trace (snd run)) = [(temp, [Byte.x01; Byte.x02]); (temp, [Byte.x03])]
  /\ MemFs.lookup temp (fs (snd run)) = Some [Byte.x01; Byte.x02; Byte.x03]
  /\ reports (trace (snd run))
     = [{| message := Percent Infinity; increment := Infinity |}].
Proof. vm_compute. repeat split. Qed.

(** A [content-length] that is not a number is refused before the write
    stream is created. *)
Example downloadFile_refuses_nan_content_length :
  let temp := tempFilePath tool (hex randomBytes) in
  let run := downloadFile (FS := MemFs.mem_fs)
               (respond (response 200 [("content-length", "chunked")])) PassThrough node
               (url opts) temp None false None onProgress (of_Z 0) (world [] []) in
  fst run = Err {| err_name := "ProtocolInvariantError"; err_code := None;
                   err_message := "Sanity check of content-length protocol" |}
  /\ trace (snd run)
     = [EFetch {| req_url := "https://x/tool-linux"; req_headers := None; agent := None |}].
Proof. vm_compute. repeat split. Qed.

(** A [content-length] that is a number but not a non-negative integer
    passes the check as well. *)
Example downloadFile_accepts_negative_content_length :
  let temp := tempFilePath tool (hex randomBytes) in
  let run := downloadFile (FS := MemFs.mem_fs)
               (respond (response 200 [("content-length", "-1.5")])) PassThrough node
               (url opts) temp None false None onProgress (of_Z 0) (world [] []) in
  fst run = Ok (of_Z (-200))
  /\ MemFs.lookup temp (fs (snd run)) = Some [Byte.x01; Byte.x02; Byte.x03].
Proof. vm_compute. repeat split. Qed.

(** C8, as the specification states it, fails: next to [tool], the file
    [mytool-stale-notes.txt] is not a name of the displaced-artifact
    pattern of [tool], and the cleanup deletes it. *)
Lemma remove_stale_deletes_beyond_the_pattern :
  let notes := joinPath "/opt/tool" "mytool-stale-notes.txt" in
  let w := world [(joinPath "/opt/tool" "tool", [Byte.x01]); (notes, [Byte.x02])] [] in
  matches_displaced_pattern "tool" "" "mytool-stale-notes.txt" = false
  /\ deletes (trace (snd (remove_stale (FS := MemFs.mem_fs) tool w))) = [notes]
  /\ MemFs.lookup notes (fs (snd (remove_stale (FS := MemFs.mem_fs) tool w))) = None.
Proof. vm_compute. repeat split. Qed.

(** A run of [download] whose final rename fails, the destination being
    locked: it returns normally, the destination keeps the old binary and
    the failure is in the log. *)
Example download_returns_when_final_rename_fails :
  let target := joinPath "/opt/tool" "tool" in
  let w := world [(target, [Byte.xff])] [target] in
  let run := download (FS := MemFs.mem_fs) (respond (response 200 [("content-length", "3")]))
               PassThrough node opts randomBytes w in
  fst run = Ok tt
  /\ MemFs.lookup target (fs (snd run)) = Some [Byte.xff]
  /\ errors_logged (trace (snd run))
     = [[LText "Cannot rename existing server instance: FileSystemError: NoPermissions"];
      [LText "Cannot update server binary: FileSystemError: NoPermissions"]].
Proof. vm_compute. repeat split. Qed.

(** The scenario of the specification: the payload ends up at the
    destination, the old binary is displaced and then removed, and no
    [tool-stale-*] file is left. *)
Example download_installs_and_cleans_up :
  let target := joinPath "/opt/tool" "tool" in
  let w := world [(target, [Byte.xff])] [] in
  let run := download (FS := MemFs.mem_fs) (respond (response 200 [("content-length", "3")]))
               PassThrough node opts randomBytes w in
  fst run = Ok tt
  /\ MemFs.files (fs (snd run)) = [(target, [Byte.x01; Byte.x02; Byte.x03])]
  /\ renames (trace (snd run))
     = [(target, joinPath "/opt/tool" "tool-stale-0a1b2c3d4e");
        (joinPath "/opt/tool" "tool0a1b2c3d4e", target)]
  /\ deletes (trace (snd run)) = [joinPath "/opt/tool" "tool-stale-0a1b2c3d4e"]
  /\ map percentage (reports (trace (snd run))) = [of_Z 67; of_Z 100].
Proof. vm_compute. repeat split. Qed.

(** A body that ends before the announced total is taken for the
    download: three bytes of ten are written, the last report is 30
    percent, and [downloadFile] returns. *)
Example short_body_is_taken_for_the_download :
  let temp := tempFilePath tool (hex randomBytes) in
  let run := downloadFile (FS := MemFs.mem_fs)
               (respond (response 200 [("content-length", "10")])) PassThrough node
               (url opts) temp None false None onProgress (of_Z 0) (world [] []) in
  fst run = Ok (of_Z 30)
  /\ MemFs.lookup temp (fs (snd run)) = Some [Byte.x01; Byte.x02; Byte.x03]
  /\ map percentage (reports (trace (snd run))) = [of_Z 20; of_Z 30].
Proof. vm_compute. repeat split. Qed.

(** A body whose stream fails once the payload is through: without
    [gunzip] the failure of the stream is thrown; with [gunzip] (the
    transform that hands its input on standing for it) the payload is
    written in the same way and the call never settles, and so does
    [download], which renames nothing. *)
Example failing_body_with_and_without_gunzip :
  let temp := tempFilePath tool (hex randomBytes) in
  let answer := respond (broken (url opts) 200 [("content-length", "3")]) in
  let transfer gunzip :=
    downloadFile (FS := MemFs.mem_fs) answer PassThrough node (url opts) temp None gunzip
      None onProgress (of_Z 0) (world [] []) in
  let unzipping :=
    {| progressTitle := progressTitle opts; url := url opts; dest := dest opts;
       mode := mode opts; gunzip := Some true; httpProxy := None |} in
  let install := download (FS := MemFs.mem_fs) answer PassThrough node unzipping randomBytes
                   (world [] []) in
  fst (transfer false) = Err hang_up
  /\ fst (transfer true) = Pending
  /\ writes (trace (snd (transfer true))) = [(temp, [Byte.x01; Byte.x02]); (temp, [Byte.x03])]
  /\ trace (snd (transfer true)) = trace (snd (transfer false))
  /\ fst install = Pending
  /\ renames (trace (snd install)) = [].
Proof. vm_compute. repeat split. Qed.

(** In the root directory the joined path has one separator. *)
Example fsPath_in_the_root :
  fsPath (joinPath "/" "tool0a1b2c3d4e") = "/tool0a1b2c3d4e"
  /\ fsPath (joinPath "/opt/tool" "tool0a1b2c3d4e") = "/opt/tool/tool0a1b2c3d4e".
Proof. split; reflexivity. Qed.

(** * The properties of the last sections on the run of the examples *)


Lemma failed_request_opens_no_file_witness :
  let run := downloadFile (FS := MemFs.mem_fs) (respond (response 404 [])) PassThrough node
               (url opts) (tempFilePath tool (hex randomBytes)) None false None
               onProgress (of_Z 0) (world [] []) in
  (forall res, respond (response 404 []) (download_request (url opts) None) = Ok res ->
               ok res = false)
  /\ (exists e, fst run = Err e)
  /\ fs (snd run) = fs (world [] [])
  /\ exists tl, trace (snd run) = (trace (world [] []) ++ tl)%list /\ Forall network_event tl.
Proof.
  cbv zeta.
  assert (H : forall res, respond (response 404 []) (download_request (url opts) None) = Ok res ->
                          ok res = false).
  { intros res E. injection E as <-. reflexivity. }
  split; [exact H|].
  exact (failed_request_opens_no_file (FS := MemFs.mem_fs) (respond (response 404 []))
           PassThrough node number (url opts) (tempFilePath tool (hex randomBytes)) None false
           None onProgress (of_Z 0) (world [] []) H).
Defined.

Lemma nan_content_length_is_refused_witness :
  let res := response 200 [("content-length", "chunked")] in
  let run := downloadFile (FS := MemFs.mem_fs) (respond res) PassThrough node
               (url opts) (tempFilePath tool (hex randomBytes)) None false None
               onProgress (of_Z 0) (world [] []) in
  (respond res (download_request (url opts) None) = Ok res
   /\ ok res = true
   /\ isNaN (Number (headers_get (headers res) "content-length")) = true)
  /\ fst run = Err {| err_name := "ProtocolInvariantError"; err_code := None;
                      err_message := "Sanity check of content-length protocol" |}
  /\ fs (snd run) = fs (world [] [])
  /\ exists tl, trace (snd run) = (trace (world [] []) ++ tl)%list /\ Forall network_event tl.
Proof.
  cbv zeta. split; [repeat split|].
  exact (nan_content_length_is_refused (FS := MemFs.mem_fs)
           (respond (response 200 [("content-length", "chunked")])) PassThrough node number
           (url opts) (tempFilePath tool (hex randomBytes)) None false None onProgress (of_Z 0)
           (world [] []) (response 200 [("content-length", "chunked")])
           eq_refl eq_refl eq_refl).
Defined.


Lemma downloadFile_stream_operations_witness :
  let res := response 200 [("content-length", "3")] in
  let temp := tempFilePath tool (hex randomBytes) in
  let run := downloadFile (FS := MemFs.mem_fs) (respond res) PassThrough node (url opts) temp
               (Some 493%N) false None onProgress (of_Z 0) (world [] []) in
  (respond res (download_request (url opts) None) = Ok res
   /\ run = (Ok (of_Z 100), snd run))
  /\ exists ts outs lastb,
       transform_all PassThrough tt (body res) = Ok (ts, outs)
       /\ flush PassThrough ts = Ok lastb
       /\ stream_ops (trace (snd run))
          = (stream_ops (trace (world [] []))
             ++ ECreateWriteStream temp (Some 493%N)
                :: map (EWrite temp) (filter nonempty (outs ++ [lastb]))
             ++ EEnd temp :: (if has_close_fix node then [] else [EDestroy temp]))%list.
Proof.
  cbv zeta.
  match goal with |- (_ /\ ?run = _) /\ _ => assert (H : run = (Ok (of_Z 100), snd run)) end.
  { vm_compute. reflexivity. }
  split; [split; [reflexivity|exact H]|].
  exact (downloadFile_stream_operations (FS := MemFs.mem_fs)
           (respond (response 200 [("content-length", "3")])) PassThrough node number
           (url opts) (tempFilePath tool (hex randomBytes)) (Some 493%N) false None onProgress
           (of_Z 0) (of_Z 100) (world [] []) _ (response 200 [("content-length", "3")])
           eq_refl H).
Defined.

Lemma plain_transfer_writes_the_body_witness :
  let res := response 200 [("content-length", "3")] in
  let temp := tempFilePath tool (hex randomBytes) in
  let run := downloadFile (FS := MemFs.mem_fs) (respond res) PassThrough node (url opts) temp
               None false None onProgress (of_Z 0) (world [] []) in
  (respond res (download_request (url opts) None) = Ok res
   /\ run = (Ok (of_Z 100), snd run))
  /\ writes (trace (snd run))
     = (writes (trace (world [] [])) ++ map (pair temp) (filter nonempty (body res)))%list
  /\ List.concat (filter nonempty (body res)) = List.concat (body res).
Proof.
  cbv zeta.
  match goal with |- (_ /\ ?run = _) /\ _ => assert (H : run = (Ok (of_Z 100), snd run)) end.
  { vm_compute. reflexivity. }
  split; [split; [reflexivity|exact H]|].
  exact (plain_transfer_writes_the_body (FS := MemFs.mem_fs)
           (respond (response 200 [("content-length", "3")])) PassThrough node number
           (url opts) (tempFilePath tool (hex randomBytes)) None None onProgress
           (of_Z 0) (of_Z 100) (world [] []) _ (response 200 [("content-length", "3")])
           eq_refl H).
Defined.

Lemma downloadFile_calls_back_for_each_chunk_witness :
  let res := response 200 [("content-length", "3")] in
  let temp := tempFilePath tool (hex randomBytes) in
  let run := downloadFile (FS := MemFs.mem_fs) (respond res) PassThrough node (url opts) temp
               None false None onProgress (of_Z 0) (world [] []) in
  let calls := on_data_all onProgress (Number (headers_get (headers res) "content-length"))
                 (of_Z 0, of_Z 0) (map (fun b => Z.of_nat (List.length b)) (body res)) in
  (respond res (download_request (url opts) None) = Ok res
   /\ run = (Ok (of_Z 100), snd run))
  /\ reports (trace (snd run)) = (reports (trace (world [] [])) ++ fst calls)%list
  /\ of_Z 100 = snd (snd calls).
Proof.
  cbv zeta.
  match goal with |- (_ /\ ?run = _) /\ _ => assert (H : run = (Ok (of_Z 100), snd run)) end.
  { vm_compute. reflexivity. }
  split; [split; [reflexivity|exact H]|].
  exact (downloadFile_calls_back_for_each_chunk (FS := MemFs.mem_fs)
           (respond (response 200 [("content-length", "3")])) PassThrough node number
           (url opts) (tempFilePath tool (hex randomBytes)) None false None onProgress
           (of_Z 0) (of_Z 100) (world [] []) _ (response 200 [("content-length", "3")])
           eq_refl H).
Defined.

Lemma complete_transfer_ends_at_100_witness :
  let res := response 200 [("content-length", "3")] in
  let temp := tempFilePath tool (hex randomBytes) in
  let run := downloadFile (FS := MemFs.mem_fs) (respond res) PassThrough node (url opts) temp
               None false None onProgress (of_Z 0) (world [] []) in
  (respond res (download_request (url opts) None) = Ok res
   /\ headers_get (headers res) "content-length" = Some (show_N 3)
   /\ (0 < 3 <= 2 ^ 44)%N
   /\ sum_Z (map (fun b => Z.of_nat (List.length b)) (body res)) = Z.of_N 3
   /\ run = (Ok (of_Z 100), snd run))
  /\ exists evs,
       reports (trace (snd run)) = (reports (trace (world [] [])) ++ evs)%list
       /\ last (map percentage evs) (of_Z 0) = of_Z 100.
Proof.
  cbv zeta.
  match goal with |- (_ /\ _ /\ _ /\ _ /\ ?run = _) /\ _ =>
    assert (H : run = (Ok (of_Z 100), snd run)) end.
  { vm_compute. reflexivity. }
  assert (Ht : (0 < 3 <= 2 ^ 44)%N) by (cbn; lia).
  split; [split; [reflexivity|split; [reflexivity|split; [exact Ht|split; [reflexivity|exact H]]]]|].
  exact (complete_transfer_ends_at_100 (FS := MemFs.mem_fs)
           (respond (response 200 [("content-length", "3")])) PassThrough node
           (url opts) (tempFilePath tool (hex randomBytes)) None false None
           (world [] []) _ (of_Z 100) (response 200 [("content-length", "3")]) 3%N
           eq_refl eq_refl Ht eq_refl H).
Defined.

Lemma readBytes_counts_the_body_witness :
  (Forall (fun l => 0 <= l) [2; 1] /\ sum_Z [2; 1] < 2 ^ 53)
  /\ fst (snd (on_data_all onProgress (of_Z 3) (of_Z 0, of_Z 0) [2; 1])) = of_Z (sum_Z [2; 1]).
Proof.
  assert (H : Forall (fun l => 0 <= l) [2; 1]) by (repeat constructor; lia).
  assert (H' : sum_Z [2; 1] < 2 ^ 53) by (cbn; lia).
  split; [split; assumption|].
  exact (readBytes_counts_the_body number onProgress (of_Z 3) (of_Z 0) [2; 1] H H').
Defined.

Lemma last_report_is_exact_witness :
  (0 < 3 < 2 ^ 53 /\ Forall (fun l => 0 <= l) [2; 2; 2] /\ sum_Z [2; 2; 2] <= 2 ^ 44
   /\ 100 * sum_Z [2; 2; 2] = 200 * 3)
  /\ last (map percentage (progress_events (of_Z 3) [2; 2; 2])) (of_Z 0) = of_Z 200.
Proof.
  assert (H1 : 0 < 3 < 2 ^ 53) by (cbn; lia).
  assert (H2 : Forall (fun l => 0 <= l) [2; 2; 2]) by (repeat constructor; lia).
  assert (H3 : sum_Z [2; 2; 2] <= 2 ^ 44) by (cbn; lia).
  assert (H4 : 100 * sum_Z [2; 2; 2] = 200 * 3) by reflexivity.
  split; [split; [exact H1|split; [exact H2|split; [exact H3|exact H4]]]|].
  exact (last_report_is_exact 3 [2; 2; 2] 200 H1 H2 H3 H4).
Defined.

Lemma reports_between_1_and_100_witness :
  (0 < 3 < 2 ^ 53 /\ Forall (fun l => 0 <= l) [1; 1; 1] /\ sum_Z [1; 1; 1] <= 3
   /\ sum_Z [1; 1; 1] <= 2 ^ 44)
  /\ exists ps,
       map percentage (progress_events (of_Z 3) [1; 1; 1]) = map of_Z ps
       /\ Forall (fun p => 1 <= p <= 100) ps
       /\ (List.length (progress_events (of_Z 3%Z) [1; 1; 1]%Z) <= 100)%nat.
Proof.
  assert (H1 : 0 < 3 < 2 ^ 53) by (cbn; lia).
  assert (H2 : Forall (fun l => 0 <= l) [1; 1; 1]) by (repeat constructor; lia).
  assert (H3 : sum_Z [1; 1; 1] <= 3) by (cbn; lia).
  assert (H4 : sum_Z [1; 1; 1] <= 2 ^ 44) by (cbn; lia).
  split; [split; [exact H1|split; [exact H2|split; [exact H3|exact H4]]]|].
  exact (reports_between_1_and_100 3 [1; 1; 1] H1 H2 H3 H4).
Defined.

Lemma increments_are_the_steps_witness :
  (0 < 3 < 2 ^ 53 /\ Forall (fun l => 0 <= l) [1; 1; 1] /\ sum_Z [1; 1; 1] <= 2 ^ 44)
  /\ exists ps,
       map percentage (progress_events (of_Z 3) [1; 1; 1]) = map of_Z ps
       /\ map increment (progress_events (of_Z 3) [1; 1; 1]) = map of_Z (steps 0 ps)
       /\ Forall (fun d => 1 <= d) (steps 0 ps).
Proof.
  assert (H1 : 0 < 3 < 2 ^ 53) by (cbn; lia).
  assert (H2 : Forall (fun l => 0 <= l) [1; 1; 1]) by (repeat constructor; lia).
  assert (H3 : sum_Z [1; 1; 1] <= 2 ^ 44) by (cbn; lia).
  split; [split; [exact H1|split; [exact H2|exact H3]]|].
  exact (increments_are_the_steps 3 [1; 1; 1] H1 H2 H3).
Defined.

Lemma progress_events_zero_total_witness :
  (0 < 2 /\ Forall (fun l => 0 <= l) [1] /\ 2 + sum_Z [1] < 2 ^ 53)
  /\ progress_events (of_Z 0) [2; 1]
     = [{| message := Percent Infinity; increment := Infinity |}].
Proof.
  assert (H1 : 0 < 2) by lia.
  assert (H2 : Forall (fun l => 0 <= l) [1]) by (repeat constructor; lia).
  assert (H3 : 2 + sum_Z [1] < 2 ^ 53) by (cbn; lia).
  split; [split; [exact H1|split; [exact H2|exact H3]]|].
  exact (progress_events_zero_total 2 [1] H1 H2 H3).
Defined.

Lemma download_phases_witness :
  let target := joinPath "/opt/tool" "tool" in
  let temp := tempFilePath tool (hex randomBytes) in
  let old := oldServerPath tool (hex randomBytes) in
  let run := download (FS := MemFs.mem_fs) (respond (response 200 [("content-length", "3")]))
               PassThrough node opts randomBytes (world [(target, [Byte.xff])] []) in
  fst run = Ok tt
  /\ exists transfer displaced installed cleanup,
       trace (snd run)
       = (trace (world [(target, [Byte.xff])] []) ++ transfer
          ++ ERename (dest_uri opts) old :: displaced
          ++ ERename temp (dest_uri opts) :: installed
          ++ EReadDirectory (dir (dest opts)) :: cleanup)%list
       /\ Forall (transfer_event temp) transfer
       /\ In (EEnd temp) transfer
       /\ Forall log_event displaced
       /\ Forall log_event installed
       /\ Forall (cleanup_event (dir (dest opts))) cleanup.
Proof.
  cbv zeta.
  match goal with |- ?hyp /\ _ => assert (H : hyp) by (vm_compute; reflexivity) end.
  split; [exact H|].
  exact (download_phases (FS := MemFs.mem_fs) (respond (response 200 [("content-length", "3")]))
           PassThrough node opts randomBytes
           (world [(joinPath "/opt/tool" "tool", [Byte.xff])] []) H).
Defined.

Lemma failed_download_renames_nothing_witness :
  let target := joinPath "/opt/tool" "tool" in
  let temp := tempFilePath tool (hex randomBytes) in
  let run := download (FS := MemFs.mem_fs) (respond (response 404 []))
               PassThrough node opts randomBytes (world [(target, [Byte.xff])] []) in
  fst run = Err (new_Error "Got response 404 when trying to download a file.")
  /\ exists tl,
       trace (snd run) = (trace (world [(target, [Byte.xff])] []) ++ tl)%list
       /\ Forall (transfer_event temp) tl.
Proof.
  cbv zeta.
  match goal with |- ?hyp /\ _ => assert (H : hyp) by (vm_compute; reflexivity) end.
  split; [exact H|].
  exact (failed_download_renames_nothing (FS := MemFs.mem_fs) (respond (response 404 []))
           PassThrough node opts randomBytes
           (world [(joinPath "/opt/tool" "tool", [Byte.xff])] [])
           (new_Error "Got response 404 when trying to download a file.") H).
Defined.

Lemma random_bytes_determine_the_paths_witness :
  [Byte.x0a] <> [Byte.x0b]
  /\ tempFilePath tool (hex [Byte.x0a]) <> tempFilePath tool (hex [Byte.x0b])
  /\ oldServerPath tool (hex [Byte.x0a]) <> oldServerPath tool (hex [Byte.x0b]).
Proof.
  assert (H : [Byte.x0a] <> [Byte.x0b]) by discriminate.
  split; [exact H|].
  exact (random_bytes_determine_the_paths tool [Byte.x0a] [Byte.x0b] H).
Defined.

Lemma install_paths_are_distinct_witness :
  (randomBytes <> [] /\ (ext (dest opts) = "" \/ exists s, ext (dest opts) = String "." s))
  /\ tempFilePath tool (hex randomBytes) <> dest_uri opts
  /\ oldServerPath tool (hex randomBytes) <> dest_uri opts
  /\ tempFilePath tool (hex randomBytes) <> oldServerPath tool (hex randomBytes).
Proof.
  assert (H1 : randomBytes <> []) by discriminate.
  assert (H2 : ext (dest opts) = "" \/ exists s, ext (dest opts) = String "." s)
    by (left; reflexivity).
  split; [split; [exact H1|exact H2]|].
  exact (install_paths_are_distinct opts randomBytes H1 H2).
Defined.

Lemma download_spares_what_it_installs_witness :
  let target := joinPath "/opt/tool" "tool" in
  let old := joinPath "/opt/tool" "tool-stale-0011223344" in
  let w := world [(target, [Byte.xff]); (old, [Byte.xfe])] [] in
  let run := download (FS := MemFs.mem_fs) (respond (response 200 [("content-length", "3")]))
               PassThrough node opts randomBytes w in
  includes (ext (dest opts)) "-stale-" = false
  /\ exists removed,
       deletes (trace (snd run)) = (deletes (trace w) ++ removed)%list
       /\ ~ In (dest_uri opts) removed
       /\ ~ In (tempFilePath (dest opts) (hex randomBytes)) removed.
Proof.
  cbv zeta.
  assert (H : includes (ext (dest opts)) "-stale-" = false) by reflexivity.
  split; [exact H|].
  exact (download_spares_what_it_installs (FS := MemFs.mem_fs)
           (respond (response 200 [("content-length", "3")])) PassThrough node opts randomBytes
           (world [(joinPath "/opt/tool" "tool", [Byte.xff]);
                   (joinPath "/opt/tool" "tool-stale-0011223344", [Byte.xfe])] []) H).
Defined.
